(** * ffindex_apply_mpi: a shallow embedding and its properties

    The development follows [src/ffindex_apply_mpi.c]:
    - the C integer types the program computes with ([int], [size_t],
      [ssize_t] on an LP64 platform, conversions as gcc and clang do them);
    - the partition planner of [main] and the chunk dispatcher it calls;
    - the entry pipe runner [ffindex_apply_by_entry]: the code of the parent
      process, as a function of what the system calls return (the child
      process and the program it runs are the environment);
    - the worker callback [ffindex_apply_worker_payload] and the list of
      finished chunks it maintains;
    - the two merge loops [ffindex_worker_merge_splits] and
      [ffindex_merge_splits];
    - the option loop of [main].

    The program is stateful: the functions return the actions they perform
    (system calls, output, files opened) as a trace, next to their result.
    Code that leaves defined behaviour returns [Undefined].

    Part I holds the definitions, Part II the properties. *)

From Stdlib Require Import ZArith List Lia String Ascii Bool DecimalString FinFun.
Import ListNotations.
Open Scope Z_scope.

Set Implicit Arguments.

(** * Part I: the program *)

(** ** C integers *)

Definition INT_MAX : Z := 2147483647.
Definition INT_MIN : Z := -2147483648.
Definition SIZE_MAX : Z := 18446744073709551615.
Definition SSIZE_MAX : Z := 9223372036854775807.
Definition SSIZE_MIN : Z := -9223372036854775808.

(** Conversion to [size_t] (unsigned, 64 bits): reduction modulo 2^64. *)
Definition to_size_t (z : Z) : Z := z mod 2 ^ 64.

(** Conversion to [int] (signed, 32 bits): the value modulo 2^32 taken in
    [INT_MIN .. INT_MAX]. *)
Definition to_int (z : Z) : Z := (z + 2 ^ 31) mod 2 ^ 32 - 2 ^ 31.

(** Conversion to [ssize_t] (signed, 64 bits). *)
Definition to_ssize_t (z : Z) : Z := (z + 2 ^ 63) mod 2 ^ 64 - 2 ^ 63.

Definition in_int (z : Z) : bool := (INT_MIN <=? z) && (z <=? INT_MAX).
Definition in_ssize_t (z : Z) : bool := (SSIZE_MIN <=? z) && (z <=? SSIZE_MAX).

(** ** Results of C code that may leave defined behaviour *)

Inductive undefined_behaviour : Type :=
| NullDereference
| DivisionByZero
| SignedOverflow
| BufferOverflow.

(** [OutOfFuel] is the model giving up on a loop, not a behaviour of the
    program: the properties of Part II show where it cannot happen. *)
Inductive outcome (A : Type) : Type :=
| Done (a : A)
| Undefined (u : undefined_behaviour)
| OutOfFuel.
Arguments Done {A} a.
Arguments Undefined {A} u.
Arguments OutOfFuel {A}.

Definition bind {A B : Type} (m : outcome A) (k : A -> outcome B) : outcome B :=
  match m with
  | Done a => k a
  | Undefined u => Undefined u
  | OutOfFuel => OutOfFuel
  end.

Notation "x <- m ;; k" := (bind m (fun x => k))
  (at level 61, m at next level, right associativity).

(** A signed operation: its mathematical result when it is representable,
    undefined otherwise. *)
Definition int_result (z : Z) : outcome Z :=
  if in_int z then Done z else Undefined SignedOverflow.

Definition ssize_result (z : Z) : outcome Z :=
  if in_ssize_t z then Done z else Undefined SignedOverflow.

(** ** Constants of the platform headers (Linux, glibc) *)

Definition PIPE_BUF : Z := 4096.
Definition FILENAME_MAX : Z := 4096.
Definition EPIPE : Z := 32.
Definition EXIT_SUCCESS : Z := 0.
Definition EXIT_FAILURE : Z := 1.

(** [char read_buffer[400 * 1024 * 1024];] *)
Definition READ_BUFFER_SIZE : Z := 400 * 1024 * 1024.

(** [WIFEXITED(status)] and [WEXITSTATUS(status)] of <sys/wait.h>. *)
Definition WIFEXITED (status : Z) : bool := Z.land status 127 =? 0.
Definition WEXITSTATUS (status : Z) : Z := Z.shiftr (Z.land status 65280) 8.

(** ** Formatting *)

Definition TAB : string := String (ascii_of_nat 9) EmptyString.
Definition NEWLINE : string := String (ascii_of_nat 10) EmptyString.

(** [%d], [%i], [%zd] and, for a value that is not negative, [%zu]. *)
Definition decimal (z : Z) : string := NilZero.string_of_int (Z.to_int z).

(** [snprintf(buf, size, ...)] keeps at most [size - 1] characters. *)
Definition snprintf (size : Z) (s : string) : string :=
  substring 0 (Z.to_nat (size - 1)) s.

(** ** Partition planner ([main], lines 470-472) *)

(** [int split_size = ((index->n_entries - 1) / ((MPQ_size - 1) * parts)) + 1;]
    [n_entries] is a [size_t] (a field of [ffindex_index_t], declared in
    ffindex.h; the entries are counted in [size_t] throughout the file);
    [MPQ_size] and [parts] are [int]s, their product is converted to [size_t]
    for the division and the sum is converted back to [int] by the
    initialisation. *)
Definition main_split_size (n_entries MPQ_size parts : Z) : outcome Z :=
  workers <- int_result (MPQ_size - 1) ;;
  divisor <- int_result (workers * parts) ;;
  if to_size_t divisor =? 0 then Undefined DivisionByZero
  else Done (to_int (to_size_t (to_size_t (n_entries - 1) / to_size_t divisor + 1))).

(** The second argument of [MPQ_Main]: [(split_size > 1 ? split_size : 1)],
    converted to the [size_t] parameter. *)
Definition main_chunk_size (n_entries MPQ_size parts : Z) : outcome Z :=
  split_size <- main_split_size n_entries MPQ_size parts ;;
  Done (to_size_t (if split_size >? 1 then split_size else 1)).

(** The spec's words for the same quantity. *)
Definition ceil_div (n d : Z) : Z :=
  if n mod d =? 0 then n / d else n / d + 1.

Definition spec_chunk_size (n W parts : Z) : Z :=
  Z.max 1 (ceil_div n (W * parts)).

(** ** Chunk dispatcher *)

(** A chunk is a half-open range [(start, end)] of entry indices. *)
Definition chunk : Type := (Z * Z)%type.

Definition chunk_len (c : chunk) : Z := snd c - fst c.

(** The entry indices [s, s+1, ..., e-1]. *)
Definition index_range (s e : Z) : list Z :=
  map (fun k => s + Z.of_nat k) (seq 0 (Z.to_nat (e - s))).

Definition chunk_indices (c : chunk) : list Z := index_range (fst c) (snd c).

(** Modelled from the spec: [MPQ_Main] (mpq/mpq.c) is not part of the sources
    at hand.  Section 4.1: the coordinator hands out chunks of the fixed size,
    in increasing order, until all [n] indices are exhausted; the final chunk
    may be shorter. *)
Fixpoint MPQ_chunks_from (fuel : nat) (start n size : Z) : list chunk :=
  match fuel with
  | O => []
  | S fuel' =>
      if start <? n
      then (start, Z.min (start + size) n) :: MPQ_chunks_from fuel' (start + size) n size
      else []
  end.

Definition MPQ_chunks (n size : Z) : list chunk :=
  MPQ_chunks_from (Z.to_nat n) 0 n size.

(** Every chunk but the last has exactly [size] entries; the last one has
    between 1 and [size]. *)
Fixpoint chunk_sizes_ok (size : Z) (cs : list chunk) : Prop :=
  match cs with
  | [] => True
  | c :: rest =>
      match rest with
      | [] => 0 < chunk_len c <= size
      | _ :: _ => chunk_len c = size /\ chunk_sizes_ok size rest
      end
  end.

(** Chunks in increasing order that do not overlap. *)
Definition chunks_disjoint (cs : list chunk) : Prop :=
  ForallOrdPairs (fun c d => snd c <= fst d) cs.

(** ** Archive entries *)

(** [ffindex_entry_t]: a name and a byte range of the data blob; [length]
    counts the trailing sentinel byte. *)
Record ffindex_entry : Type := {
  entry_name : string;
  entry_offset : Z;
  entry_length : Z
}.

(** Modelled from the spec: [ffindex_get_data_by_entry] (ffindex.c) is not part
    of the sources at hand.  Section 1: [fetch(entry) -> bytes], the bytes of
    the blob from the entry's offset on. *)
Definition ffindex_get_data_by_entry (data : list Byte.byte) (entry : ffindex_entry)
  : list Byte.byte :=
  skipn (Z.to_nat (entry_offset entry)) data.

(** Modelled from the spec: [ffindex_get_entry_by_index] (ffindex.c) is not
    part of the sources at hand.  Section 3: entries are addressed by index
    position [0..n-1]; section 4.4: the fetch fails out of range. *)
Definition ffindex_get_entry_by_index (index : list ffindex_entry) (i : Z)
  : option ffindex_entry :=
  if (0 <=? i) && (i <? Z.of_nat (List.length index))
  then nth_error index (Z.to_nat i) else None.

(** Modelled from the spec: [ffindex_insert_memory] (ffindex.c) is not part of
    the sources at hand.  Section 4.3: an append of [bytes] advances the
    running offset by [len(bytes) + 1]. *)
Definition ffindex_insert_memory (offset : Z) (bytes : list Byte.byte) : Z :=
  offset + Z.of_nat (List.length bytes) + 1.

(** ** The child process, as the parent sees it *)

Inductive write_behaviour : Type :=
| WriteOk (accepted : Z)   (* the pipe takes up to [accepted] bytes *)
| WriteErr (errno : Z).    (* [write] returns -1 *)

Inductive read_behaviour : Type :=
| ReadAvail (available : Z) (* bytes waiting in the pipe *)
| ReadErr (errno : Z).      (* [read] returns -1 *)

(** One invocation of the program: the outcome of [pipe] and [fork] ([0] for
    success, the [errno] otherwise), of the successive [write]s to the
    child's standard input and [read]s of its standard output, the bytes the
    child writes to its standard output, and the status [waitpid] stores. *)
Record child : Type := {
  pipe_stdin_errno : Z;
  pipe_stdout_errno : Z;
  fork_errno : Z;
  write_at : nat -> write_behaviour;
  read_at : nat -> read_behaviour;
  child_stdout : list Byte.byte;
  wait_status : Z
}.

(** [write(pipefd_stdin[1], ..., count)], the [k]-th call: the value returned
    and [errno]. *)
Definition sys_write (w : child) (k : nat) (count : Z) : Z * Z :=
  match write_at w k with
  | WriteOk accepted => (Z.min accepted count, 0)
  | WriteErr errno => (-1, errno)
  end.

(** [read(pipefd_stdout[0], b, PIPE_BUF)], the [k]-th call, with [out] the
    bytes of the child not read so far: the value returned and the bytes
    stored at [b].  Without [O_NONBLOCK] the call waits for a byte or for the
    end of file. *)
Definition sys_read (w : child) (nonblock : bool) (k : nat) (out : list Byte.byte)
  : Z * list Byte.byte :=
  match read_at w k with
  | ReadErr _ => (-1, [])
  | ReadAvail available =>
      match out with
      | [] => (0, [])
      | _ :: _ =>
          let n := if nonblock then Z.min available PIPE_BUF
                   else Z.min (Z.max available 1) PIPE_BUF in
          if n <=? 0 then (-1, [])
          else let bytes := firstn (Z.to_nat n) out in
               (Z.of_nat (List.length bytes), bytes)
      end
  end.

(** ** Observable actions *)

Inductive pipe_name : Type :=
| StdinPipe     (* pipefd_stdin *)
| StdoutPipe.   (* pipefd_stdout *)

Inductive descriptor : Type :=
| StdinRead     (* pipefd_stdin[0] *)
| StdinWrite    (* pipefd_stdin[1] *)
| StdoutRead    (* pipefd_stdout[0] *)
| StdoutWrite.  (* pipefd_stdout[1] *)

Inductive event : Type :=
| EvPipe (p : pipe_name) (errno : Z)    (* pipe(...) *)
| EvFlush
| EvFork (errno : Z)
| EvClose (d : descriptor)
| EvNonblock (on : bool)                 (* fcntl(pipefd_stdout[0], F_SETFL, ...) *)
| EvWrite (position count ret : Z)       (* write(pipefd_stdin[1], filedata + position, count) *)
| EvRead (nonblock : bool) (ret : Z)     (* read(pipefd_stdout[0], b, PIPE_BUF) *)
| EvInsert (data_file index_file : option string) (offset : Z)
           (bytes : list Byte.byte) (name : string)
| EvWaitpid (status : Z)
| EvStdout (line : string)
| EvStderr (message : string)
| EvPerror (prefix : string)
| EvFopen (path : string) (ok : bool)    (* fopen(path, "w+") *)
| EvFclose (path : string).

(** The line of the progress stream:
    [fprintf(stdout, "%s\t%zd\t%zd\t%i\n", entry->name, entry->offset, entry->length, WEXITSTATUS(status))]. *)
Definition progress_line (entry : ffindex_entry) (status : Z) : string :=
  (entry_name entry ++ TAB ++ decimal (to_ssize_t (entry_offset entry)) ++ TAB
   ++ decimal (to_ssize_t (entry_length entry)) ++ TAB
   ++ decimal (WEXITSTATUS status) ++ NEWLINE)%string.

(** ** Entry pipe runner: the parent's side of [ffindex_apply_by_entry] *)

(** [written], the number of [write] and [read] calls made, the bytes of
    [read_buffer] below [b], and the output of the child still to be read. *)
Record pipe_state : Type := {
  ps_written : Z;
  ps_nwrites : nat;
  ps_nreads : nat;
  ps_captured : list Byte.byte;
  ps_out : list Byte.byte
}.

(** [r = read(pipefd_stdout[0], b, PIPE_BUF); if (r > 0) b += r;] *)
Definition read_step (w : child) (nonblock : bool) (st : pipe_state)
  : outcome (Z * pipe_state) :=
  let '(r, bytes) := sys_read w nonblock (ps_nreads st) (ps_out st) in
  if r >? 0 then
    if Z.of_nat (List.length (ps_captured st)) + r >? READ_BUFFER_SIZE
    then Undefined BufferOverflow
    else Done (r, {| ps_written := ps_written st;
                     ps_nwrites := ps_nwrites st;
                     ps_nreads := S (ps_nreads st);
                     ps_captured := ps_captured st ++ bytes;
                     ps_out := skipn (List.length bytes) (ps_out st) |})
  else Done (r, {| ps_written := ps_written st;
                   ps_nwrites := ps_nwrites st;
                   ps_nreads := S (ps_nreads st);
                   ps_captured := ps_captured st;
                   ps_out := ps_out st |}).

(** The state after a [write], with the new value of [written]. *)
Definition after_write (st : pipe_state) (written : Z) : pipe_state :=
  {| ps_written := written; ps_nwrites := S (ps_nwrites st);
     ps_nreads := ps_nreads st; ps_captured := ps_captured st;
     ps_out := ps_out st |}.

(** [size_t rest = to_write - written; int batch_size = PIPE_BUF;]
    [if (rest < PIPE_BUF) { batch_size = rest; }] *)
Definition batch_of (to_write written : Z) : Z :=
  let rest := to_size_t (to_write - written) in
  if rest <? PIPE_BUF then to_int rest else PIPE_BUF.

(** [while (written < to_write) { ... }] (lines 141-172).  The comparison is
    made in [size_t].  A [write] that fails with an [errno] other than [EPIPE]
    ends the loop; any other [write], the one failing with [EPIPE] included,
    is followed by [written += w]. *)
Fixpoint write_loop (fuel : nat) (w : child) (name : string) (capture_stdout : bool)
  (to_write : Z) (st : pipe_state) : outcome (list event * pipe_state) :=
  if to_size_t (ps_written st) <? to_write then
    match fuel with
    | O => OutOfFuel
    | S fuel' =>
        let batch_size := batch_of to_write (ps_written st) in
        let '(ret, errno) := sys_write w (ps_nwrites st) batch_size in
        let ev := EvWrite (ps_written st) batch_size ret in
        if (ret <? 0) && negb (errno =? EPIPE) then
          Done ([ev; EvStderr "ERROR in child!"; EvPerror name],
                after_write st (ps_written st))
        else
          written <- ssize_result (ps_written st + ret) ;;
          let st1 := after_write st written in
          if capture_stdout then
            rd <- read_step w true st1 ;;
            more <- write_loop fuel' w name capture_stdout to_write (snd rd) ;;
            Done (ev :: EvRead true (fst rd) :: fst more, snd more)
          else
            more <- write_loop fuel' w name capture_stdout to_write st1 ;;
            Done (ev :: fst more, snd more)
    end
  else Done ([], st).

(** [while ((r = read(pipefd_stdout[0], b, PIPE_BUF)) > 0) { b += r; }] *)
Fixpoint drain_loop (fuel : nat) (w : child) (st : pipe_state)
  : outcome (list event * pipe_state) :=
  match fuel with
  | O => OutOfFuel
  | S fuel' =>
      rd <- read_step w false st ;;
      if fst rd >? 0 then
        more <- drain_loop fuel' w (snd rd) ;;
        Done (EvRead false (fst rd) :: fst more, snd more)
      else Done ([EvRead false (fst rd)], snd rd)
  end.

Record apply_result : Type := {
  ar_ret : Z;
  ar_offset : Z;          (* [*offset] on return *)
  ar_trace : list event
}.

Definition is_open (f : option string) : bool :=
  match f with Some _ => true | None => false end.

(** Enough iterations for the write loop of a payload of [to_write] bytes
    when the pipe behaves as a pipe (see [pipe_like] in Part II). *)
Definition write_fuel (to_write : Z) : nat := Z.to_nat (2 * to_write + 2).

Definition ffindex_apply_by_entry (data : list Byte.byte) (entry : ffindex_entry)
  (data_file_out index_file_out : option string) (offset : Z) (w : child)
  : outcome apply_result :=
  let capture_stdout := is_open data_file_out in
  if negb (pipe_stdin_errno w =? 0) then
    Done {| ar_ret := pipe_stdin_errno w; ar_offset := offset;
            ar_trace := [EvPipe StdinPipe (pipe_stdin_errno w);
                         EvStderr "ERROR in pipe stdin!";
                         EvPerror (entry_name entry)] |}
  else if capture_stdout && negb (pipe_stdout_errno w =? 0) then
    Done {| ar_ret := pipe_stdout_errno w; ar_offset := offset;
            ar_trace := [EvPipe StdinPipe 0;
                         EvPipe StdoutPipe (pipe_stdout_errno w);
                         EvStderr "ERROR in pipe stdout!";
                         EvPerror (entry_name entry)] |}
  else
    let pipes := EvPipe StdinPipe 0
                 :: (if capture_stdout then [EvPipe StdoutPipe 0] else []) in
    if negb (fork_errno w =? 0) then
      Done {| ar_ret := fork_errno w; ar_offset := offset;
              ar_trace := pipes ++ [EvFlush; EvFork (fork_errno w);
                                    EvStderr "ERROR in fork()";
                                    EvPerror (entry_name entry)] |}
    else
      let setup := pipes ++ [EvFlush; EvFork 0; EvClose StdinRead]
                   ++ (if capture_stdout then [EvClose StdoutWrite; EvNonblock true] else []) in
      let to_write := to_size_t (entry_length entry - 1) in
      let st0 := {| ps_written := 0; ps_nwrites := O; ps_nreads := O;
                    ps_captured := []; ps_out := child_stdout w |} in
      wl <- write_loop (write_fuel to_write) w (entry_name entry) capture_stdout to_write st0 ;;
      let st1 := snd wl in
      cap <- (if capture_stdout then
                dl <- drain_loop (S (List.length (ps_out st1))) w st1 ;;
                let bytes := ps_captured (snd dl) in
                Done ([EvNonblock false] ++ fst dl
                      ++ [EvClose StdoutRead;
                          EvInsert data_file_out index_file_out offset bytes
                                   (entry_name entry);
                          EvFlush],
                      ffindex_insert_memory offset bytes)
              else Done ([], offset)) ;;
      let status := wait_status w in
      Done {| ar_ret := EXIT_SUCCESS; ar_offset := snd cap;
              ar_trace := setup ++ fst wl ++ [EvClose StdinWrite] ++ fst cap
                          ++ [EvWaitpid status]
                          ++ (if WIFEXITED status
                              then [EvStdout (progress_line entry status)] else []) |}.

(** ** Shard files *)

(** The three levels of output: the final archive, the shard of a worker
    and the shard of one chunk of a worker. *)
Inductive shard_id : Type :=
| FinalArchive
| WorkerShard (rank : Z)
| ChunkShard (rank first last : Z).

(** The formats ["%s"], ["%s.%d"] and ["%s.%d.%d.%d"] (["%s.%d.%zu.%zu"] in
    the worker callback) applied to an output base name. *)
Definition shard_name (base : string) (s : shard_id) : string :=
  match s with
  | FinalArchive => base
  | WorkerShard rank => base ++ "." ++ decimal rank
  | ChunkShard rank first last =>
      base ++ "." ++ decimal rank ++ "." ++ decimal first ++ "." ++ decimal last
  end%string.

(** A name formatted into a buffer of [FILENAME_MAX] characters. *)
Definition shard_path (base : string) (s : shard_id) : string :=
  snprintf FILENAME_MAX (shard_name base s).

(** ** Worker callback: [ffindex_apply_worker_payload] *)

(** [ffindex_apply_mpi_data_t]; the program and its arguments are part of
    the behaviour of the children. *)
Record ffindex_apply_mpi_data : Type := {
  index : list ffindex_entry;
  data : list Byte.byte;
  data_filename_out : option string;
  index_filename_out : option string
}.

(** [worker_splits_t]: the three fields are [int]s. *)
Record worker_splits_t : Type := {
  ws_start : Z;
  ws_end : Z;
  ws_status : Z
}.

(** What a worker process finds around it: its rank, whether
    [fopen(path, "w+")] succeeds, and the child run for each entry index. *)
Record worker_env : Type := {
  MPQ_rank : Z;
  fopen_ok : string -> bool;
  child_of : Z -> child
}.

(** The [for] loop over the entries of the chunk (lines 331-351): the exit
    status and the actions.  With [entry == NULL] the loop evaluates
    [perror(entry->name)]. *)
Fixpoint payload_loop (env : worker_env) (apply_data : ffindex_apply_mpi_data)
  (data_file_out index_file_out : option string)
  (count : nat) (i : Z) (offset : Z) : outcome (Z * list event) :=
  match count with
  | O => Done (EXIT_SUCCESS, [])
  | S count' =>
      match ffindex_get_entry_by_index (index apply_data) i with
      | None => Undefined NullDereference
      | Some entry =>
          r <- ffindex_apply_by_entry (data apply_data) entry
                 data_file_out index_file_out offset (child_of env i) ;;
          if negb (ar_ret r =? 0) then
            Done (ar_ret r, ar_trace r ++ [EvPerror (entry_name entry)])
          else
            more <- payload_loop env apply_data data_file_out index_file_out
                      count' (i + 1) (ar_offset r) ;;
            Done (fst more, ar_trace r ++ snd more)
      end
  end.

Record payload_result : Type := {
  pr_ret : Z;
  pr_splits : list worker_splits_t;   (* [worker_splits_head] on return *)
  pr_trace : list event
}.

Definition fclose_events (f : option string) : list event :=
  match f with Some path => [EvFclose path] | None => [] end.

(** The part of the callback after the output files are open. *)
Definition payload_body (env : worker_env) (worker_splits_head : list worker_splits_t)
  (first last : Z) (apply_data : ffindex_apply_mpi_data)
  (data_file_out index_file_out : option string) (opened : list event)
  : outcome payload_result :=
  lp <- payload_loop env apply_data data_file_out index_file_out
          (Z.to_nat (last - first)) first 0 ;;
  let exit_status := fst lp in
  Done {| pr_ret := exit_status;
          pr_splits := {| ws_start := to_int first; ws_end := to_int last;
                          ws_status := exit_status |} :: worker_splits_head;
          pr_trace := opened ++ snd lp ++ fclose_events index_file_out
                      ++ fclose_events data_file_out |}.

Definition payload_fopen_failed (worker_splits_head : list worker_splits_t)
  (opened : list event) : outcome payload_result :=
  Done {| pr_ret := EXIT_FAILURE; pr_splits := worker_splits_head;
          pr_trace := opened ++ [EvStderr "ffindex_apply_worker_payload"] |}.

Definition ffindex_apply_worker_payload (env : worker_env)
  (worker_splits_head : list worker_splits_t)
  (first last : Z) (apply_data : ffindex_apply_mpi_data) : outcome payload_result :=
  let this := ChunkShard (MPQ_rank env) first last in
  match data_filename_out apply_data with
  | Some dat =>
      let dpath := shard_path dat this in
      if fopen_ok env dpath then
        match index_filename_out apply_data with
        | Some idx =>
            let ipath := shard_path idx this in
            if fopen_ok env ipath then
              payload_body env worker_splits_head first last apply_data
                (Some dpath) (Some ipath) [EvFopen dpath true; EvFopen ipath true]
            else
              payload_fopen_failed worker_splits_head
                [EvFopen dpath true; EvFopen ipath false]
        | None =>
            payload_body env worker_splits_head first last apply_data
              (Some dpath) None [EvFopen dpath true]
        end
      else payload_fopen_failed worker_splits_head [EvFopen dpath false]
  | None =>
      match index_filename_out apply_data with
      | Some idx =>
          let ipath := shard_path idx this in
          if fopen_ok env ipath then
            payload_body env worker_splits_head first last apply_data
              None (Some ipath) [EvFopen ipath true]
          else payload_fopen_failed worker_splits_head [EvFopen ipath false]
      | None =>
          payload_body env worker_splits_head first last apply_data None None []
      end
  end.

(** ** Merge loops *)

(** One iteration of a merge loop: the shards named in the command, the
    command line, what [system] returned and the arguments of the [remove]
    calls, in order. *)
Record merge_step : Type := {
  ms_src : shard_id;
  ms_dst : shard_id;
  ms_command : string;
  ms_exit_status : Z;
  ms_removed : list string
}.

(** ["ffindex_build -as -d SRC_DATA -i SRC_INDEX DST_DATA DST_INDEX"], cut by
    [snprintf(merge_command, FILENAME_MAX, ...)]. *)
Definition merge_command (dat idx : string) (src dst : shard_id) : string :=
  snprintf FILENAME_MAX
    ("ffindex_build -as -d " ++ shard_name dat src ++ " -i " ++ shard_name idx src
     ++ " " ++ shard_name dat dst ++ " " ++ shard_name idx dst)%string.

(** The body shared by the two loops: run the command, then
    [if (exit_status == 0 && remove_temporary)] remove the index shard and
    the data shard that were merged. *)
Definition merge_one (system : string -> Z) (dat idx : string)
  (remove_temporary : Z) (src dst : shard_id) : merge_step :=
  let command := merge_command dat idx src dst in
  let exit_status := system command in
  {| ms_src := src; ms_dst := dst; ms_command := command;
     ms_exit_status := exit_status;
     ms_removed := if (exit_status =? 0) && negb (remove_temporary =? 0)
                   then [shard_path idx src; shard_path dat src] else [] |}.

(** [SLIST_FOREACH(entry, &worker_splits_head, entries)]: from the head of
    the list on. *)
Definition ffindex_worker_merge_splits (system : string -> Z)
  (data_filename index_filename : option string)
  (worker_rank remove_temporary : Z) (worker_splits_head : list worker_splits_t)
  : list merge_step :=
  match data_filename, index_filename with
  | Some dat, Some idx =>
      map (fun entry =>
             merge_one system dat idx remove_temporary
               (ChunkShard worker_rank (ws_start entry) (ws_end entry))
               (WorkerShard worker_rank))
          worker_splits_head
  | _, _ => []
  end.

(** [for (int i = 1; i < splits; i++)]. *)
Definition ffindex_merge_splits (system : string -> Z)
  (data_filename index_filename : option string)
  (splits remove_temporary : Z) : list merge_step :=
  match data_filename, index_filename with
  | Some dat, Some idx =>
      map (fun i => merge_one system dat idx remove_temporary (WorkerShard i) FinalArchive)
          (index_range 1 splits)
  | _, _ => []
  end.

(** ** Options of [main] *)

(** A [char *]: where it points and the string found there. *)
Record c_string : Type := {
  address : Z;
  chars : string
}.

Record options : Type := {
  parts : Z;
  opt_data_filename_out : option string;
  opt_index_filename_out : option string
}.

(** The value of an [int] assigned from a [char *]: the low 32 bits of the
    address, [0] for [NULL]. *)
Definition int_of_pointer (p : option c_string) : Z :=
  match p with
  | None => 0
  | Some s => to_int (address s)
  end.

(** The [switch] of the option loop, for one result [(opt, optarg)] of
    [gnu_getopt(argn, argv, "d:i:p::")]. *)
Definition main_option (o : options) (parsed : ascii * option c_string) : options :=
  let '(opt, optarg) := parsed in
  if Ascii.eqb opt "d" then
    {| parts := parts o; opt_data_filename_out := option_map chars optarg;
       opt_index_filename_out := opt_index_filename_out o |}
  else if Ascii.eqb opt "i" then
    {| parts := parts o; opt_data_filename_out := opt_data_filename_out o;
       opt_index_filename_out := option_map chars optarg |}
  else if Ascii.eqb opt "p" then
    {| parts := int_of_pointer optarg;
       opt_data_filename_out := opt_data_filename_out o;
       opt_index_filename_out := opt_index_filename_out o |}
  else o.

(** [int parts = 10; char *data_filename_out = NULL, *index_filename_out = NULL;]
    followed by the option loop. *)
Definition main_options (parsed : list (ascii * option c_string)) : options :=
  fold_left main_option parsed
    {| parts := 10; opt_data_filename_out := None; opt_index_filename_out := None |}.

(** ** Reading traces *)

(** The actions of the two pipe loops: [write]s and messages, and [read]s
    when the output is captured. *)
Definition pipe_io (capture_stdout : bool) (ev : event) : bool :=
  match ev with
  | EvWrite _ _ _ => true
  | EvStderr _ => true
  | EvPerror _ => true
  | EvRead _ _ => capture_stdout
  | _ => false
  end.

Definition all_pipe_io (capture_stdout : bool) (tr : list event) : Prop :=
  Forall (fun ev => pipe_io capture_stdout ev = true) tr.

(** The lines printed on standard output. *)
Definition stdout_lines (tr : list event) : list string :=
  flat_map (fun ev => match ev with EvStdout line => [line] | _ => [] end) tr.

(** The names appended to a shard, in order. *)
Definition inserted_names (tr : list event) : list string :=
  flat_map (fun ev => match ev with EvInsert _ _ _ _ name => [name] | _ => [] end) tr.

(** The values returned by the [read]s of the child's output. *)
Definition read_results (tr : list event) : list Z :=
  flat_map (fun ev => match ev with EvRead _ r => [r] | _ => [] end) tr.

(** The statuses of the children waited for. *)
Definition waited (tr : list event) : list Z :=
  flat_map (fun ev => match ev with EvWaitpid status => [status] | _ => [] end) tr.

(** The paths given to [fopen]. *)
Definition fopen_calls (tr : list event) : list string :=
  flat_map (fun ev => match ev with EvFopen path _ => [path] | _ => [] end) tr.

(** The positions of the [write]s of a trace that failed. *)
Definition failed_writes (tr : list event) : list Z :=
  flat_map (fun ev => match ev with
                      | EvWrite position _ ret => if ret <? 0 then [position] else []
                      | _ => []
                      end) tr.

(** The bytes of [filedata] that the [write]s of a trace handed to the pipe. *)
Definition stdin_bytes (filedata : list Byte.byte) (tr : list event) : list Byte.byte :=
  flat_map (fun ev => match ev with
                      | EvWrite position _ ret =>
                          firstn (Z.to_nat ret) (skipn (Z.to_nat position) filedata)
                      | _ => []
                      end) tr.

(** One round of the write loop: a [write] at [position] of [count] bytes
    returning [ret], followed when the output is captured by a [read] in
    non-blocking mode returning [r]. *)
Definition write_round (capture_stdout : bool) (round : Z * Z * Z * Z) : list event :=
  let '(position, count, ret, r) := round in
  EvWrite position count ret :: (if capture_stdout then [EvRead true r] else []).

(** The actions of the parent before the write loop. *)
Definition runner_setup (capture_stdout : bool) : list event :=
  (EvPipe StdinPipe 0 :: (if capture_stdout then [EvPipe StdoutPipe 0] else []))
  ++ [EvFlush; EvFork 0; EvClose StdinRead]
  ++ (if capture_stdout then [EvClose StdoutWrite; EvNonblock true] else []).

(** The actions of the parent after the write loop when the output is
    captured: blocking mode, the [reads] of the drain loop, and the append of
    the [bytes] read. *)
Definition capture_tail (data_file_out index_file_out : option string) (offset : Z)
  (name : string) (reads : list event) (bytes : list Byte.byte) : list event :=
  [EvNonblock false] ++ reads
  ++ [EvClose StdoutRead; EvInsert data_file_out index_file_out offset bytes name; EvFlush].

(** The actions of the parent once the child is waited for. *)
Definition runner_report (entry : ffindex_entry) (status : Z) : list event :=
  EvWaitpid status
  :: (if WIFEXITED status then [EvStdout (progress_line entry status)] else []).

(** A round hands over at least one byte and asks for no more than
    [PIPE_BUF]. *)
Definition round_ok (round : Z * Z * Z * Z) : Prop :=
  let '(position, count, ret, r) := round in
  0 < ret <= count /\ count <= PIPE_BUF.

(** ** Assumptions on the environment *)

(** A pipe to a child: a successful [write] takes at least one byte, and
    once the reading end is closed every later [write] fails with [EPIPE]. *)
Definition pipe_like (w : child) : Prop :=
  (forall k c, write_at w k = WriteOk c -> 1 <= c)
  /\ (forall k, write_at w k = WriteErr EPIPE ->
      forall j, (k <= j)%nat -> write_at w j = WriteErr EPIPE).

(** A child that can be started, whose pipe behaves as a pipe and whose
    output fits [read_buffer]. *)
Definition runs (w : child) : Prop :=
  pipe_stdin_errno w = 0 /\ pipe_stdout_errno w = 0 /\ fork_errno w = 0
  /\ pipe_like w
  /\ Z.of_nat (List.length (child_stdout w)) <= READ_BUFFER_SIZE.

(** A child that reads all of its input. *)
Definition reads_all_input (w : child) : Prop :=
  forall k, exists c, write_at w k = WriteOk c /\ 1 <= c.

(** No [read] of the child's output fails. *)
Definition reads_succeed (w : child) : Prop :=
  forall k, exists a, read_at w k = ReadAvail a.

(** What was read and what is still to be read fit [read_buffer]. *)
Definition fits (st : pipe_state) : Prop :=
  Z.of_nat (List.length (ps_captured st ++ ps_out st)) <= READ_BUFFER_SIZE.

(** An entry of the archive: at least the sentinel byte, and lying within
    the data. *)
Definition entry_ok (data : list Byte.byte) (entry : ffindex_entry) : Prop :=
  1 <= entry_length entry <= SSIZE_MAX
  /\ 0 <= entry_offset entry
  /\ entry_offset entry + entry_length entry <= Z.of_nat (List.length data).

(** The progress line of the entry at index [j], if its child exited. *)
Definition entry_report (env : worker_env) (index : list ffindex_entry) (j : Z)
  : list string :=
  match ffindex_get_entry_by_index index j with
  | Some entry =>
      let status := wait_status (child_of env j) in
      if WIFEXITED status then [progress_line entry status] else []
  | None => []
  end.

(** The names of the entries of a chunk, in index order. *)
Definition chunk_names (index : list ffindex_entry) (c : chunk) : list string :=
  flat_map (fun j => match ffindex_get_entry_by_index index j with
                     | Some entry => [entry_name entry]
                     | None => []
                     end) (chunk_indices c).

(** The entries of a chunk exist and their children run. *)
Definition chunk_runs (env : worker_env) (apply_data : ffindex_apply_mpi_data)
  (c : chunk) : Prop :=
  forall j, fst c <= j < snd c ->
    exists entry,
      ffindex_get_entry_by_index (index apply_data) j = Some entry
      /\ 1 <= entry_length entry <= SSIZE_MAX
      /\ runs (child_of env j).

(** ** The run as a whole *)

(** The entry names held by the archive (data and index file) of each shard;
    [[]] for a shard that does not exist. *)
Definition archives : Type := shard_id -> list string.

Definition shard_id_eqb (a b : shard_id) : bool :=
  match a, b with
  | FinalArchive, FinalArchive => true
  | WorkerShard r, WorkerShard r' => r =? r'
  | ChunkShard r f l, ChunkShard r' f' l' => (r =? r') && (f =? f') && (l =? l')
  | _, _ => false
  end.

Definition store (a : archives) (s : shard_id) (names : list string) : archives :=
  fun s' => if shard_id_eqb s' s then names else a s'.

(** Modelled from the spec: the merge tool [ffindex_build] is not part of the
    sources at hand.  Section 4.5: a merge appends the entries of the other
    shard to the destination, with no de-duplication and no re-ordering.  A
    step whose command fails changes nothing; the shard a step removes is
    gone. *)
Definition apply_merge (a : archives) (m : merge_step) : archives :=
  if ms_exit_status m =? 0 then
    let merged := store a (ms_dst m) (a (ms_dst m) ++ a (ms_src m)) in
    match ms_removed m with
    | [] => merged
    | _ :: _ => store merged (ms_src m) []
    end
  else a.

(** Modelled from the spec: the transport [MPQ_Main] (mpq/mpq.c) is not part of
    the sources at hand.  Section 1: it runs the callback of the worker for
    each range assigned to it, one after the other.  The shard of the chunk
    holds what the callback appended. *)
Fixpoint worker_chunks (env : worker_env) (apply_data : ffindex_apply_mpi_data)
  (assigned : list chunk) (worker_splits_head : list worker_splits_t)
  (a : archives) : outcome (list worker_splits_t * archives) :=
  match assigned with
  | [] => Done (worker_splits_head, a)
  | c :: rest =>
      r <- ffindex_apply_worker_payload env worker_splits_head (fst c) (snd c)
             apply_data ;;
      worker_chunks env apply_data rest (pr_splits r)
        (store a (ChunkShard (MPQ_rank env) (fst c) (snd c))
               (inserted_names (pr_trace r)))
  end.

(** A worker process in [main]: [SLIST_INIT], the chunks, then
    [ffindex_worker_merge_splits(data_filename_out, index_filename_out, MPQ_rank, 1)]. *)
Definition worker_process (system : string -> Z) (env : worker_env)
  (apply_data : ffindex_apply_mpi_data) (assigned : list chunk) (a : archives)
  : outcome archives :=
  r <- worker_chunks env apply_data assigned [] a ;;
  Done (fold_left apply_merge
          (ffindex_worker_merge_splits system (data_filename_out apply_data)
             (index_filename_out apply_data) (MPQ_rank env) 1 (fst r))
          (snd r)).

(** The workers write to shards of their own, so that their processes can
    be taken one after the other. *)
Fixpoint run_workers (system : string -> Z) (fopen : string -> bool)
  (children : Z -> Z -> child) (apply_data : ffindex_apply_mpi_data)
  (assignment : Z -> list chunk) (ranks : list Z) (a : archives)
  : outcome archives :=
  match ranks with
  | [] => Done a
  | rank :: rest =>
      a' <- worker_process system
              {| MPQ_rank := rank; fopen_ok := fopen; child_of := children rank |}
              apply_data (assignment rank) a ;;
      run_workers system fopen children apply_data assignment rest a'
  end.

(** The run: the workers [1 .. MPQ_size - 1], then, in the coordinator,
    [ffindex_merge_splits(data_filename_out, index_filename_out, MPQ_size, 1)]. *)
Definition run (system : string -> Z) (fopen : string -> bool)
  (children : Z -> Z -> child) (apply_data : ffindex_apply_mpi_data)
  (assignment : Z -> list chunk) (MPQ_size : Z) : outcome archives :=
  a <- run_workers system fopen children apply_data assignment
         (index_range 1 MPQ_size) (fun _ => []) ;;
  Done (fold_left apply_merge
          (ffindex_merge_splits system (data_filename_out apply_data)
             (index_filename_out apply_data) MPQ_size 1)
          a).

(** ** Names of a merge step *)

(** The part of a shard name after the base name. *)
Definition shard_suffix (s : shard_id) : string :=
  match s with
  | FinalArchive => ""
  | WorkerShard rank => "." ++ decimal rank
  | ChunkShard rank first last =>
      "." ++ decimal rank ++ "." ++ decimal first ++ "." ++ decimal last
  end%string.

(** The two kinds of step the program makes: a chunk shard into the shard
    of its worker, and the shard of a worker into the final archive. *)
Definition step_of_run (src dst : shard_id) : Prop :=
  (exists rank first last, src = ChunkShard rank first last /\ dst = WorkerShard rank)
  \/ (exists rank, src = WorkerShard rank /\ dst = FinalArchive).

(** The names of a step are not cut by [snprintf]. *)
Definition names_fit (dat idx : string) (src : shard_id) : Prop :=
  Z.of_nat (String.length (shard_name dat src)) < FILENAME_MAX
  /\ Z.of_nat (String.length (shard_name idx src)) < FILENAME_MAX.

(** ** Good runs *)

(** The worker a shard belongs to. *)
Definition shard_rank (s : shard_id) : option Z :=
  match s with
  | FinalArchive => None
  | WorkerShard rank => Some rank
  | ChunkShard rank _ _ => Some rank
  end.

(** The record the callback keeps of a finished chunk. *)
Definition split_of (c : chunk) : worker_splits_t :=
  {| ws_start := to_int (fst c); ws_end := to_int (snd c); ws_status := EXIT_SUCCESS |}.

(** The final archive of a run. *)
Definition final_archive (o : outcome archives) : option (list string) :=
  match o with
  | Done a => Some (a FinalArchive)
  | _ => None
  end.

(** A run in which the output is captured, every file can be opened, every
    merge command succeeds, and every worker is handed distinct chunks of
    entries that exist, with bounds that fit the [int] fields of
    [worker_splits_t], and whose children run. *)
Definition good_run (system : string -> Z) (fopen : string -> bool)
  (children : Z -> Z -> child) (apply_data : ffindex_apply_mpi_data)
  (assignment : Z -> list chunk) (MPQ_size : Z) : Prop :=
  (exists dat idx, data_filename_out apply_data = Some dat
                   /\ index_filename_out apply_data = Some idx)
  /\ (forall command, system command = 0)
  /\ (forall path, fopen path = true)
  /\ (forall rank, 1 <= rank < MPQ_size ->
      NoDup (assignment rank)
      /\ forall c, In c (assignment rank) ->
           0 <= fst c <= snd c /\ snd c <= INT_MAX
           /\ chunk_runs {| MPQ_rank := rank; fopen_ok := fopen;
                            child_of := children rank |} apply_data c).

(** ** Example inputs *)

(** An archive of two entries, ["hello"] and ["hi"], each followed by its
    sentinel byte. *)
Definition example_data : list Byte.byte :=
  list_byte_of_string "hello" ++ [Byte.x00] ++ list_byte_of_string "hi" ++ [Byte.x00].

Definition example_index : list ffindex_entry :=
  [{| entry_name := "a"; entry_offset := 0; entry_length := 6 |};
   {| entry_name := "b"; entry_offset := 6; entry_length := 3 |}].

Definition example_entry : ffindex_entry :=
  {| entry_name := "a"; entry_offset := 0; entry_length := 6 |}.

(** A child that reads all of its input, writes [out] and ends with the
    wait status [status]. *)
Definition child_reading_all (out : list Byte.byte) (status : Z) : child :=
  {| pipe_stdin_errno := 0; pipe_stdout_errno := 0; fork_errno := 0;
     write_at := fun _ => WriteOk PIPE_BUF;
     read_at := fun _ => ReadAvail PIPE_BUF;
     child_stdout := out;
     wait_status := status |}.

(** A child that takes one [write] and closes its standard input, as
    [head -c 1] does. *)
Definition child_closing_early : child :=
  {| pipe_stdin_errno := 0; pipe_stdout_errno := 0; fork_errno := 0;
     write_at := fun k => match k with O => WriteOk PIPE_BUF | S _ => WriteErr EPIPE end;
     read_at := fun _ => ReadAvail PIPE_BUF;
     child_stdout := [];
     wait_status := 0 |}.

(** An entry with a payload of [PIPE_BUF + 1] bytes. *)
Definition long_entry : ffindex_entry :=
  {| entry_name := "long"; entry_offset := 0; entry_length := 4098 |}.

Definition long_data : list Byte.byte := repeat Byte.x61 4097 ++ [Byte.x00].

(** A worker of rank [rank] whose children read their input and repeat
    the bytes [out]. *)
Definition example_env (rank : Z) (out : list Byte.byte) (status : Z) : worker_env :=
  {| MPQ_rank := rank; fopen_ok := fun _ => true;
     child_of := fun _ => child_reading_all out status |}.

Definition example_apply_data (data_filename_out index_filename_out : option string)
  : ffindex_apply_mpi_data :=
  {| index := example_index; data := example_data;
     data_filename_out := data_filename_out;
     index_filename_out := index_filename_out |}.

(** A pointer into [argv], on the stack of the process. *)
Definition example_optarg : c_string :=
  {| address := 140732920755219; chars := "5" |}.

(** ** Further readings of traces *)

(** The [write] calls of a trace: position, count and value returned. *)
Definition write_calls (tr : list event) : list (Z * Z * Z) :=
  flat_map (fun ev => match ev with
                      | EvWrite position count ret => [(position, count, ret)]
                      | _ => []
                      end) tr.

(** A [write] that takes its bytes from the payload of [to_write] bytes:
    it starts at or after the first byte, asks for between [1] and [PIPE_BUF]
    bytes, ends at or before the last byte, and returns no more than it
    asked for. *)
Definition write_within (to_write : Z) (call : Z * Z * Z) : Prop :=
  let '(position, count, ret) := call in
  0 <= position /\ 1 <= count <= PIPE_BUF /\ position + count <= to_write /\ ret <= count.

(** The pipes created and the descriptors closed by a trace. *)
Definition opened_pipes (tr : list event) : list pipe_name :=
  flat_map (fun ev => match ev with
                      | EvPipe p errno => if errno =? 0 then [p] else []
                      | _ => []
                      end) tr.

Definition closed_descriptors (tr : list event) : list descriptor :=
  flat_map (fun ev => match ev with EvClose d => [d] | _ => [] end) tr.

(** The results of the [fork] calls of a trace. *)
Definition forks (tr : list event) : list Z :=
  flat_map (fun ev => match ev with EvFork errno => [errno] | _ => [] end) tr.

(** The streams closed by [fclose]. *)
Definition fclose_calls (tr : list event) : list string :=
  flat_map (fun ev => match ev with EvFclose path => [path] | _ => [] end) tr.

(** The appends of a trace: the running offset handed to
    [ffindex_insert_memory] and the bytes appended. *)
Definition inserts (tr : list event) : list (Z * list Byte.byte) :=
  flat_map (fun ev => match ev with
                      | EvInsert _ _ offset bytes _ => [(offset, bytes)]
                      | _ => []
                      end) tr.

(** The [errno] of the first of [pipe(pipefd_stdin)], [pipe(pipefd_stdout)]
    (called only when the output is captured) and [fork] that fails; [0]
    when none does. *)
Definition setup_errno (data_file_out : option string) (w : child) : Z :=
  if negb (pipe_stdin_errno w =? 0) then pipe_stdin_errno w
  else if is_open data_file_out && negb (pipe_stdout_errno w =? 0)
       then pipe_stdout_errno w
       else fork_errno w.

(** The state of the parent when it enters the write loop. *)
Definition runner_start (w : child) : pipe_state :=
  {| ps_written := 0; ps_nwrites := O; ps_nreads := O;
     ps_captured := []; ps_out := child_stdout w |}.

(** ** The write loop as a relation *)

(** The [read] that ends a round of the write loop when the output is
    captured. *)
Definition round_read (w : child) (capture_stdout : bool) (st : pipe_state)
  (evs : list event) (st' : pipe_state) : Prop :=
  if capture_stdout
  then exists r, read_step w true st = Done (r, st') /\ evs = [EvRead true r]
  else st' = st /\ evs = [].

(** The runs of the write loop that come to an end: the condition of the
    [while] fails, or a [write] fails with an [errno] other than [EPIPE]
    ([break]), or a round is made and the loop goes on. *)
Inductive write_rounds (w : child) (name : string) (capture_stdout : bool) (to_write : Z)
  : pipe_state -> list event -> pipe_state -> Prop :=
| rounds_exit st :
    to_write <= to_size_t (ps_written st) ->
    write_rounds w name capture_stdout to_write st [] st
| rounds_break st ret errno :
    to_size_t (ps_written st) < to_write ->
    sys_write w (ps_nwrites st) (batch_of to_write (ps_written st)) = (ret, errno) ->
    ret < 0 -> errno <> EPIPE ->
    write_rounds w name capture_stdout to_write st
      [EvWrite (ps_written st) (batch_of to_write (ps_written st)) ret;
       EvStderr "ERROR in child!"; EvPerror name]
      (after_write st (ps_written st))
| rounds_next st ret errno written reads st1 evs st' :
    to_size_t (ps_written st) < to_write ->
    sys_write w (ps_nwrites st) (batch_of to_write (ps_written st)) = (ret, errno) ->
    0 <= ret \/ errno = EPIPE ->
    ssize_result (ps_written st + ret) = Done written ->
    round_read w capture_stdout (after_write st written) reads st1 ->
    write_rounds w name capture_stdout to_write st1 evs st' ->
    write_rounds w name capture_stdout to_write st
      (EvWrite (ps_written st) (batch_of to_write (ps_written st)) ret :: reads ++ evs) st'.

(** ** More children *)

(** A child to which every [write] fails with [errno]. *)
Definition child_write_error (errno : Z) : child :=
  {| pipe_stdin_errno := 0; pipe_stdout_errno := 0; fork_errno := 0;
     write_at := fun _ => WriteErr errno;
     read_at := fun _ => ReadAvail PIPE_BUF;
     child_stdout := [];
     wait_status := 0 |}.

(** A child that writes [out], while every [read] of the parent fails with
    [errno]. *)
Definition child_read_error (out : list Byte.byte) (errno : Z) : child :=
  {| pipe_stdin_errno := 0; pipe_stdout_errno := 0; fork_errno := 0;
     write_at := fun _ => WriteOk PIPE_BUF;
     read_at := fun _ => ReadErr errno;
     child_stdout := out;
     wait_status := 0 |}.


(** An entry of one byte, the sentinel, and an entry of length [0]. *)
Definition empty_entry : ffindex_entry :=
  {| entry_name := "empty"; entry_offset := 5; entry_length := 1 |}.

Definition zero_entry : ffindex_entry :=
  {| entry_name := "zero"; entry_offset := 0; entry_length := 0 |}.

(** ** The streams of a chunk *)

(** The path of the shard of a chunk for an output base name, if there is
    one. *)
Definition chunk_stream (env : worker_env) (first last : Z) (base : option string)
  : list string :=
  match base with
  | Some name => [shard_path name (ChunkShard (MPQ_rank env) first last)]
  | None => []
  end.

(** The stream handed to the runner for an output base name: [NULL] when
    the name is not given. *)
Definition chunk_file (env : worker_env) (first last : Z) (base : option string)
  : option string :=
  option_map (fun name => shard_path name (ChunkShard (MPQ_rank env) first last)) base.

(** The paths the callback opens for a chunk: the data shard, then the
    index shard. *)
Definition chunk_streams (env : worker_env) (apply_data : ffindex_apply_mpi_data)
  (first last : Z) : list string :=
  chunk_stream env first last (data_filename_out apply_data)
  ++ chunk_stream env first last (index_filename_out apply_data).

(** Appends that follow one another in a shard: each starts at the offset
    where the one before ended. *)
Fixpoint chained (start : Z) (appends : list (Z * list Byte.byte)) : Prop :=
  match appends with
  | [] => True
  | (offset, bytes) :: rest =>
      offset = start /\ chained (ffindex_insert_memory offset bytes) rest
  end.


(** A worker that can open the files named in [writable] only. *)
Definition env_opening (rank : Z) (writable : list string) : worker_env :=
  {| MPQ_rank := rank;
     fopen_ok := fun path => existsb (String.eqb path) writable;
     child_of := fun _ => child_reading_all (list_byte_of_string "x") 0 |}.

(** ** The text of a merge command *)

(** The format of the merge command applied to its arguments, before
    [snprintf] cuts it. *)
Definition merge_command_text (dat idx : string) (src dst : shard_id) : string :=
  ("ffindex_build -as -d " ++ shard_name dat src ++ " -i " ++ shard_name idx src
   ++ " " ++ shard_name dat dst ++ " " ++ shard_name idx dst)%string.

(** The bounds of a recorded chunk. *)
Definition ws_bounds (entry : worker_splits_t) : Z * Z := (ws_start entry, ws_end entry).

(** A name of [n] characters. *)
Definition long_name (n : nat) : string := string_of_list_ascii (repeat "a"%char n).

(** ** [main] (lines 386-504) *)

(** Modelled from the spec: [MPQ_MASTER] (mpq/mpq.h) is not part of the
    sources at hand.  Glossary, Rank: 0 is the coordinator by convention. *)
Definition MPQ_MASTER : Z := 0.

Definition SIGPIPE : Z := 13.

(** What a process of the run finds: its rank and the number of processes
    (set by [MPQ_Init]), the arguments left after the options, the files
    that [fopen(path, "r")] can open, and the index that
    [ffindex_index_parse] reads ([NULL] when it fails). *)
Record main_env : Type := {
  main_rank : Z;
  main_size : Z;
  positional : list string;
  readable : string -> bool;
  parsed_index : option (list ffindex_entry)
}.

(** The calls of [main], in order. *)
Inductive main_action : Type :=
| MainInit                                      (* [MPQ_Init] *)
| MainUsage                                     (* the message and [usage()] *)
| MainFopen (path : string) (ok : bool)
| MainError (path : string)                     (* [fferror_print] *)
| MainMmap (path : string)                      (* [ffindex_mmap_data] *)
| MainSigaction (signal : Z)                    (* [ignore_signal] *)
| MainDispatch (n_entries chunk_size : Z)       (* [MPQ_Main] *)
| MainWorkerMerge (data_filename_out index_filename_out : option string)
    (rank remove_temporary : Z)                 (* [ffindex_worker_merge_splits] *)
| MainMunmapIndex
| MainMunmapData
| MainFclose (path : string)
| MainFinalize                                  (* [MPQ_Finalize] *)
| MainMerge (data_filename_out index_filename_out : option string)
    (splits remove_temporary : Z).              (* [ffindex_merge_splits] *)

(** [ignore_signal(signal)]: one [sigaction] with the handler [SIG_IGN]. *)
Definition ignore_signal (signal : Z) : list main_action := [MainSigaction signal].

(** The code from the label [cleanup] on: [MPQ_Finalize], then the merge of
    the worker shards by the coordinator of a run that went well. *)
Definition main_cleanup (env : main_env) (o : options) (exit_status : Z)
  : Z * list main_action :=
  (exit_status,
   MainFinalize
   :: (if (exit_status =? EXIT_SUCCESS) && (main_rank env =? MPQ_MASTER)
       then [MainMerge (opt_data_filename_out o) (opt_index_filename_out o)
               (main_size env) 1]
       else [])).

(** From the label [cleanup_1] on. *)
Definition main_cleanup_1 (env : main_env) (o : options) (data_filename : string)
  (exit_status : Z) : Z * list main_action :=
  let '(ret, rest) := main_cleanup env o exit_status in
  (ret, MainFclose data_filename :: rest).

(** From the label [cleanup_2] on. *)
Definition main_cleanup_2 (env : main_env) (o : options)
  (data_filename index_filename : string) (exit_status : Z) : Z * list main_action :=
  let '(ret, rest) := main_cleanup_1 env o data_filename exit_status in
  (ret, MainMunmapData :: MainFclose index_filename :: rest).

(** [main], for the results [parsed] of [gnu_getopt]: the value returned
    and the calls made. *)
Definition main (env : main_env) (parsed : list (ascii * option c_string))
  : outcome (Z * list main_action) :=
  let o := main_options parsed in
  let after (before : list main_action) (ending : Z * list main_action) :=
    Done (fst ending, MainInit :: before ++ snd ending) in
  match positional env with
  | data_filename :: index_filename :: program_name :: _ =>
      if readable env data_filename then
        if readable env index_filename then
          let opened := [MainFopen data_filename true; MainFopen index_filename true;
                         MainMmap data_filename] in
          match parsed_index env with
          | Some index =>
              let n_entries := Z.of_nat (List.length index) in
              chunk_size <- main_chunk_size n_entries (main_size env) (parts o) ;;
              after (opened ++ ignore_signal SIGPIPE
                     ++ [MainDispatch n_entries chunk_size]
                     ++ (if negb (main_rank env =? MPQ_MASTER)
                         then [MainWorkerMerge (opt_data_filename_out o)
                                 (opt_index_filename_out o) (main_rank env) 1]
                         else [])
                     ++ [MainMunmapIndex])
                    (main_cleanup_2 env o data_filename index_filename EXIT_SUCCESS)
          | None =>
              after (opened ++ [MainError index_filename])
                    (main_cleanup_2 env o data_filename index_filename EXIT_FAILURE)
          end
        else
          after [MainFopen data_filename true; MainFopen index_filename false;
                 MainError index_filename]
                (main_cleanup_1 env o data_filename EXIT_FAILURE)
      else
        after [MainFopen data_filename false; MainError data_filename]
              (main_cleanup env o EXIT_FAILURE)
  | _ => after [MainUsage] (main_cleanup env o EXIT_FAILURE)
  end.

(** The files [main] opened, the files it closed, and the other calls of
    interest, in order. *)
Definition main_opened (tr : list main_action) : list string :=
  flat_map (fun a => match a with MainFopen path true => [path] | _ => [] end) tr.

Definition main_closed (tr : list main_action) : list string :=
  flat_map (fun a => match a with MainFclose path => [path] | _ => [] end) tr.

Definition main_calls (p : main_action -> bool) (tr : list main_action) : nat :=
  List.length (filter p tr).

Definition is_finalize (a : main_action) : bool :=
  match a with MainFinalize => true | _ => false end.

Definition is_dispatch (a : main_action) : bool :=
  match a with MainDispatch _ _ => true | _ => false end.

Definition is_worker_merge (a : main_action) : bool :=
  match a with MainWorkerMerge _ _ _ _ => true | _ => false end.

Definition is_merge (a : main_action) : bool :=
  match a with MainMerge _ _ _ _ => true | _ => false end.

(** The setup of [main] succeeds: there are a data file, an index file and
    a program, the two files can be opened and the index can be parsed. *)
Definition main_setup_ok (env : main_env) : bool :=
  match positional env with
  | data_filename :: index_filename :: _ :: _ =>
      readable env data_filename && readable env index_filename
      && match parsed_index env with Some _ => true | None => false end
  | _ => false
  end.

(** A process of a run over the example archive. *)
Definition example_main_env (rank size : Z) : main_env :=
  {| main_rank := rank; main_size := size;
     positional := ["in.ffdata"; "in.ffindex"; "cat"]%string;
     readable := fun _ => true;
     parsed_index := Some example_index |}.

(** ** The child's side of [ffindex_apply_by_entry] (lines 79-116) *)

(** What a descriptor of a process refers to: an end of one of the two
    pipes of the runner, or a file that the worker had open before. *)
Inductive open_file : Type :=
| PipeEnd (d : descriptor)
| Inherited (n : Z).

(** The descriptors of a process. *)
Definition fd_table : Type := Z -> option open_file.

Definition STDIN_FILENO : Z := 0.
Definition STDOUT_FILENO : Z := 1.

(** [close(fd)]. *)
Definition sys_close (t : fd_table) (fd : Z) : fd_table :=
  fun k => if k =? fd then None else t k.

(** [dup2(oldfd, newfd)]: fails when [oldfd] is not open, does nothing when
    the two are equal, and otherwise makes [newfd] refer to the file of
    [oldfd], closing what it referred to. *)
Definition sys_dup2 (t : fd_table) (oldfd newfd : Z) : Z * fd_table :=
  match t oldfd with
  | None => (-1, t)
  | Some f =>
      (newfd, if oldfd =? newfd then t
              else fun k => if k =? newfd then Some f else t k)
  end.

(** [int pipefd_stdin[2]; int pipefd_stdout[2];] as [pipe] filled them. *)
Record pipe_fds : Type := {
  pipefd_stdin_0 : Z;
  pipefd_stdin_1 : Z;
  pipefd_stdout_0 : Z;
  pipefd_stdout_1 : Z
}.

(** The child before [execvp]: its descriptors, the streams it closed and
    its messages on standard error. *)
Record child_state : Type := {
  cs_table : fd_table;
  cs_fclosed : list string;
  cs_stderr : list string
}.

(** How the branch [child_pid == 0] ends: the program runs in place of the
    child, or [execvp] fails and the branch returns [errno] to the caller
    of the runner. *)
Inductive child_end : Type :=
| Execs (st : child_state)
| Returns (errno : Z) (st : child_state).

(** The branch [child_pid == 0], from the descriptors [t] that the child has
    after [fork]; [execvp_errno] is [None] when [execvp] succeeds.
    [fclose(index_file_out)] is called whenever the output is captured, also
    when [index_file_out] is [NULL]. *)
Definition child_branch (p : pipe_fds) (data_file_out index_file_out : option string)
  (execvp_errno : option Z) (t : fd_table) : outcome child_end :=
  let t := sys_close t (pipefd_stdin_1 p) in
  fclosed <- match data_file_out with
             | Some dpath =>
                 match index_file_out with
                 | Some ipath => Done [dpath; ipath]
                 | None => Undefined NullDereference
                 end
             | None => Done []
             end ;;
  let t := if is_open data_file_out then sys_close t (pipefd_stdout_0 p) else t in
  let '(newfd_in, t) := sys_dup2 t (pipefd_stdin_0 p) STDIN_FILENO in
  let errors_in := if newfd_in <? 0 then ["ERROR in dup2 in"%string] else [] in
  let t := sys_close t (pipefd_stdin_0 p) in
  let '(errors_out, t) :=
    if is_open data_file_out then
      let '(newfd_out, t) := sys_dup2 t (pipefd_stdout_1 p) STDOUT_FILENO in
      (if newfd_out <? 0 then ["ERROR in dup2 out"%string] else [],
       sys_close t (pipefd_stdout_1 p))
    else ([], t) in
  let st := {| cs_table := t; cs_fclosed := fclosed;
               cs_stderr := errors_in ++ errors_out |} in
  match execvp_errno with
  | None => Done (Execs st)
  | Some errno => Done (Returns errno st)
  end.

(** What becomes of the child. *)
Inductive child_fate : Type :=
| RunsProgram (t : fd_table)      (* the program, with these descriptors *)
| FclosesAgain (path : string)    (* [fclose] of a stream already closed *)
| WorksOn (error : Z).            (* goes on in the code of the worker *)

(** The child followed into the callback: when the runner returns in the
    child, the callback takes the value returned for the result of the
    entry; if it is not 0 it leaves the loop and closes its streams, the
    index stream first (lines 345-358). *)
Definition child_in_callback (p : pipe_fds) (data_file_out index_file_out : option string)
  (execvp_errno : option Z) (t : fd_table) : outcome child_fate :=
  e <- child_branch p data_file_out index_file_out execvp_errno t ;;
  match e with
  | Execs st => Done (RunsProgram (cs_table st))
  | Returns errno st =>
      if errno =? 0 then Done (WorksOn errno)
      else
        match filter (fun path => existsb (String.eqb path) (cs_fclosed st))
                     (fclose_calls (fclose_events index_file_out
                                    ++ fclose_events data_file_out)) with
        | path :: _ => Done (FclosesAgain path)
        | [] => Done (WorksOn errno)
        end
  end.

(** The descriptors of the child after [fork] when the worker had its
    standard streams open: the pipes are at 3, 4 and, when the output is
    captured, 5, 6. *)
Definition example_pipe_fds : pipe_fds :=
  {| pipefd_stdin_0 := 3; pipefd_stdin_1 := 4; pipefd_stdout_0 := 5; pipefd_stdout_1 := 6 |}.

Definition example_fd_table (capture_stdout : bool) : fd_table :=
  fun k =>
    if (0 <=? k) && (k <=? 2) then Some (Inherited k)
    else if k =? 3 then Some (PipeEnd StdinRead)
    else if k =? 4 then Some (PipeEnd StdinWrite)
    else if capture_stdout && (k =? 5) then Some (PipeEnd StdoutRead)
    else if capture_stdout && (k =? 6) then Some (PipeEnd StdoutWrite)
    else None.

(** The descriptors of the child when the worker was started with its
    standard input closed: [pipe] takes the lowest free descriptor, 0, for
    the read end of the input pipe. *)
Definition stdin_closed_pipe_fds : pipe_fds :=
  {| pipefd_stdin_0 := 0; pipefd_stdin_1 := 3; pipefd_stdout_0 := 4; pipefd_stdout_1 := 5 |}.

Definition stdin_closed_fd_table : fd_table :=
  fun k =>
    if k =? 0 then Some (PipeEnd StdinRead)
    else if (1 <=? k) && (k <=? 2) then Some (Inherited k)
    else if k =? 3 then Some (PipeEnd StdinWrite)
    else None.



(** ** The length of the runs of the write loop *)

(** A bound on the rounds still to be made from a state of the write loop
    when the pipe behaves as a pipe: while the child reads, each round hands
    over a byte or more; once the pipe is closed, [written] is counted
    down. *)
Definition rounds_left (w : child) (to_write : Z) (st : pipe_state) : Z :=
  match write_at w (ps_nwrites st) with
  | WriteErr _ => ps_written st + 1
  | WriteOk _ => (to_write - ps_written st) + to_write + 2
  end.

(** A child that reads its input and writes [n] zero bytes. *)
Definition child_writing_zeros (n : Z) : child :=
  child_reading_all (repeat Byte.x00 (Z.to_nat n)) 0.

(** * Part II: properties *)

(** ** C integers *)

(** Linear arithmetic with the bounds of the C types written out. *)
Ltac range_lia :=
  unfold INT_MIN, INT_MAX, SIZE_MAX, SSIZE_MIN, SSIZE_MAX, PIPE_BUF,
    READ_BUFFER_SIZE, EXIT_SUCCESS in *; lia.

Lemma to_size_t_small z : 0 <= z <= SIZE_MAX -> to_size_t z = z.
Proof. unfold to_size_t, SIZE_MAX. intros H. apply Z.mod_small. lia. Qed.

Lemma to_int_small z : INT_MIN <= z <= INT_MAX -> to_int z = z.
Proof.
  unfold to_int, INT_MIN, INT_MAX. intros H.
  rewrite Z.mod_small; lia.
Qed.

Lemma to_ssize_t_small z : SSIZE_MIN <= z <= SSIZE_MAX -> to_ssize_t z = z.
Proof.
  unfold to_ssize_t, SSIZE_MIN, SSIZE_MAX. intros H.
  rewrite Z.mod_small; lia.
Qed.

Lemma int_result_small z : INT_MIN <= z <= INT_MAX -> int_result z = Done z.
Proof.
  intros H. unfold int_result, in_int.
  destruct (Z.leb_spec INT_MIN z), (Z.leb_spec z INT_MAX); simpl; try reflexivity; lia.
Qed.

Lemma ssize_result_small z : SSIZE_MIN <= z <= SSIZE_MAX -> ssize_result z = Done z.
Proof.
  intros H. unfold ssize_result, in_ssize_t.
  destruct (Z.leb_spec SSIZE_MIN z), (Z.leb_spec z SSIZE_MAX); simpl; try reflexivity; lia.
Qed.

(** ** The planner computes the ceiling *)

Lemma ceil_div_shift n d : 0 < d -> 1 <= n -> (n - 1) / d + 1 = ceil_div n d.
Proof.
  intros Hd Hn. unfold ceil_div.
  pose proof (Z.div_mod n d ltac:(lia)) as E.
  pose proof (Z.mod_pos_bound n d Hd) as B.
  destruct (Z.eqb_spec (n mod d) 0) as [Hz | Hz].
  - assert (n - 1 = d * (n / d - 1) + (d - 1)) as E' by lia.
    assert ((n - 1) / d = n / d - 1) as ->; [| lia].
    symmetry. apply (Z.div_unique_pos (n - 1) d (n / d - 1) (d - 1)); lia.
  - assert (n - 1 = d * (n / d) + (n mod d - 1)) as E' by lia.
    assert ((n - 1) / d = n / d) as ->; [| lia].
    symmetry. apply (Z.div_unique_pos (n - 1) d (n / d) (n mod d - 1)); lia.
Qed.

Lemma ceil_div_pos n d : 0 < d -> 1 <= n -> 1 <= ceil_div n d.
Proof.
  intros Hd Hn. rewrite <- ceil_div_shift by lia.
  pose proof (Z.div_pos (n - 1) d ltac:(lia) Hd). lia.
Qed.

Lemma main_chunk_size_in_range n W parts :
  1 <= n <= SIZE_MAX -> 1 <= W -> 1 <= parts ->
  W * parts <= INT_MAX -> ceil_div n (W * parts) <= INT_MAX ->
  main_chunk_size n (W + 1) parts = Done (spec_chunk_size n W parts).
Proof.
  intros Hn HW Hp Hprod Hceil.
  assert (0 < W * parts) as Hd by nia.
  assert (W <= INT_MAX) as HWmax by nia.
  pose proof (ceil_div_pos Hd (proj1 Hn)) as Hc1.
  unfold main_chunk_size, main_split_size, spec_chunk_size.
  replace (W + 1 - 1) with W by lia.
  rewrite (@int_result_small W) by range_lia. simpl.
  rewrite (@int_result_small (W * parts)) by range_lia. simpl.
  rewrite (@to_size_t_small (W * parts)) by range_lia.
  destruct (Z.eqb_spec (W * parts) 0); [lia |].
  rewrite (@to_size_t_small (n - 1)) by lia.
  rewrite ceil_div_shift by lia.
  rewrite to_size_t_small by range_lia.
  rewrite to_int_small by range_lia.
  simpl.
  destruct (Z.gtb_spec (ceil_div n (W * parts)) 1).
  - rewrite to_size_t_small by range_lia. f_equal. lia.
  - rewrite to_size_t_small by range_lia. f_equal. lia.
Qed.

(** ** The dispatcher covers the index *)

Lemma index_range_nil s e : e <= s -> index_range s e = [].
Proof.
  intros H. unfold index_range. replace (Z.to_nat (e - s)) with O by lia. reflexivity.
Qed.

Lemma map_seq_shift (s : Z) (len start : nat) :
  map (fun k => s + Z.of_nat k) (seq start len)
  = map (fun k => s + Z.of_nat start + Z.of_nat k) (seq 0 len).
Proof.
  revert s start. induction len as [| len IH]; intros s start; simpl; [reflexivity |].
  f_equal; [lia |].
  rewrite (IH s (S start)), (IH (s + Z.of_nat start) 1%nat).
  apply map_ext. intros k. lia.
Qed.

Lemma index_range_app s m e :
  s <= m -> m <= e -> index_range s m ++ index_range m e = index_range s e.
Proof.
  intros H1 H2. unfold index_range.
  replace (Z.to_nat (e - s)) with (Z.to_nat (m - s) + Z.to_nat (e - m))%nat by lia.
  rewrite seq_app, map_app. apply (f_equal (app _)).
  simpl. rewrite (map_seq_shift s). apply map_ext. intros k. lia.
Qed.

Lemma index_range_cons s e : s < e -> index_range s e = s :: index_range (s + 1) e.
Proof.
  intros H. rewrite <- (index_range_app (s:=s) (m:=s+1) (e:=e)) by lia.
  unfold index_range at 1. replace (Z.to_nat (s + 1 - s)) with 1%nat by lia.
  simpl. f_equal. lia.
Qed.

Lemma index_range_length s e : List.length (index_range s e) = Z.to_nat (e - s).
Proof. unfold index_range. now rewrite length_map, length_seq. Qed.

Lemma in_index_range i s e : In i (index_range s e) <-> s <= i < e.
Proof.
  unfold index_range. rewrite in_map_iff. split.
  - intros (k & <- & Hk). apply in_seq in Hk. lia.
  - intros H. exists (Z.to_nat (i - s)). split; [lia |]. apply in_seq. lia.
Qed.

Section Dispatcher.

Variables n size : Z.
Hypothesis size_pos : 0 < size.

Lemma MPQ_chunks_from_cover fuel start :
  0 <= start -> n - start <= Z.of_nat fuel ->
  flat_map chunk_indices (MPQ_chunks_from fuel start n size) = index_range start n.
Proof.
  revert start. induction fuel as [| fuel IH]; intros start H0 Hf; simpl.
  - rewrite index_range_nil; [reflexivity | lia].
  - destruct (Z.ltb_spec start n) as [Hlt | Hge].
    + simpl. unfold chunk_indices at 1. simpl.
      destruct (Z_le_gt_dec (start + size) n) as [Hle | Hgt].
      * rewrite Z.min_l by lia. rewrite IH by lia.
        apply index_range_app; lia.
      * rewrite Z.min_r by lia.
        destruct fuel; simpl.
        -- now rewrite app_nil_r.
        -- destruct (Z.ltb_spec (start + size) n); [lia |]. simpl. now rewrite app_nil_r.
    + rewrite index_range_nil; [reflexivity | lia].
Qed.

Lemma MPQ_chunks_from_bounds fuel start :
  Forall (fun c => start <= fst c /\ fst c < snd c <= n) (MPQ_chunks_from fuel start n size).
Proof.
  revert start. induction fuel as [| fuel IH]; intros start; simpl; [constructor |].
  destruct (Z.ltb_spec start n) as [Hlt | Hge]; [| constructor].
  constructor; [cbn [fst snd]; lia |].
  eapply Forall_impl; [| apply IH]. simpl. intros c Hc. lia.
Qed.

Lemma MPQ_chunks_from_disjoint fuel start :
  chunks_disjoint (MPQ_chunks_from fuel start n size).
Proof.
  revert start. induction fuel as [| fuel IH]; intros start; simpl; [constructor |].
  destruct (Z.ltb_spec start n) as [Hlt | Hge]; [| constructor].
  constructor; [| apply IH].
  eapply Forall_impl; [| apply MPQ_chunks_from_bounds]. simpl. intros c Hc. lia.
Qed.

Lemma MPQ_chunks_from_sizes fuel start :
  n - start <= Z.of_nat fuel ->
  chunk_sizes_ok size (MPQ_chunks_from fuel start n size).
Proof.
  revert start. induction fuel as [| fuel IH]; intros start Hf; simpl; [exact I |].
  destruct (Z.ltb_spec start n) as [Hlt | Hge]; [| exact I].
  specialize (IH (start + size) ltac:(lia)).
  destruct (MPQ_chunks_from fuel (start + size) n size) as [| c rest] eqn:E.
  - cbn [chunk_sizes_ok]. unfold chunk_len. cbn [fst snd]. lia.
  - cbn [chunk_sizes_ok]. split; [| exact IH].
    unfold chunk_len. cbn [fst snd].
    destruct fuel; simpl in E; [discriminate |].
    destruct (Z.ltb_spec (start + size) n); [lia | discriminate].
Qed.

End Dispatcher.

(** C1, the claim as written: the chunk size is the ceiling for every
    [n >= 1], [W >= 1] and [parts >= 1].  It fails at [n = 2^31], [W = 1],
    [parts = 1]: the quotient plus one is [2^31], which the [int] variable
    [split_size] holds as [-2^31], so that the chunk size handed to the
    dispatcher is [1]. *)
Lemma C1_counterexample :
  main_chunk_size 2147483648 (1 + 1) 1 = Done 1
  /\ spec_chunk_size 2147483648 1 1 = 2147483648.
Proof. split; reflexivity. Qed.

(** C1, amended: for [n >= 1], [W >= 1], [parts >= 1] with [W * parts] and
    the ceiling of [n / (W * parts)] representable as [int]s, the planner
    computes [max(1, ceil(n / (W * parts)))]; and for every [n >= 1] and chunk
    size [>= 1] the chunks handed out cover [0 .. n-1] exactly, each index
    once and in order, are pairwise disjoint, and all have the chunk size
    except possibly the last, which has between one entry and that size. *)
Theorem C1_partition_plan n W parts :
  1 <= n <= SIZE_MAX -> 1 <= W -> 1 <= parts ->
  W * parts <= INT_MAX -> ceil_div n (W * parts) <= INT_MAX ->
  main_chunk_size n (W + 1) parts = Done (spec_chunk_size n W parts)
  /\ let chunks := MPQ_chunks n (spec_chunk_size n W parts) in
     flat_map chunk_indices chunks = index_range 0 n
     /\ chunks_disjoint chunks
     /\ chunk_sizes_ok (spec_chunk_size n W parts) chunks.
Proof.
  intros Hn HW Hp Hprod Hceil.
  split; [now apply main_chunk_size_in_range |].
  assert (0 < spec_chunk_size n W parts) as Hs by (unfold spec_chunk_size; lia).
  cbv zeta. unfold MPQ_chunks. repeat split.
  - apply MPQ_chunks_from_cover; lia.
  - apply MPQ_chunks_from_disjoint; lia.
  - apply MPQ_chunks_from_sizes; lia.
Qed.

(** The scenario of the spec: 25 entries, 2 workers, 5 parts. *)
Lemma C1_partition_plan_witness :
  main_chunk_size 25 (2 + 1) 5 = Done 3
  /\ MPQ_chunks 25 3 = [(0, 3); (3, 6); (6, 9); (9, 12); (12, 15); (15, 18);
                        (18, 21); (21, 24); (24, 25)]
  /\ flat_map chunk_indices (MPQ_chunks 25 (spec_chunk_size 25 2 5)) = index_range 0 25.
Proof.
  split; [reflexivity |]. split; [reflexivity |].
  apply (@C1_partition_plan 25 2 5); vm_compute; try split; congruence.
Defined.

(** ** System calls *)

Lemma sys_read_spec w nonblock k out :
  let '(r, bytes) := sys_read w nonblock k out in
  (r <= 0 /\ bytes = [])
  \/ (0 < r <= PIPE_BUF /\ r = Z.of_nat (List.length bytes)
      /\ bytes ++ skipn (List.length bytes) out = out).
Proof.
  unfold sys_read. destruct (read_at w k) as [available | e]; [| left; split; [lia | reflexivity]].
  destruct out as [| b out']; [left; split; [lia | reflexivity] |].
  set (n := if nonblock then _ else _).
  assert (n <= PIPE_BUF) as Hn by (subst n; destruct nonblock; lia).
  destruct (Z.leb_spec n 0) as [Hle | Hgt]; [left; split; [lia | reflexivity] |].
  right. set (out := b :: out').
  pose proof (firstn_le_length (Z.to_nat n) out) as Hlen.
  assert (List.length (firstn (Z.to_nat n) out) <> 0%nat) as Hne.
  { subst out. destruct (Z.to_nat n) eqn:E; [lia | simpl; discriminate]. }
  repeat split; try lia.
  destruct (Nat.le_gt_cases (Z.to_nat n) (List.length out)) as [Hle | Hlt].
  - rewrite length_firstn, Nat.min_l by exact Hle. apply firstn_skipn.
  - rewrite firstn_all2 by lia. rewrite skipn_all. apply app_nil_r.
Qed.

Lemma sys_read_blocking w k out :
  reads_succeed w -> out <> [] -> 0 < fst (sys_read w false k out).
Proof.
  intros Hs Hout. unfold sys_read. destruct (Hs k) as [a ->].
  destruct out as [| b out']; [congruence |].
  unfold PIPE_BUF.
  destruct (Z.leb_spec (Z.min (Z.max a 1) 4096) 0) as [Hle | Hgt]; [lia |].
  cbn [fst]. destruct (Z.to_nat (Z.min (Z.max a 1) 4096)) eqn:E; [lia |].
  simpl. lia.
Qed.

Lemma read_step_done w nonblock st :
  fits st ->
  exists r st',
    read_step w nonblock st = Done (r, st')
    /\ ps_written st' = ps_written st
    /\ ps_nwrites st' = ps_nwrites st
    /\ ps_captured st' ++ ps_out st' = ps_captured st ++ ps_out st
    /\ (0 < r -> (List.length (ps_out st') < List.length (ps_out st))%nat)
    /\ (r <= 0 -> ps_captured st' = ps_captured st /\ ps_out st' = ps_out st)
    /\ r = fst (sys_read w nonblock (ps_nreads st) (ps_out st)).
Proof.
  intros Hfit. unfold read_step.
  pose proof (sys_read_spec w nonblock (ps_nreads st) (ps_out st)) as Hs.
  destruct (sys_read w nonblock (ps_nreads st) (ps_out st)) as [r bytes].
  destruct Hs as [[Hr ->] | (Hr & Hlen & Hsplit)].
  - destruct (Z.gtb_spec r 0); [lia |].
    eexists _, _. split; [reflexivity |]. cbn. repeat split; try reflexivity. lia.
  - destruct (Z.gtb_spec r 0); [| lia].
    assert (Z.of_nat (List.length (ps_captured st)) + r <= READ_BUFFER_SIZE) as Hcap.
    { unfold fits in Hfit. rewrite <- Hsplit in Hfit. rewrite !length_app in Hfit. lia. }
    destruct (Z.gtb_spec (Z.of_nat (List.length (ps_captured st)) + r) READ_BUFFER_SIZE); [lia |].
    eexists _, _. split; [reflexivity |]. cbn. repeat split; try reflexivity.
    + rewrite <- app_assoc. now rewrite Hsplit.
    + intros _. rewrite <- Hsplit at 2. rewrite length_app. lia.
    + lia.
    + lia.
Qed.

(** ** The write loop *)

Lemma write_loop_exit fuel w name capture to_write st :
  to_write <= to_size_t (ps_written st) ->
  write_loop fuel w name capture to_write st = Done ([], st).
Proof.
  intros H. destruct fuel; simpl;
    destruct (Z.ltb_spec (to_size_t (ps_written st)) to_write); try lia; reflexivity.
Qed.

Lemma write_loop_out_of_fuel w name capture to_write st :
  to_size_t (ps_written st) < to_write ->
  write_loop O w name capture to_write st = OutOfFuel.
Proof.
  intros H. simpl.
  destruct (Z.ltb_spec (to_size_t (ps_written st)) to_write); [reflexivity | lia].
Qed.

Lemma write_loop_step fuel w name capture to_write st :
  to_size_t (ps_written st) < to_write ->
  write_loop (S fuel) w name capture to_write st =
  let batch_size := batch_of to_write (ps_written st) in
  let '(ret, errno) := sys_write w (ps_nwrites st) batch_size in
  let ev := EvWrite (ps_written st) batch_size ret in
  if (ret <? 0) && negb (errno =? EPIPE) then
    Done ([ev; EvStderr "ERROR in child!"; EvPerror name], after_write st (ps_written st))
  else
    written <- ssize_result (ps_written st + ret) ;;
    if capture then
      rd <- read_step w true (after_write st written) ;;
      more <- write_loop fuel w name capture to_write (snd rd) ;;
      Done (ev :: EvRead true (fst rd) :: fst more, snd more)
    else
      more <- write_loop fuel w name capture to_write (after_write st written) ;;
      Done (ev :: fst more, snd more).
Proof.
  intros H. simpl.
  destruct (Z.ltb_spec (to_size_t (ps_written st)) to_write); [reflexivity | lia].
Qed.

Lemma batch_of_range to_write written :
  0 <= written < to_write -> to_write <= SSIZE_MAX ->
  1 <= batch_of to_write written <= PIPE_BUF
  /\ batch_of to_write written <= to_write - written.
Proof.
  intros H1 H2. unfold batch_of.
  rewrite to_size_t_small by range_lia.
  unfold PIPE_BUF.
  destruct (Z.ltb_spec (to_write - written) 4096).
  - rewrite to_int_small by range_lia. lia.
  - lia.
Qed.

Section WriteLoop.

Variable w : child.
Variable name : string.
Variable capture : bool.
Variable to_write : Z.
Hypothesis to_write_range : 0 <= to_write <= SSIZE_MAX.



Lemma to_size_t_minus_one : to_size_t (-1) = SIZE_MAX.
Proof. reflexivity. Qed.

(** Once the pipe is closed the loop counts [written] down to [-1]. *)
Lemma write_loop_epipe fuel : forall st,
  (forall j, (ps_nwrites st <= j)%nat -> write_at w j = WriteErr EPIPE) ->
  -1 <= ps_written st < to_write -> fits st ->
  (Z.to_nat (ps_written st + 1) <= fuel)%nat ->
  exists evs st',
    write_loop fuel w name capture to_write st = Done (evs, st')
    /\ all_pipe_io capture evs
    /\ ps_captured st' ++ ps_out st' = ps_captured st ++ ps_out st.
Proof.
  induction fuel as [| fuel IH]; intros st Hpipe Hwr Hfit Hfuel.
  - exists [], st. rewrite write_loop_exit.
    + repeat split. constructor.
    + replace (ps_written st) with (-1) by lia.
      rewrite to_size_t_minus_one. range_lia.
  - destruct (Z.eq_dec (ps_written st) (-1)) as [Heq | Hne].
    + exists [], st. rewrite write_loop_exit.
      * repeat split. constructor.
      * rewrite Heq, to_size_t_minus_one. range_lia.
    + rewrite write_loop_step
        by (rewrite to_size_t_small by range_lia; lia).
      cbv zeta. unfold sys_write. rewrite (Hpipe (ps_nwrites st)) by lia.
      rewrite Z.eqb_refl. cbn [negb andb Z.ltb Z.compare].
      rewrite ssize_result_small by range_lia.
      cbn [bind].
      destruct capture.
      * destruct (@read_step_done w true (after_write st (ps_written st + -1)) Hfit)
          as (r & st1 & -> & Hw1 & Hn1 & Hc1 & _).
        cbn [bind fst snd].
        destruct (IH st1) as (evs & st' & -> & Hio & Hc).
        -- intros j Hj. apply Hpipe. rewrite Hn1 in Hj. cbn [ps_written ps_nwrites after_write] in Hj. lia.
        -- rewrite Hw1. cbn [ps_written ps_nwrites after_write]. lia.
        -- unfold fits. rewrite Hc1. exact Hfit.
        -- rewrite Hw1. cbn [ps_written ps_nwrites after_write]. lia.
        -- cbn [bind fst snd]. eexists _, _. split; [reflexivity |]. split.
           ++ constructor; [reflexivity |]. constructor; [reflexivity | exact Hio].
           ++ rewrite Hc. exact Hc1.
      * destruct (IH (after_write st (ps_written st + -1))) as (evs & st' & -> & Hio & Hc).
        -- intros j Hj. apply Hpipe. cbn [ps_written ps_nwrites after_write] in Hj. lia.
        -- cbn [ps_written ps_nwrites after_write]. lia.
        -- exact Hfit.
        -- cbn [ps_written ps_nwrites after_write]. lia.
        -- cbn [bind fst snd]. eexists _, _. split; [reflexivity |]. split.
           ++ constructor; [reflexivity | exact Hio].
           ++ exact Hc.
Qed.

End WriteLoop.

Section WriteLoopEnds.

Variable w : child.
Variable name : string.
Variable capture : bool.
Variable to_write : Z.
Hypothesis to_write_range : 0 <= to_write <= SSIZE_MAX.

(** With a pipe that behaves as a pipe the loop ends. *)
Lemma write_loop_done fuel : forall st,
  pipe_like w ->
  0 <= ps_written st <= to_write -> fits st ->
  (Z.to_nat (2 * to_write - ps_written st + 1) <= fuel)%nat ->
  exists evs st',
    write_loop fuel w name capture to_write st = Done (evs, st')
    /\ all_pipe_io capture evs
    /\ ps_captured st' ++ ps_out st' = ps_captured st ++ ps_out st.
Proof.
  induction fuel as [| fuel IH]; intros st Hpipe Hwr Hfit Hfuel; [lia |].
  destruct (Z.eq_dec (ps_written st) to_write) as [Heq | Hne].
  { exists [], st. rewrite write_loop_exit.
    - repeat split. constructor.
    - rewrite to_size_t_small by range_lia. lia. }
  rewrite write_loop_step
    by (rewrite to_size_t_small by range_lia; lia).
  cbv zeta.
  pose proof (@batch_of_range to_write (ps_written st) ltac:(lia) ltac:(lia)) as [Hb1 Hb2].
  unfold sys_write.
  destruct (write_at w (ps_nwrites st)) as [c | e] eqn:Hw.
  - (* the pipe takes some bytes *)
    pose proof (proj1 Hpipe _ _ Hw) as Hc.
    destruct (Z.ltb_spec (Z.min c (batch_of to_write (ps_written st))) 0); [lia |].
    cbn [andb].
    rewrite ssize_result_small by range_lia.
    cbn [bind].
    set (written := ps_written st + Z.min c (batch_of to_write (ps_written st))).
    assert (ps_written st < written <= to_write) as Hwritten by (subst written; lia).
    clearbody written.
    destruct capture.
    + destruct (@read_step_done w true (after_write st written) Hfit)
        as (r & st1 & -> & Hw1 & Hn1 & Hc1 & _).
      cbn [bind fst snd].
      destruct (IH st1) as (evs & st' & -> & Hio & Hcons).
      * exact Hpipe.
      * rewrite Hw1. cbn [ps_written ps_nwrites after_write]. lia.
      * unfold fits. rewrite Hc1. exact Hfit.
      * rewrite Hw1. cbn [ps_written ps_nwrites after_write]. lia.
      * cbn [bind fst snd]. eexists _, _. split; [reflexivity |]. split.
        -- constructor; [reflexivity |]. constructor; [reflexivity | exact Hio].
        -- rewrite Hcons. exact Hc1.
    + destruct (IH (after_write st written)) as (evs & st' & -> & Hio & Hcons).
      * exact Hpipe.
      * cbn [ps_written ps_nwrites after_write]. lia.
      * exact Hfit.
      * cbn [ps_written ps_nwrites after_write]. lia.
      * cbn [bind fst snd]. eexists _, _. split; [reflexivity |]. split.
        -- constructor; [reflexivity | exact Hio].
        -- exact Hcons.
  - (* the write fails *)
    cbn [Z.ltb Z.compare andb].
    destruct (Z.eqb_spec e EPIPE) as [-> | Hother]; cbn [negb].
    + rewrite ssize_result_small by range_lia.
      cbn [bind].
      destruct capture.
      * destruct (@read_step_done w true (after_write st (ps_written st + -1)) Hfit)
          as (r & st1 & -> & Hw1 & Hn1 & Hc1 & _).
        cbn [bind fst snd].
        destruct (@write_loop_epipe w name true to_write to_write_range fuel st1) as (evs & st' & -> & Hio & Hcons).
        -- intros j Hj. apply (proj2 Hpipe _ Hw). rewrite Hn1 in Hj. cbn [ps_written ps_nwrites after_write] in Hj. lia.
        -- rewrite Hw1. cbn [ps_written ps_nwrites after_write]. lia.
        -- unfold fits. rewrite Hc1. exact Hfit.
        -- rewrite Hw1. cbn [ps_written ps_nwrites after_write]. lia.
        -- cbn [bind fst snd]. eexists _, _. split; [reflexivity |]. split.
           ++ constructor; [reflexivity |]. constructor; [reflexivity | exact Hio].
           ++ rewrite Hcons. exact Hc1.
      * destruct (@write_loop_epipe w name false to_write to_write_range fuel (after_write st (ps_written st + -1)))
          as (evs & st' & -> & Hio & Hcons).
        -- intros j Hj. apply (proj2 Hpipe _ Hw). cbn [ps_written ps_nwrites after_write] in Hj. lia.
        -- cbn [ps_written ps_nwrites after_write]. lia.
        -- exact Hfit.
        -- cbn [ps_written ps_nwrites after_write]. lia.
        -- cbn [bind fst snd]. eexists _, _. split; [reflexivity |]. split.
           ++ constructor; [reflexivity | exact Hio].
           ++ exact Hcons.
    + eexists _, _. split; [reflexivity |]. split.
      * repeat (constructor; [reflexivity |]). constructor.
      * reflexivity.
Qed.

End WriteLoopEnds.

Lemma firstn_plus (A : Type) (a b : nat) (l : list A) :
  firstn (a + b) l = firstn a l ++ firstn b (skipn a l).
Proof.
  revert l. induction a as [| a IH]; intros l; [reflexivity |].
  destruct l as [| x l]; simpl.
  - now rewrite firstn_nil.
  - now rewrite IH.
Qed.

(** Consecutive slices of the payload make a slice. *)
Lemma slice_app (A : Type) (l : list A) (p a b : Z) :
  0 <= p -> 0 <= a -> 0 <= b ->
  firstn (Z.to_nat a) (skipn (Z.to_nat p) l)
  ++ firstn (Z.to_nat b) (skipn (Z.to_nat (p + a)) l)
  = firstn (Z.to_nat (a + b)) (skipn (Z.to_nat p) l).
Proof.
  intros Hp Ha Hb.
  rewrite (Z2Nat.inj_add a b), (Z2Nat.inj_add p a) by lia.
  rewrite firstn_plus, skipn_skipn.
  now rewrite (Nat.add_comm (Z.to_nat a)).
Qed.

Lemma stdin_bytes_app filedata tr1 tr2 :
  stdin_bytes filedata (tr1 ++ tr2) = stdin_bytes filedata tr1 ++ stdin_bytes filedata tr2.
Proof. apply flat_map_app. Qed.

Lemma stdin_bytes_round filedata capture position count ret r :
  stdin_bytes filedata (write_round capture (position, count, ret, r))
  = firstn (Z.to_nat ret) (skipn (Z.to_nat position) filedata).
Proof. destruct capture; simpl; now rewrite app_nil_r. Qed.

Section WriteLoopAllOk.

Variable w : child.
Variable name : string.
Variable capture : bool.
Variable to_write : Z.
Variable filedata : list Byte.byte.
Hypothesis to_write_range : 0 <= to_write <= SSIZE_MAX.
Hypothesis child_reads : reads_all_input w.

(** With a child that reads all of its input the loop is a sequence of
    rounds that hand over the payload from [written] on. *)
Lemma write_loop_all_ok fuel : forall st,
  0 <= ps_written st <= to_write -> fits st ->
  (Z.to_nat (to_write - ps_written st) <= fuel)%nat ->
  exists rounds st',
    write_loop fuel w name capture to_write st
    = Done (flat_map (write_round capture) rounds, st')
    /\ Forall round_ok rounds
    /\ stdin_bytes filedata (flat_map (write_round capture) rounds)
       = firstn (Z.to_nat (to_write - ps_written st))
           (skipn (Z.to_nat (ps_written st)) filedata)
    /\ ps_captured st' ++ ps_out st' = ps_captured st ++ ps_out st.
Proof.
  induction fuel as [| fuel IH]; intros st Hwr Hfit Hfuel.
  { exists [], st. rewrite write_loop_exit.
    - repeat split; [constructor |].
      replace (Z.to_nat (to_write - ps_written st)) with O by lia. reflexivity.
    - rewrite to_size_t_small by range_lia. lia. }
  destruct (Z.eq_dec (ps_written st) to_write) as [Heq | Hne].
  { exists [], st. rewrite write_loop_exit.
    - repeat split; [constructor |].
      replace (Z.to_nat (to_write - ps_written st)) with O by lia. reflexivity.
    - rewrite to_size_t_small by range_lia. lia. }
  rewrite write_loop_step
    by (rewrite to_size_t_small by range_lia; lia).
  cbv zeta.
  pose proof (@batch_of_range to_write (ps_written st) ltac:(lia) ltac:(lia)) as [Hb1 Hb2].
  unfold sys_write. destruct (child_reads (ps_nwrites st)) as (c & -> & Hc).
  set (batch := batch_of to_write (ps_written st)) in *.
  destruct (Z.ltb_spec (Z.min c batch) 0); [lia |].
  cbn [andb].
  rewrite ssize_result_small by range_lia.
  cbn [bind].
  set (ret := Z.min c batch).
  assert (0 < ret <= batch) as Hret by (subst ret; lia).
  clearbody ret batch.
  destruct capture.
  - destruct (@read_step_done w true (after_write st (ps_written st + ret)) Hfit)
      as (r & st1 & -> & Hw1 & Hn1 & Hc1 & _).
    cbn [bind fst snd].
    destruct (IH st1) as (rounds & st' & -> & Hok & Hbytes & Hcons).
    + rewrite Hw1. cbn [ps_written ps_nwrites after_write]. lia.
    + unfold fits. rewrite Hc1. exact Hfit.
    + rewrite Hw1. cbn [ps_written ps_nwrites after_write]. lia.
    + cbn [bind fst snd].
      exists ((ps_written st, batch, ret, r) :: rounds), st'.
      split; [reflexivity |]. split; [constructor; [simpl; lia | exact Hok] |]. split.
      * cbn [flat_map]. rewrite stdin_bytes_app, stdin_bytes_round, Hbytes, Hw1.
        cbn [ps_written ps_nwrites after_write].
        rewrite slice_app by lia. f_equal. lia.
      * rewrite Hcons. exact Hc1.
  - destruct (IH (after_write st (ps_written st + ret)))
      as (rounds & st' & -> & Hok & Hbytes & Hcons).
    + cbn [ps_written ps_nwrites after_write]. lia.
    + exact Hfit.
    + cbn [ps_written ps_nwrites after_write]. lia.
    + cbn [bind fst snd].
      exists ((ps_written st, batch, ret, 0) :: rounds), st'.
      split; [reflexivity |]. split; [constructor; [simpl; lia | exact Hok] |]. split.
      * cbn [flat_map]. rewrite stdin_bytes_app, stdin_bytes_round, Hbytes.
        cbn [ps_written ps_nwrites after_write].
        rewrite slice_app by lia. f_equal. lia.
      * exact Hcons.
Qed.

End WriteLoopAllOk.

(** ** The drain loop *)

Lemma drain_loop_done w fuel : forall st,
  fits st -> (List.length (ps_out st) < fuel)%nat ->
  exists evs st',
    drain_loop fuel w st = Done (evs, st')
    /\ all_pipe_io true evs
    /\ read_results evs <> []
    /\ ps_captured st' ++ ps_out st' = ps_captured st ++ ps_out st.
Proof.
  induction fuel as [| fuel IH]; intros st Hfit Hfuel; [lia |].
  simpl.
  destruct (@read_step_done w false st Hfit) as (r & st1 & -> & _ & _ & Hc1 & Hlt & _).
  cbn [bind fst snd].
  destruct (Z.gtb_spec r 0) as [Hpos | Hle].
  - destruct (IH st1) as (evs & st' & -> & Hio & _ & Hcons).
    + unfold fits. rewrite Hc1. exact Hfit.
    + specialize (Hlt ltac:(lia)). lia.
    + cbn [bind fst snd]. eexists _, _. split; [reflexivity |]. split; [| split].
      * constructor; [reflexivity | exact Hio].
      * discriminate.
      * rewrite Hcons. exact Hc1.
  - eexists _, _. split; [reflexivity |]. split; [| split].
    + constructor; [reflexivity | constructor].
    + discriminate.
    + exact Hc1.
Qed.

(** When no [read] fails the loop reads up to the end of file. *)
Lemma drain_loop_all w fuel : forall st,
  reads_succeed w -> fits st -> (List.length (ps_out st) < fuel)%nat ->
  exists reads st',
    drain_loop fuel w st = Done (map (EvRead false) reads ++ [EvRead false 0], st')
    /\ Forall (fun r => 0 < r <= PIPE_BUF) reads
    /\ ps_captured st' = ps_captured st ++ ps_out st.
Proof.
  induction fuel as [| fuel IH]; intros st Hrd Hfit Hfuel; [lia |].
  simpl.
  destruct (@read_step_done w false st Hfit)
    as (r & st1 & -> & _ & _ & Hc1 & Hlt & Hsame & Hr).
  cbn [bind fst snd].
  destruct (ps_out st) as [| b out] eqn:Hout.
  - assert (r = 0) as ->.
    { rewrite Hr. unfold sys_read. destruct (Hrd (ps_nreads st)) as [a ->]. reflexivity. }
    cbn [Z.gtb Z.compare].
    exists [], st1. split; [reflexivity |]. split; [constructor |].
    destruct (Hsame ltac:(lia)) as [-> _]. now rewrite app_nil_r.
  - assert (0 < r) as Hpos.
    { rewrite Hr. apply sys_read_blocking; [exact Hrd | discriminate]. }
    assert (r <= PIPE_BUF) as Hmax.
    { pose proof (sys_read_spec w false (ps_nreads st) (b :: out)) as Hs.
      destruct (sys_read w false (ps_nreads st) (b :: out)) as [r' bytes].
      cbn [fst] in Hr. subst r'. destruct Hs as [[? _] | [? _]]; lia. }
    destruct (Z.gtb_spec r 0); [| lia].
    destruct (IH st1) as (reads & st' & -> & Hall & Hcap).
    + exact Hrd.
    + unfold fits in *. rewrite Hc1. rewrite Hout in Hfit. exact Hfit.
    + specialize (Hlt Hpos). simpl in *. lia.
    + cbn [bind fst snd]. exists (r :: reads), st'.
      split; [reflexivity |]. split; [constructor; [lia | exact Hall] |].
      rewrite Hcap. exact Hc1.
Qed.

(** ** Projections of traces *)

Lemma stdout_lines_app tr1 tr2 :
  stdout_lines (tr1 ++ tr2) = stdout_lines tr1 ++ stdout_lines tr2.
Proof. apply flat_map_app. Qed.

Lemma inserted_names_app tr1 tr2 :
  inserted_names (tr1 ++ tr2) = inserted_names tr1 ++ inserted_names tr2.
Proof. apply flat_map_app. Qed.

Lemma read_results_app tr1 tr2 :
  read_results (tr1 ++ tr2) = read_results tr1 ++ read_results tr2.
Proof. apply flat_map_app. Qed.

Lemma fopen_calls_app tr1 tr2 :
  fopen_calls (tr1 ++ tr2) = fopen_calls tr1 ++ fopen_calls tr2.
Proof. apply flat_map_app. Qed.

Lemma waited_app tr1 tr2 : waited (tr1 ++ tr2) = waited tr1 ++ waited tr2.
Proof. apply flat_map_app. Qed.

Lemma pipe_io_silent capture tr :
  all_pipe_io capture tr ->
  stdout_lines tr = [] /\ inserted_names tr = [] /\ fopen_calls tr = []
  /\ waited tr = [] /\ (capture = false -> read_results tr = []).
Proof.
  induction 1 as [| ev tr Hev _ (IH1 & IH2 & IH3 & IH4 & IH5)].
  - repeat split.
  - destruct ev; try discriminate Hev; simpl; repeat split; try assumption.
    intros Hc. simpl in Hev. congruence.
Qed.

Lemma runner_setup_silent capture :
  stdout_lines (runner_setup capture) = [] /\ inserted_names (runner_setup capture) = []
  /\ fopen_calls (runner_setup capture) = [] /\ waited (runner_setup capture) = []
  /\ read_results (runner_setup capture) = [].
Proof. destruct capture; repeat split. Qed.

(** ** The entry pipe runner *)

Lemma write_fuel_enough to_write :
  0 <= to_write -> (Z.to_nat (2 * to_write - 0 + 1) <= write_fuel to_write)%nat.
Proof. intros H. unfold write_fuel. lia. Qed.

Section Runner.

Variable data : list Byte.byte.
Variable entry : ffindex_entry.
Variables data_file_out index_file_out : option string.
Variable offset : Z.
Variable w : child.
Hypothesis child_runs : runs w.
Hypothesis length_range : 1 <= entry_length entry <= SSIZE_MAX.

Let capture := is_open data_file_out.

Lemma runner_to_write :
  to_size_t (entry_length entry - 1) = entry_length entry - 1.
Proof. apply to_size_t_small. range_lia. Qed.

(** A child that runs is waited for, and the runner returns success. *)
Lemma apply_by_entry_runs :
  exists wl tail offset',
    ffindex_apply_by_entry data entry data_file_out index_file_out offset w
    = Done {| ar_ret := EXIT_SUCCESS; ar_offset := offset';
              ar_trace := runner_setup capture ++ wl ++ [EvClose StdinWrite] ++ tail
                          ++ runner_report entry (wait_status w) |}
    /\ all_pipe_io capture wl
    /\ (capture = false -> tail = [] /\ offset' = offset)
    /\ (capture = true ->
        exists reads bytes,
          tail = capture_tail data_file_out index_file_out offset (entry_name entry)
                   reads bytes
          /\ all_pipe_io true reads
          /\ read_results reads <> []
          /\ offset' = ffindex_insert_memory offset bytes).
Proof.
  destruct child_runs as (Hin & Hout & Hfork & Hpipe & Hbuf).
  unfold ffindex_apply_by_entry. fold capture.
  rewrite Hin, Hout, Hfork. cbn [Z.eqb negb]. rewrite andb_false_r.
  rewrite runner_to_write.
  set (st0 := {| ps_written := 0; ps_nwrites := 0; ps_nreads := 0;
                 ps_captured := []; ps_out := child_stdout w |}).
  assert (fits st0) as Hfit0 by exact Hbuf.
  destruct (@write_loop_done w (entry_name entry) capture (entry_length entry - 1) ltac:(lia)
              (write_fuel (entry_length entry - 1)) st0 Hpipe
              ltac:(cbn; lia) Hfit0 ltac:(apply write_fuel_enough; lia))
    as (wl & st1 & -> & Hio & Hcons).
  cbn [bind fst snd].
  destruct capture eqn:Hcap.
  - assert (fits st1) as Hfit1 by (unfold fits; rewrite Hcons; exact Hfit0).
    destruct (@drain_loop_done w (S (List.length (ps_out st1))) st1 Hfit1 ltac:(lia))
      as (dl & st2 & -> & Hio2 & Hsome & _).
    cbn [bind fst snd].
    eexists wl, _, _. split; [reflexivity |]. split; [exact Hio |].
    split; [discriminate |]. intros _.
    exists dl, (ps_captured st2). repeat split; assumption.
  - cbn [bind fst snd].
    exists wl, [], offset. split; [reflexivity |]. split; [exact Hio |].
    split; [intros _; split; reflexivity | discriminate].
Qed.

End Runner.

Lemma runner_report_lines entry status :
  stdout_lines (runner_report entry status)
  = if WIFEXITED status then [progress_line entry status] else [].
Proof. unfold runner_report. destruct (WIFEXITED status); reflexivity. Qed.

Lemma runner_report_silent entry status :
  inserted_names (runner_report entry status) = []
  /\ fopen_calls (runner_report entry status) = []
  /\ read_results (runner_report entry status) = []
  /\ waited (runner_report entry status) = [status].
Proof. unfold runner_report. destruct (WIFEXITED status); repeat split. Qed.

(** The runner, seen through the projections of its trace. *)
Lemma apply_by_entry_summary data entry data_file_out index_file_out offset w :
  runs w -> 1 <= entry_length entry <= SSIZE_MAX ->
  exists r,
    ffindex_apply_by_entry data entry data_file_out index_file_out offset w = Done r
    /\ ar_ret r = EXIT_SUCCESS
    /\ stdout_lines (ar_trace r)
       = (if WIFEXITED (wait_status w) then [progress_line entry (wait_status w)] else [])
    /\ inserted_names (ar_trace r)
       = (if is_open data_file_out then [entry_name entry] else [])
    /\ fopen_calls (ar_trace r) = []
    /\ waited (ar_trace r) = [wait_status w]
    /\ (is_open data_file_out = false -> read_results (ar_trace r) = [])
    /\ (is_open data_file_out = true -> read_results (ar_trace r) <> []).
Proof.
  intros Hruns Hlen.
  destruct (@apply_by_entry_runs data entry data_file_out index_file_out offset w Hruns Hlen)
    as (wl & tail & offset' & -> & Hio & Hoff & Hon).
  destruct (pipe_io_silent Hio) as (W1 & W2 & W3 & W4 & W5).
  destruct (runner_setup_silent (is_open data_file_out)) as (S1 & S2 & S3 & S4 & S5).
  destruct (runner_report_silent entry (wait_status w)) as (R2 & R3 & R5 & R4).
  eexists. split; [reflexivity |]. cbn [ar_ret ar_trace]. split; [reflexivity |].
  rewrite !stdout_lines_app, !inserted_names_app, !fopen_calls_app, !waited_app,
    !read_results_app.
  rewrite S1, S2, S3, S4, S5, W1, W2, W3, W4, R2, R3, R4, R5, runner_report_lines.
  destruct (is_open data_file_out) eqn:Hcap.
  - destruct (Hon eq_refl) as (reads & bytes & -> & Hio2 & Hsome & _).
    destruct (pipe_io_silent Hio2) as (D1 & D2 & D3 & D4 & _).
    unfold capture_tail.
    rewrite !stdout_lines_app, !inserted_names_app, !fopen_calls_app, !waited_app,
      !read_results_app.
    rewrite D1, D2, D3, D4. cbn. repeat split; [discriminate |].
    intros _ H. apply app_eq_nil in H. destruct H as [_ H].
    apply app_eq_nil in H. destruct H as [H _].
    apply app_eq_nil in H. destruct H as [H _]. contradiction.
  - destruct (Hoff eq_refl) as [-> _]. rewrite (W5 eq_refl). cbn. repeat split.
    discriminate.
Qed.

(** The runner with a child that reads all of its input and whose output
    is read without error. *)
Lemma apply_by_entry_all_ok data entry data_file_out index_file_out offset w :
  runs w -> reads_all_input w -> reads_succeed w ->
  1 <= entry_length entry <= SSIZE_MAX ->
  exists rounds reads,
    ffindex_apply_by_entry data entry data_file_out index_file_out offset w
    = Done {| ar_ret := EXIT_SUCCESS;
              ar_offset := (if is_open data_file_out
                            then ffindex_insert_memory offset (child_stdout w)
                            else offset);
              ar_trace :=
                runner_setup (is_open data_file_out)
                ++ flat_map (write_round (is_open data_file_out)) rounds
                ++ [EvClose StdinWrite]
                ++ (if is_open data_file_out
                    then capture_tail data_file_out index_file_out offset
                           (entry_name entry)
                           (map (EvRead false) reads ++ [EvRead false 0])
                           (child_stdout w)
                    else [])
                ++ runner_report entry (wait_status w) |}
    /\ Forall round_ok rounds
    /\ Forall (fun r => 0 < r <= PIPE_BUF) reads
    /\ stdin_bytes (ffindex_get_data_by_entry data entry)
         (flat_map (write_round (is_open data_file_out)) rounds)
       = firstn (Z.to_nat (entry_length entry - 1)) (ffindex_get_data_by_entry data entry).
Proof.
  intros (Hin & Hout & Hfork & Hpipe & Hbuf) Hwrites Hreads Hlen.
  unfold ffindex_apply_by_entry.
  rewrite Hin, Hout, Hfork. cbn [Z.eqb negb]. rewrite andb_false_r.
  rewrite runner_to_write by exact Hlen.
  set (st0 := {| ps_written := 0; ps_nwrites := 0; ps_nreads := 0;
                 ps_captured := []; ps_out := child_stdout w |}).
  assert (fits st0) as Hfit0 by exact Hbuf.
  destruct (@write_loop_all_ok w (entry_name entry) (is_open data_file_out) (entry_length entry - 1)
              (ffindex_get_data_by_entry data entry) ltac:(lia) Hwrites
              (write_fuel (entry_length entry - 1)) st0
              ltac:(cbn; lia) Hfit0 ltac:(unfold write_fuel; subst st0; cbn [ps_written]; lia))
    as (rounds & st1 & -> & Hok & Hbytes & Hcons).
  cbn [bind fst snd].
  cbn [ps_written st0] in Hbytes. rewrite Z.sub_0_r in Hbytes.
  change (skipn (Z.to_nat 0) ?l) with l in Hbytes.
  destruct (is_open data_file_out) eqn:Hcap.
  - assert (fits st1) as Hfit1 by (unfold fits; rewrite Hcons; exact Hfit0).
    destruct (@drain_loop_all w (S (List.length (ps_out st1))) st1 Hreads Hfit1 ltac:(lia))
      as (reads & st2 & -> & Hall & Hcap2).
    cbn [bind fst snd].
    rewrite Hcap2, Hcons. cbn [ps_captured ps_out st0 app].
    exists rounds, reads. split; [reflexivity |]. repeat split; assumption.
  - cbn [bind fst snd].
    exists rounds, []. split; [reflexivity |]. repeat split; try assumption. constructor.
Qed.

(** ** The worker callback *)

Section Payload.

Variable env : worker_env.
Variable apply_data : ffindex_apply_mpi_data.
Variables data_file_out index_file_out : option string.

(** A chunk whose entries exist and whose children run is processed to its
    end, one child after the other. *)
Lemma payload_loop_runs count : forall i offset,
  chunk_runs env apply_data (i, i + Z.of_nat count) ->
  exists tr,
    payload_loop env apply_data data_file_out index_file_out count i offset
    = Done (EXIT_SUCCESS, tr)
    /\ stdout_lines tr
       = flat_map (entry_report env (index apply_data)) (index_range i (i + Z.of_nat count))
    /\ inserted_names tr
       = (if is_open data_file_out
          then chunk_names (index apply_data) (i, i + Z.of_nat count) else [])
    /\ fopen_calls tr = []
    /\ waited tr
       = map (fun j => wait_status (child_of env j)) (index_range i (i + Z.of_nat count))
    /\ (is_open data_file_out = false -> read_results tr = []).
Proof.
  induction count as [| count IH]; intros i offset Hrun.
  - exists []. rewrite index_range_nil by lia. unfold chunk_names, chunk_indices.
    cbn [fst snd]. rewrite index_range_nil by lia.
    simpl. destruct (is_open data_file_out); repeat split.
  - destruct (Hrun i ltac:(cbn [fst snd]; lia)) as (entry & Hget & Hlen & Hchild).
    cbn [payload_loop]. rewrite Hget.
    destruct (@apply_by_entry_summary (data apply_data) entry data_file_out
                index_file_out offset (child_of env i) Hchild Hlen)
      as (r & -> & Hret & Hlines & Hnames & Hfopen & Hwait & Hreads & _).
    cbn [bind]. rewrite Hret. cbn [EXIT_SUCCESS Z.eqb negb].
    destruct (IH (i + 1) (ar_offset r)) as (tr & -> & Tl & Tn & Tf & Tw & Tr).
    { intros j Hj. apply Hrun. cbn [fst snd] in *. lia. }
    cbn [bind fst snd].
    exists (ar_trace r ++ tr). split; [reflexivity |].
    replace (i + 1 + Z.of_nat count) with (i + Z.of_nat (S count)) in * by lia.
    rewrite stdout_lines_app, inserted_names_app, fopen_calls_app, waited_app,
      read_results_app.
    rewrite Hlines, Hnames, Hfopen, Hwait, Tl, Tn, Tf, Tw.
    rewrite (@index_range_cons i (i + Z.of_nat (S count))) by lia.
    cbn [flat_map map app]. unfold entry_report at 2. rewrite Hget. cbv zeta.
    repeat split.
    + destruct (is_open data_file_out); [| reflexivity].
      unfold chunk_names, chunk_indices. cbn [fst snd].
      rewrite (@index_range_cons i (i + Z.of_nat (S count))) by lia.
      cbn [flat_map]. now rewrite Hget.
    + intros Hc. now rewrite (Hreads Hc), (Tr Hc).
Qed.

Lemma fclose_events_silent f :
  stdout_lines (fclose_events f) = [] /\ inserted_names (fclose_events f) = []
  /\ fopen_calls (fclose_events f) = [] /\ waited (fclose_events f) = []
  /\ read_results (fclose_events f) = [].
Proof. destruct f; repeat split. Qed.

(** The callback once its files are open. *)
Lemma payload_body_runs worker_splits_head first last opened :
  first <= last -> chunk_runs env apply_data (first, last) ->
  exists r,
    payload_body env worker_splits_head first last apply_data
      data_file_out index_file_out opened = Done r
    /\ pr_ret r = EXIT_SUCCESS
    /\ pr_splits r = {| ws_start := to_int first; ws_end := to_int last;
                        ws_status := EXIT_SUCCESS |} :: worker_splits_head
    /\ stdout_lines (pr_trace r)
       = stdout_lines opened
         ++ flat_map (entry_report env (index apply_data)) (index_range first last)
    /\ inserted_names (pr_trace r)
       = inserted_names opened
         ++ (if is_open data_file_out
             then chunk_names (index apply_data) (first, last) else [])
    /\ fopen_calls (pr_trace r) = fopen_calls opened
    /\ waited (pr_trace r)
       = waited opened
         ++ map (fun j => wait_status (child_of env j)) (index_range first last)
    /\ (is_open data_file_out = false ->
        read_results (pr_trace r) = read_results opened).
Proof.
  intros Hle Hrun. unfold payload_body.
  assert (first + Z.of_nat (Z.to_nat (last - first)) = last) as Hlast by lia.
  destruct (@payload_loop_runs (Z.to_nat (last - first)) first 0)
    as (tr & -> & Tl & Tn & Tf & Tw & Tr).
  { now rewrite Hlast. }
  rewrite Hlast in *.
  cbn [bind fst snd]. eexists. split; [reflexivity |].
  cbn [pr_ret pr_splits pr_trace].
  destruct (fclose_events_silent index_file_out) as (I1 & I2 & I3 & I4 & I5).
  destruct (fclose_events_silent data_file_out) as (D1 & D2 & D3 & D4 & D5).
  rewrite !stdout_lines_app, !inserted_names_app, !fopen_calls_app, !waited_app,
    !read_results_app.
  rewrite Tl, Tn, Tf, Tw, I1, I2, I3, I4, I5, D1, D2, D3, D4, D5, !app_nil_r.
  repeat split. intros Hc. now rewrite (Tr Hc), app_nil_r.
Qed.

End Payload.

(** ** Strings and shard names *)

Lemma string_app_nil_r (s : string) : (s ++ "")%string = s.
Proof. induction s as [| c s IH]; simpl; [reflexivity | now rewrite IH]. Qed.

Lemma string_app_assoc (a b c : string) : ((a ++ b) ++ c)%string = (a ++ b ++ c)%string.
Proof. induction a as [| x a IH]; simpl; [reflexivity | now rewrite IH]. Qed.

Lemma string_app_length (a b : string) :
  String.length (a ++ b) = (String.length a + String.length b)%nat.
Proof. induction a as [| x a IH]; simpl; [reflexivity | now rewrite IH]. Qed.

Lemma string_app_inv_head (s a b : string) : (s ++ a)%string = (s ++ b)%string -> a = b.
Proof.
  induction s as [| c s IH]; simpl; intros H; [exact H |].
  injection H as H. now apply IH.
Qed.

(** Two strings that have a common extension: one begins the other. *)
Lemma string_app_prefix (a b x y : string) :
  (a ++ x)%string = (b ++ y)%string -> prefix a b = true \/ prefix b a = true.
Proof.
  revert b. induction a as [| c a IH]; intros b H.
  - left. destruct b; reflexivity.
  - destruct b as [| d b]; [right; reflexivity |].
    simpl in H. injection H as Hc H. subst d.
    simpl. destruct (ascii_dec c c) as [_ | Hne]; [| congruence].
    apply IH. exact H.
Qed.

Lemma snprintf_fits size s :
  Z.of_nat (String.length s) < size -> snprintf size s = s.
Proof.
  intros H. unfold snprintf.
  assert (String.length s <= Z.to_nat (size - 1))%nat as Hn by lia.
  clear H. revert Hn. generalize (Z.to_nat (size - 1)) as n.
  induction s as [| c s IH]; intros n Hn.
  - destruct n; reflexivity.
  - destruct n as [| n]; simpl in *; [lia |]. f_equal. apply IH. lia.
Qed.

Lemma shard_name_suffix base s : shard_name base s = (base ++ shard_suffix s)%string.
Proof. destruct s; simpl; [now rewrite string_app_nil_r | reflexivity | reflexivity]. Qed.

Lemma step_suffix_differ src dst :
  step_of_run src dst -> shard_suffix src <> shard_suffix dst.
Proof.
  intros [(rank & first & last & -> & ->) | (rank & -> & ->)]; simpl.
  - intros H. injection H as H.
    rewrite <- (string_app_nil_r (decimal rank)) in H at 2.
    apply string_app_inv_head in H. discriminate H.
  - discriminate.
Qed.

Lemma step_suffix_shorter src dst :
  step_of_run src dst ->
  (String.length (shard_suffix dst) <= String.length (shard_suffix src))%nat.
Proof.
  intros [(rank & first & last & -> & ->) | (rank & -> & ->)]; simpl.
  - rewrite !string_app_length. lia.
  - lia.
Qed.

Section MergeNames.

Variables dat idx : string.
Variables src dst : shard_id.
Hypothesis step : step_of_run src dst.
Hypothesis fit : names_fit dat idx src.
Hypothesis dat_idx : prefix dat idx = false.
Hypothesis idx_dat : prefix idx dat = false.

Lemma shard_path_src base :
  base = dat \/ base = idx -> shard_path base src = shard_name base src.
Proof.
  intros [-> | ->]; unfold shard_path; apply snprintf_fits; apply fit.
Qed.

Lemma shard_path_dst base :
  base = dat \/ base = idx -> shard_path base dst = shard_name base dst.
Proof.
  intros Hb. unfold shard_path. apply snprintf_fits.
  pose proof (step_suffix_shorter step) as Hs.
  destruct fit as [Fd Fi].
  rewrite shard_name_suffix, string_app_length in *.
  destruct Hb as [-> | ->]; lia.
Qed.

(** No file of the source shard is a file of the destination. *)
Lemma src_dst_differ base base' :
  base = dat \/ base = idx -> base' = dat \/ base' = idx ->
  shard_path base src <> shard_path base' dst.
Proof.
  intros Hb Hb'. rewrite (shard_path_src Hb), (shard_path_dst Hb').
  rewrite !shard_name_suffix. intros H.
  assert (base = base' -> False) as Hsame.
  { intros <-. apply string_app_inv_head in H. now apply (step_suffix_differ step). }
  apply string_app_prefix in H.
  destruct Hb as [-> | ->], Hb' as [-> | ->]; try (now apply Hsame);
    destruct H as [H | H]; congruence.
Qed.

End MergeNames.

(** ** The merge loops *)

Lemma merge_one_removed system dat idx remove_temporary src dst :
  ms_removed (merge_one system dat idx remove_temporary src dst)
  = if (ms_exit_status (merge_one system dat idx remove_temporary src dst) =? 0)
       && negb (remove_temporary =? 0)
    then [shard_path idx src; shard_path dat src] else [].
Proof. reflexivity. Qed.

Lemma worker_merge_steps system dat idx rank remove_temporary splits m :
  In m (ffindex_worker_merge_splits system (Some dat) (Some idx) rank remove_temporary splits) ->
  exists src dst,
    step_of_run src dst /\ m = merge_one system dat idx remove_temporary src dst.
Proof.
  unfold ffindex_worker_merge_splits. rewrite in_map_iff.
  intros (entry & <- & _). eexists _, _. split; [| reflexivity].
  left. eexists _, _, _. split; reflexivity.
Qed.

Lemma coordinator_merge_steps system dat idx splits remove_temporary m :
  In m (ffindex_merge_splits system (Some dat) (Some idx) splits remove_temporary) ->
  exists src dst,
    step_of_run src dst /\ m = merge_one system dat idx remove_temporary src dst.
Proof.
  unfold ffindex_merge_splits. rewrite in_map_iff.
  intros (i & <- & _). eexists _, _. split; [| reflexivity].
  right. eexists. split; reflexivity.
Qed.

(** C5, the claim as written: a successful merge step never deletes its
    destination.  It fails for the output names [-d out.1.0 -i out]: for the
    chunk [0, 1) of worker 1 the index shard is [out.1.0.1], which is also
    the data file of the worker shard the step merges into, and the step
    removes it. *)
Lemma C5_counterexample :
  ffindex_worker_merge_splits (fun _ => 0) (Some "out.1.0"%string) (Some "out"%string) 1 1
    [{| ws_start := 0; ws_end := 1; ws_status := 0 |}]
  = [{| ms_src := ChunkShard 1 0 1; ms_dst := WorkerShard 1;
        ms_command := "ffindex_build -as -d out.1.0.1.0.1 -i out.1.0.1 out.1.0.1 out.1";
        ms_exit_status := 0;
        ms_removed := ["out.1.0.1"%string; "out.1.0.1.0.1"%string] |}]
  /\ shard_path "out.1.0" (WorkerShard 1) = "out.1.0.1"%string
  /\ In (shard_path "out.1.0" (WorkerShard 1))
        (ms_removed (merge_one (fun _ => 0) "out.1.0" "out" 1
                       (ChunkShard 1 0 1) (WorkerShard 1))).
Proof. split; [reflexivity |]. split; [reflexivity |]. left. reflexivity. Qed.

(** C5, amended: for every step of the two merge loops as [main] calls them
    (with [remove_temporary = 1]), when the names of the step fit
    [FILENAME_MAX] and neither output base name begins the other: if the
    merge command succeeds the step removes exactly the index file and the
    data file of the shard it merged and no file of the destination; if the
    command fails it removes nothing. *)
Theorem C5_merge_cleanup system dat idx rank splits MPQ_size m :
  In m (ffindex_worker_merge_splits system (Some dat) (Some idx) rank 1 splits)
  \/ In m (ffindex_merge_splits system (Some dat) (Some idx) MPQ_size 1) ->
  names_fit dat idx (ms_src m) ->
  prefix dat idx = false -> prefix idx dat = false ->
  (ms_exit_status m = 0 ->
   ms_removed m = [shard_path idx (ms_src m); shard_path dat (ms_src m)]
   /\ ~ In (shard_path dat (ms_dst m)) (ms_removed m)
   /\ ~ In (shard_path idx (ms_dst m)) (ms_removed m))
  /\ (ms_exit_status m <> 0 -> ms_removed m = []).
Proof.
  intros Hin Hfit Hdi Hid.
  assert (exists src dst, step_of_run src dst /\ m = merge_one system dat idx 1 src dst)
    as (src & dst & Hstep & ->).
  { destruct Hin as [Hin | Hin];
      [eapply worker_merge_steps | eapply coordinator_merge_steps]; exact Hin. }
  rewrite merge_one_removed. cbn [ms_src ms_dst] in *. split.
  - intros ->. cbn [Z.eqb negb andb]. split; [reflexivity |].
    split; intros [H | [H | []]]; revert H;
      apply (src_dst_differ Hstep Hfit Hdi Hid); auto.
  - intros Hne. destruct (Z.eqb_spec (ms_exit_status (merge_one system dat idx 1 src dst)) 0);
      [contradiction | reflexivity].
Qed.

(** The usual output names: [out.ffdata] and [out.ffindex]. *)
Lemma C5_merge_cleanup_witness :
  ms_removed (merge_one (fun _ => 0) "out.ffdata" "out.ffindex" 1
                (ChunkShard 1 0 3) (WorkerShard 1))
  = ["out.ffindex.1.0.3"%string; "out.ffdata.1.0.3"%string]
  /\ ~ In "out.ffdata.1"%string
         (ms_removed (merge_one (fun _ => 0) "out.ffdata" "out.ffindex" 1
                        (ChunkShard 1 0 3) (WorkerShard 1)))
  /\ ~ In "out.ffindex.1"%string
         (ms_removed (merge_one (fun _ => 0) "out.ffdata" "out.ffindex" 1
                        (ChunkShard 1 0 3) (WorkerShard 1))).
Proof.
  refine (proj1 (@C5_merge_cleanup (fun _ => 0) "out.ffdata" "out.ffindex" 1
                   [{| ws_start := 0; ws_end := 3; ws_status := 0 |}] 2 _ _ _ _ _) _).
  - left. left. reflexivity.
  - split; vm_compute; reflexivity.
  - reflexivity.
  - reflexivity.
  - reflexivity.
Defined.

(** ** Archives *)

Lemma shard_id_eqb_eq a b : shard_id_eqb a b = true <-> a = b.
Proof.
  destruct a, b; simpl; split; intros H;
    try discriminate H; try reflexivity;
    try (rewrite !andb_true_iff, !Z.eqb_eq in H; destruct H as [[-> ->] ->]; reflexivity);
    try (apply Z.eqb_eq in H; subst; reflexivity);
    try (injection H as -> -> ->; now rewrite !Z.eqb_refl);
    try (injection H as ->; now rewrite Z.eqb_refl).
Qed.

Lemma store_same a s names : store a s names s = names.
Proof.
  unfold store. now rewrite (proj2 (shard_id_eqb_eq s s) eq_refl).
Qed.

Lemma store_other a s names s' : s' <> s -> store a s names s' = a s'.
Proof.
  intros H. unfold store. destruct (shard_id_eqb s' s) eqn:E; [| reflexivity].
  apply shard_id_eqb_eq in E. contradiction.
Qed.

Lemma flat_map_agree (A B : Type) (f g : A -> list B) l :
  (forall x, In x l -> f x = g x) -> flat_map f l = flat_map g l.
Proof.
  induction l as [| x l IH]; intros H; simpl; [reflexivity |].
  rewrite (H x (or_introl eq_refl)), IH; [reflexivity |].
  intros y Hy. apply H. now right.
Qed.

(** Successful merges of distinct shards into one destination append
    them in the order of the steps. *)
Lemma merges_fold system dat idx dst : forall srcs a,
  (forall command, system command = 0) ->
  NoDup srcs -> ~ In dst srcs ->
  let a' := fold_left apply_merge
              (map (fun s => merge_one system dat idx 1 s dst) srcs) a in
  a' dst = a dst ++ flat_map a srcs
  /\ (forall s, s <> dst -> ~ In s srcs -> a' s = a s).
Proof.
  induction srcs as [| s srcs IH]; intros a Hsys Hnd Hdst; cbv zeta.
  - simpl. split; [now rewrite app_nil_r | reflexivity].
  - cbn [map fold_left].
    inversion Hnd as [| ? ? Hs Hnd']; subst.
    assert (s <> dst) as Hsd by (intros ->; apply Hdst; now left).
    set (a1 := apply_merge a (merge_one system dat idx 1 s dst)).
    assert (a1 dst = a dst ++ a s) as H1.
    { subst a1. unfold apply_merge, merge_one. cbn [ms_exit_status ms_removed ms_dst ms_src].
      rewrite Hsys. cbn. rewrite store_other by congruence. apply store_same. }
    assert (forall s', s' <> dst -> s' <> s -> a1 s' = a s') as H2.
    { intros s' Hd Hs'. subst a1. unfold apply_merge, merge_one.
      cbn [ms_exit_status ms_removed ms_dst ms_src].
      rewrite Hsys. cbn. now rewrite !store_other by assumption. }
    destruct (IH a1 Hsys Hnd' ltac:(intros Hin; apply Hdst; now right)) as [I1 I2].
    split.
    + rewrite I1, H1. cbn [flat_map]. rewrite <- app_assoc. do 2 f_equal.
      apply flat_map_agree. intros x Hx. apply H2.
      * intros ->. apply Hdst. now right.
      * intros ->. contradiction.
    + intros s' Hd Hn. rewrite I2.
      * apply H2; [exact Hd |]. intros ->. apply Hn. now left.
      * exact Hd.
      * intros Hin. apply Hn. now right.
Qed.

(** ** The run as a whole *)

Section Worker.

Variable system : string -> Z.
Variable env : worker_env.
Variable apply_data : ffindex_apply_mpi_data.
Variables dat idx : string.
Hypothesis data_out : data_filename_out apply_data = Some dat.
Hypothesis index_out : index_filename_out apply_data = Some idx.
Hypothesis system_ok : forall command, system command = 0.
Hypothesis fopen_always : forall path, fopen_ok env path = true.

Let rank := MPQ_rank env.
Let chunk_shard (c : chunk) : shard_id := ChunkShard rank (fst c) (snd c).

(** The callback with both output files: the record of the chunk is put at
    the head of the list and the shard holds the names of the chunk. *)
Lemma payload_capture worker_splits_head c :
  fst c <= snd c -> chunk_runs env apply_data c ->
  exists r,
    ffindex_apply_worker_payload env worker_splits_head (fst c) (snd c) apply_data = Done r
    /\ pr_ret r = EXIT_SUCCESS
    /\ pr_splits r = split_of c :: worker_splits_head
    /\ inserted_names (pr_trace r) = chunk_names (index apply_data) c.
Proof.
  intros Hle Hrun. unfold ffindex_apply_worker_payload.
  rewrite data_out, index_out, !fopen_always.
  destruct c as [first last]. cbn [fst snd] in *.
  destruct (@payload_body_runs env apply_data
              (Some (shard_path dat (ChunkShard (MPQ_rank env) first last)))
              (Some (shard_path idx (ChunkShard (MPQ_rank env) first last)))
              worker_splits_head first last
              [EvFopen (shard_path dat (ChunkShard (MPQ_rank env) first last)) true;
               EvFopen (shard_path idx (ChunkShard (MPQ_rank env) first last)) true]
              Hle Hrun)
    as (r & -> & Hret & Hsplits & _ & Hnames & _).
  exists r. repeat split; assumption.
Qed.

Lemma worker_chunks_run : forall assigned worker_splits_head a,
  (forall c, In c assigned -> fst c <= snd c /\ chunk_runs env apply_data c) ->
  exists a',
    worker_chunks env apply_data assigned worker_splits_head a
    = Done (rev (map split_of assigned) ++ worker_splits_head, a')
    /\ (forall c, In c assigned -> a' (chunk_shard c) = chunk_names (index apply_data) c)
    /\ (forall s, (forall c, In c assigned -> s <> chunk_shard c) -> a' s = a s).
Proof.
  induction assigned as [| c assigned IH]; intros worker_splits_head a Hall.
  - exists a. repeat split. intros c [].
  - cbn [worker_chunks].
    destruct (Hall c (or_introl eq_refl)) as [Hle Hrun].
    destruct (payload_capture worker_splits_head Hle Hrun) as (r & -> & _ & Hsplits & Hnames).
    cbn [bind]. rewrite Hsplits, Hnames.
    destruct (IH (split_of c :: worker_splits_head)
                (store a (ChunkShard (MPQ_rank env) (fst c) (snd c))
                   (chunk_names (index apply_data) c)))
      as (a' & -> & Hin & Hout).
    { intros c' Hc'. apply Hall. now right. }
    exists a'. split; [| split].
    + cbn [map rev]. now rewrite <- app_assoc.
    + intros c' [<- | Hc']; [| now apply Hin].
      destruct (in_dec (fun x y : chunk =>
                          ltac:(decide equality; apply Z.eq_dec) : {x = y} + {x <> y})
                  c assigned) as [Hyes | Hno].
      * now apply Hin.
      * rewrite Hout; [apply store_same |].
        intros c' Hc' Heq. apply Hno.
        unfold chunk_shard in Heq. injection Heq as H1 H2.
        destruct c, c'. cbn [fst snd] in *. now subst.
    + intros s Hs. rewrite Hout.
      * apply store_other. apply Hs. now left.
      * intros c' Hc'. apply Hs. now right.
Qed.

Lemma chunk_shard_inj c c' : chunk_shard c = chunk_shard c' -> c = c'.
Proof.
  unfold chunk_shard. intros H. injection H as H1 H2.
  destruct c, c'. cbn [fst snd] in *. now subst.
Qed.

(** A worker leaves in its shard the chunks it finished, last one first. *)
Lemma worker_process_run assigned a :
  NoDup assigned ->
  (forall c, In c assigned ->
     0 <= fst c <= snd c /\ snd c <= INT_MAX /\ chunk_runs env apply_data c) ->
  exists a',
    worker_process system env apply_data assigned a = Done a'
    /\ a' (WorkerShard rank)
       = a (WorkerShard rank) ++ flat_map (chunk_names (index apply_data)) (rev assigned)
    /\ (forall s, shard_rank s <> Some rank -> a' s = a s).
Proof.
  intros Hnd Hall. unfold worker_process.
  destruct (@worker_chunks_run assigned [] a) as (a1 & -> & Hin & Hout).
  { intros c Hc. destruct (Hall c Hc) as (? & ? & ?). split; [lia | assumption]. }
  cbn [bind fst snd]. rewrite app_nil_r, data_out, index_out.
  unfold ffindex_worker_merge_splits.
  assert (map (fun entry =>
                 merge_one system dat idx 1
                   (ChunkShard (MPQ_rank env) (ws_start entry) (ws_end entry))
                   (WorkerShard (MPQ_rank env)))
              (rev (map split_of assigned))
          = map (fun s => merge_one system dat idx 1 s (WorkerShard rank))
              (map chunk_shard (rev assigned))) as ->.
  { rewrite <- map_rev, !map_map. apply map_ext_in. intros c Hc.
    apply in_rev in Hc. destruct (Hall c Hc) as (H1 & H2 & _).
    unfold split_of, chunk_shard. cbn [ws_start ws_end].
    rewrite !to_int_small by range_lia. reflexivity. }
  destruct (@merges_fold system dat idx (WorkerShard rank)
              (map chunk_shard (rev assigned)) a1 system_ok) as [M1 M2].
  { apply Injective_map_NoDup; [intros x y; apply chunk_shard_inj |].
    now apply NoDup_rev. }
  { rewrite in_map_iff. intros (c & Hc & _). discriminate Hc. }
  eexists. split; [reflexivity |]. split.
  - rewrite M1. rewrite Hout by (intros c _; discriminate). f_equal.
    rewrite flat_map_concat_map, map_map, <- flat_map_concat_map.
    apply flat_map_agree. intros c Hc. apply Hin. now apply in_rev.
  - intros s Hs. rewrite M2.
    + apply Hout. intros c _ ->. apply Hs. reflexivity.
    + intros ->. apply Hs. reflexivity.
    + rewrite in_map_iff. intros (c & <- & _). apply Hs. reflexivity.
Qed.

End Worker.

Lemma index_range_NoDup s e : NoDup (index_range s e).
Proof.
  unfold index_range. apply Injective_map_NoDup; [| apply seq_NoDup].
  intros x y H. lia.
Qed.

Section Run.

Variable system : string -> Z.
Variable fopen : string -> bool.
Variable children : Z -> Z -> child.
Variable apply_data : ffindex_apply_mpi_data.
Variable assignment : Z -> list chunk.
Variable MPQ_size : Z.
Hypothesis good : good_run system fopen children apply_data assignment MPQ_size.

Let names_of (rank : Z) : list string :=
  flat_map (chunk_names (index apply_data)) (rev (assignment rank)).

Lemma run_workers_run : forall ranks a,
  NoDup ranks -> (forall rank, In rank ranks -> 1 <= rank < MPQ_size) ->
  exists a',
    run_workers system fopen children apply_data assignment ranks a = Done a'
    /\ (forall rank, In rank ranks ->
          a' (WorkerShard rank) = a (WorkerShard rank) ++ names_of rank)
    /\ (forall s, (forall rank, In rank ranks -> shard_rank s <> Some rank) -> a' s = a s).
Proof.
  destruct good as ((dat & idx & Hdat & Hidx) & Hsys & Hfopen & Hworkers).
  induction ranks as [| rank ranks IH]; intros a Hnd Hrange.
  - exists a. repeat split. intros rank [].
  - cbn [run_workers].
    inversion Hnd as [| ? ? Hnotin Hnd']; subst.
    destruct (Hworkers rank (Hrange rank (or_introl eq_refl))) as [Hnodup Hchunks].
    destruct (@worker_process_run system
                {| MPQ_rank := rank; fopen_ok := fopen; child_of := children rank |}
                apply_data dat idx Hdat Hidx Hsys Hfopen (assignment rank) a
                Hnodup Hchunks)
      as (a1 & -> & W1 & W2).
    cbn [bind MPQ_rank] in *.
    destruct (IH a1 Hnd' ltac:(intros r Hr; apply Hrange; now right))
      as (a' & -> & R1 & R2).
    exists a'. split; [reflexivity |]. split.
    + intros r [<- | Hr].
      * rewrite R2; [exact W1 |].
        intros r Hr H. injection H as <-. contradiction.
      * rewrite (R1 r Hr). f_equal. apply W2.
        intros H. injection H as <-. contradiction.
    + intros s Hs. rewrite R2.
      * apply W2. apply Hs. now left.
      * intros r Hr. apply Hs. now right.
Qed.

(** The final archive of a good run. *)
Lemma run_final :
  final_archive (run system fopen children apply_data assignment MPQ_size)
  = Some (flat_map names_of (index_range 1 MPQ_size)).
Proof.
  unfold run.
  destruct (@run_workers_run (index_range 1 MPQ_size) (fun _ => []))
    as (a1 & -> & R1 & R2).
  { apply index_range_NoDup. }
  { intros rank Hr. now apply in_index_range in Hr. }
  cbn [bind].
  destruct good as ((dat & idx & -> & ->) & Hsys & _).
  unfold ffindex_merge_splits.
  rewrite <- (map_map WorkerShard (fun s => merge_one system dat idx 1 s FinalArchive)).
  destruct (@merges_fold system dat idx FinalArchive
              (map WorkerShard (index_range 1 MPQ_size)) a1 Hsys) as [M1 _].
  { apply Injective_map_NoDup; [| apply index_range_NoDup].
    intros x y H. now injection H. }
  { rewrite in_map_iff. intros (r & Hr & _). discriminate Hr. }
  cbn [final_archive]. rewrite M1.
  rewrite R2 by (intros rank _; discriminate). cbn [app]. f_equal.
  rewrite flat_map_concat_map, map_map, <- flat_map_concat_map.
  apply flat_map_agree. intros rank Hr. now rewrite (R1 rank Hr).
Qed.

End Run.

(** ** The example inputs satisfy the assumptions *)

Lemma child_reading_all_runs out status :
  Z.of_nat (List.length out) <= READ_BUFFER_SIZE -> runs (child_reading_all out status).
Proof.
  intros H. unfold runs, pipe_like. cbn. repeat split; try assumption.
  - intros k c Hc. injection Hc as <-. unfold PIPE_BUF. lia.
  - intros k Hk. discriminate Hk.
Qed.

Lemma child_reading_all_reads out status : reads_all_input (child_reading_all out status).
Proof. intros k. exists PIPE_BUF. split; [reflexivity | unfold PIPE_BUF; lia]. Qed.

Lemma child_reading_all_read out status : reads_succeed (child_reading_all out status).
Proof. intros k. exists PIPE_BUF. reflexivity. Qed.

Lemma example_chunk_runs rank out status dfo ifo first last :
  Z.of_nat (List.length out) <= READ_BUFFER_SIZE ->
  0 <= first -> last <= 2 ->
  chunk_runs (example_env rank out status) (example_apply_data dfo ifo) (first, last).
Proof.
  intros Hout Hf Hl j Hj. cbn [fst snd] in Hj.
  assert (j = 0 \/ j = 1) as [-> | ->] by lia.
  - eexists. split; [reflexivity |]. split; [cbn; unfold SSIZE_MAX; lia |].
    now apply child_reading_all_runs.
  - eexists. split; [reflexivity |]. split; [cbn; unfold SSIZE_MAX; lia |].
    now apply child_reading_all_runs.
Qed.

(** ** The claims *)

(** C2: for an entry lying within the data, run with a child that reads all
    of its input and whose output is read without error, the parent runs
    the setup, then rounds of one [write] of at most [PIPE_BUF] bytes each,
    followed by one [read] in non-blocking mode when the output is captured;
    the rounds hand over exactly the first [length - 1] bytes of the entry;
    then the parent closes the input pipe and, when the output is captured,
    puts the output pipe back in blocking mode, reads up to the end of file
    and appends everything the child wrote. *)
Theorem C2_pipe_runner data entry data_file_out index_file_out offset w :
  entry_ok data entry -> runs w -> reads_all_input w -> reads_succeed w ->
  exists rounds reads,
    ffindex_apply_by_entry data entry data_file_out index_file_out offset w
    = Done {| ar_ret := EXIT_SUCCESS;
              ar_offset := (if is_open data_file_out
                            then ffindex_insert_memory offset (child_stdout w)
                            else offset);
              ar_trace :=
                runner_setup (is_open data_file_out)
                ++ flat_map (write_round (is_open data_file_out)) rounds
                ++ [EvClose StdinWrite]
                ++ (if is_open data_file_out
                    then capture_tail data_file_out index_file_out offset
                           (entry_name entry)
                           (map (EvRead false) reads ++ [EvRead false 0])
                           (child_stdout w)
                    else [])
                ++ runner_report entry (wait_status w) |}
    /\ Forall round_ok rounds
    /\ Forall (fun r => 0 < r <= PIPE_BUF) reads
    /\ stdin_bytes (ffindex_get_data_by_entry data entry)
         (flat_map (write_round (is_open data_file_out)) rounds)
       = firstn (Z.to_nat (entry_length entry - 1)) (ffindex_get_data_by_entry data entry)
    /\ Z.of_nat (List.length
                   (stdin_bytes (ffindex_get_data_by_entry data entry)
                      (flat_map (write_round (is_open data_file_out)) rounds)))
       = entry_length entry - 1.
Proof.
  intros (Hlen & Hoff & Hin) Hruns Hwrites Hreads.
  destruct (@apply_by_entry_all_ok data entry data_file_out index_file_out offset w
              Hruns Hwrites Hreads Hlen) as (rounds & reads & Heq & Hok & Hpos & Hbytes).
  exists rounds, reads. repeat split; try assumption.
  rewrite Hbytes, length_firstn. unfold ffindex_get_data_by_entry.
  rewrite length_skipn. lia.
Qed.

(** The entry ["hello"] through a child that reads it all and writes
    ["hello"]. *)
Lemma C2_pipe_runner_witness :
  exists r,
    ffindex_apply_by_entry example_data example_entry
      (Some "out.ffdata.1.0.2"%string) (Some "out.ffindex.1.0.2"%string) 0
      (child_reading_all (list_byte_of_string "hello") 0) = Done r
    /\ ar_ret r = EXIT_SUCCESS.
Proof.
  destruct (@C2_pipe_runner example_data example_entry
              (Some "out.ffdata.1.0.2"%string) (Some "out.ffindex.1.0.2"%string) 0
              (child_reading_all (list_byte_of_string "hello") 0))
    as (rounds & reads & H & _).
  - unfold entry_ok, SSIZE_MAX. cbn. lia.
  - apply child_reading_all_runs. vm_compute. discriminate.
  - apply child_reading_all_reads.
  - apply child_reading_all_read.
  - eexists. split; [exact H | reflexivity].
Defined.

(** The order of the merge commands of a worker: the list of finished
    chunks from its head on. *)
Lemma worker_merge_order system dat idx rank splits :
  map ms_src (ffindex_worker_merge_splits system (Some dat) (Some idx) rank 1 splits)
  = map (fun entry => ChunkShard rank (ws_start entry) (ws_end entry)) splits.
Proof. unfold ffindex_worker_merge_splits. rewrite map_map. reflexivity. Qed.

(** The order of the merge commands of the coordinator: ranks in
    increasing order. *)
Lemma coordinator_merge_order system dat idx MPQ_size :
  map ms_src (ffindex_merge_splits system (Some dat) (Some idx) MPQ_size 1)
  = map WorkerShard (index_range 1 MPQ_size).
Proof. unfold ffindex_merge_splits. rewrite map_map. reflexivity. Qed.

(** C3, the claim as written: the final archive lists the chunks of each
    worker in ascending chunk-start order.  It fails with one worker that
    is handed the chunks [0, 1) and [1, 2) in this order: the callback puts
    each finished chunk at the head of the list, the merge loop starts at
    the head, and the final archive lists ["b"] before ["a"]. *)
Lemma C3_counterexample :
  final_archive
    (run (fun _ => 0) (fun _ => true)
       (fun _ _ => child_reading_all (list_byte_of_string "x") 0)
       (example_apply_data (Some "out.ffdata"%string) (Some "out.ffindex"%string))
       (fun _ => [(0, 1); (1, 2)]) 2)
  = Some ["b"%string; "a"%string]
  /\ flat_map (chunk_names example_index) [(0, 1); (1, 2)] = ["a"%string; "b"%string]
  /\ map ms_src
       (ffindex_worker_merge_splits (fun _ => 0) (Some "out.ffdata"%string)
          (Some "out.ffindex"%string) 1 1 [split_of (1, 2); split_of (0, 1)])
     = [ChunkShard 1 1 2; ChunkShard 1 0 1].
Proof. repeat split; vm_compute; reflexivity. Qed.

(** C3, amended: in a run where the output is captured and every merge
    succeeds, each worker merges its chunk shards in the reverse of the
    order in which it finished them, the coordinator merges the worker
    shards in ascending rank order, and the final archive lists, for rank
    [1] to [MPQ_size - 1], the chunks of the worker from the last finished
    to the first, the entries of each chunk in index order. *)
Theorem C3_merge_order system fopen children apply_data assignment MPQ_size :
  good_run system fopen children apply_data assignment MPQ_size ->
  final_archive (run system fopen children apply_data assignment MPQ_size)
  = Some (flat_map
            (fun rank => flat_map (chunk_names (index apply_data)) (rev (assignment rank)))
            (index_range 1 MPQ_size)).
Proof. intros Hgood. now apply run_final. Qed.

(** One worker and the chunks [0, 1) and [1, 2). *)
Lemma C3_merge_order_witness :
  final_archive
    (run (fun _ => 0) (fun _ => true)
       (fun _ _ => child_reading_all (list_byte_of_string "x") 0)
       (example_apply_data (Some "out.ffdata"%string) (Some "out.ffindex"%string))
       (fun _ => [(0, 1); (1, 2)]) 2)
  = Some (flat_map
            (fun rank => flat_map (chunk_names example_index) (rev [(0, 1); (1, 2)]))
            (index_range 1 2)).
Proof.
  apply (@C3_merge_order (fun _ => 0) (fun _ => true)
           (fun _ _ => child_reading_all (list_byte_of_string "x") 0)
           (example_apply_data (Some "out.ffdata"%string) (Some "out.ffindex"%string))
           (fun _ => [(0, 1); (1, 2)]) 2).
  split; [eexists _, _; split; reflexivity |].
  split; [reflexivity |]. split; [reflexivity |].
  intros rank Hrank. split.
  - repeat constructor; simpl; intuition congruence.
  - intros c [<- | [<- | []]]; cbn [fst snd]; (split; [lia |]);
      (split; [unfold INT_MAX; lia |]);
      apply (@example_chunk_runs rank (list_byte_of_string "x") 0); vm_compute; congruence.
Defined.

(** C4, at a failing input: an entry with a payload of [PIPE_BUF + 1] bytes
    and a child that closes its standard input after the first [write].  The
    second [write] fails with [EPIPE]; the loop then adds [-1] to [written]
    and goes on: it calls [write] again at the positions [4095], [4094],
    ... down to [0], 4097 failing calls in all, before it leaves the loop
    and the runner returns success. *)
Theorem C4_epipe_retries :
  exists r,
    ffindex_apply_by_entry long_data long_entry None None 0 child_closing_early = Done r
    /\ ar_ret r = EXIT_SUCCESS
    /\ List.length (failed_writes (ar_trace r)) = 4097%nat
    /\ firstn 3 (failed_writes (ar_trace r)) = [4096; 4095; 4094]
    /\ waited (ar_trace r) = [0].
Proof. eexists. split; [vm_compute; reflexivity |]. repeat split; vm_compute; reflexivity. Qed.

(** After a [write] that failed with [EPIPE] at [written = k > 0] the next
    round of the loop is another [write], at position [k - 1]. *)
Lemma write_loop_retries_after_epipe fuel w name to_write st :
  0 < ps_written st < to_write -> to_write <= SSIZE_MAX ->
  write_at w (ps_nwrites st) = WriteErr EPIPE ->
  write_loop (S fuel) w name false to_write st
  = more <- write_loop fuel w name false to_write (after_write st (ps_written st - 1)) ;;
    Done (EvWrite (ps_written st) (batch_of to_write (ps_written st)) (-1) :: fst more,
          snd more).
Proof.
  intros Hwr Hmax Hw.
  rewrite write_loop_step
    by (rewrite to_size_t_small by range_lia; lia).
  cbv zeta. unfold sys_write. rewrite Hw. cbn [Z.ltb Z.compare Z.eqb EPIPE Pos.eqb negb andb].
  rewrite ssize_result_small by range_lia.
  reflexivity.
Qed.

(** C6, the claim as written: one line for every processed entry.  It
    fails for a child that is killed by a signal (wait status 9): the runner
    returns success and prints nothing. *)
Lemma C6_counterexample :
  exists r,
    ffindex_apply_by_entry example_data example_entry None None 0
      (child_reading_all [] 9) = Done r
    /\ ar_ret r = EXIT_SUCCESS
    /\ waited (ar_trace r) = [9]
    /\ stdout_lines (ar_trace r) = [].
Proof. eexists. split; [vm_compute; reflexivity |]. repeat split. Qed.

(** C6, amended: for every entry of a chunk whose children run, the runner
    returns success whatever the status of the child, and prints the line
    [name TAB offset TAB length TAB exit status] when the child exited
    ([WIFEXITED]) and nothing otherwise; the loop of the callback goes
    through all the entries of the chunk. *)
Theorem C6_progress_report env apply_data data_file_out index_file_out first last offset :
  first <= last -> chunk_runs env apply_data (first, last) ->
  (forall j entry offset',
     first <= j < last ->
     ffindex_get_entry_by_index (index apply_data) j = Some entry ->
     exists r,
       ffindex_apply_by_entry (data apply_data) entry data_file_out index_file_out
         offset' (child_of env j) = Done r
       /\ ar_ret r = EXIT_SUCCESS
       /\ stdout_lines (ar_trace r)
          = (if WIFEXITED (wait_status (child_of env j))
             then [progress_line entry (wait_status (child_of env j))] else []))
  /\ exists tr,
       payload_loop env apply_data data_file_out index_file_out
         (Z.to_nat (last - first)) first offset = Done (EXIT_SUCCESS, tr)
       /\ waited tr = map (fun j => wait_status (child_of env j)) (index_range first last)
       /\ stdout_lines tr
          = flat_map (entry_report env (index apply_data)) (index_range first last).
Proof.
  intros Hle Hrun. split.
  - intros j entry offset' Hj Hget.
    destruct (Hrun j Hj) as (entry' & Hget' & Hlen & Hchild).
    assert (entry' = entry) as -> by congruence.
    destruct (@apply_by_entry_summary (data apply_data) entry data_file_out
                index_file_out offset' (child_of env j) Hchild Hlen)
      as (r & Hr & Hret & Hlines & _).
    exists r. repeat split; assumption.
  - assert (first + Z.of_nat (Z.to_nat (last - first)) = last) as Hlast by lia.
    destruct (@payload_loop_runs env apply_data data_file_out index_file_out
                (Z.to_nat (last - first)) first offset)
      as (tr & Htr & Tl & _ & _ & Tw & _).
    { now rewrite Hlast. }
    rewrite Hlast in *. exists tr. repeat split; assumption.
Qed.

(** Two entries whose children exit with status 1 (wait status 256): both
    are reported. *)
Lemma C6_progress_report_witness :
  exists tr,
    payload_loop (example_env 1 [] 256) (example_apply_data None None) None None
      (Z.to_nat (2 - 0)) 0 0 = Done (EXIT_SUCCESS, tr)
    /\ stdout_lines tr
       = [("a" ++ TAB ++ "0" ++ TAB ++ "6" ++ TAB ++ "1" ++ NEWLINE)%string;
          ("b" ++ TAB ++ "6" ++ TAB ++ "3" ++ TAB ++ "1" ++ NEWLINE)%string].
Proof.
  destruct (@C6_progress_report (example_env 1 [] 256) (example_apply_data None None)
              None None 0 2 0) as (_ & tr & Htr & _ & Hlines).
  - lia.
  - apply example_chunk_runs; [vm_compute; discriminate | lia | lia].
  - exists tr. split; [exact Htr |]. rewrite Hlines. reflexivity.
Defined.

(** C7, at failing inputs: [parts] is [10] without [-p]; with [-p5] it is
    the low 32 bits of the address of the argument, not [5]; with [-p 5] the
    argument of the option is [NULL], [parts] is [0] and the planner
    divides by zero. *)
Theorem C7_parts_option :
  parts (main_options []) = 10
  /\ parts (main_options [("p"%char, Some example_optarg)]) = -272632813
  /\ parts (main_options [("p"%char, Some example_optarg)]) <> 5
  /\ parts (main_options [("p"%char, None)]) = 0
  /\ main_chunk_size 25 3 (parts (main_options [("p"%char, None)]))
     = Undefined DivisionByZero.
Proof. repeat split; try (vm_compute; reflexivity). vm_compute. discriminate. Qed.

(** The error branch of the loop of the callback: with no entry at index
    [i] the loop evaluates [entry->name]. *)
Lemma payload_loop_missing_entry env apply_data data_file_out index_file_out count i offset :
  ffindex_get_entry_by_index (index apply_data) i = None ->
  payload_loop env apply_data data_file_out index_file_out (S count) i offset
  = Undefined NullDereference.
Proof. intros H. cbn [payload_loop]. now rewrite H. Qed.

(** C8, at a failing input: an index of two entries and the chunk [1, 3).
    The entry at index [1] is processed; the fetch at index [2] fails and
    the callback dereferences the null pointer. *)
Theorem C8_missing_entry :
  ffindex_get_entry_by_index example_index 2 = None
  /\ ffindex_apply_worker_payload (example_env 1 [] 0) [] 1 3
       (example_apply_data None None)
     = Undefined NullDereference.
Proof. split; vm_compute; reflexivity. Qed.

(** C9, the claim as written: without [-d] and [-i] the progress stream
    still has one line per processed entry.  It fails for children killed
    by a signal (wait status 9): the two entries of the chunk are processed
    and nothing is printed. *)
Lemma C9_counterexample :
  exists r,
    ffindex_apply_worker_payload (example_env 1 [] 9) [] 0 2
      (example_apply_data None None) = Done r
    /\ pr_ret r = EXIT_SUCCESS
    /\ waited (pr_trace r) = [9; 9]
    /\ stdout_lines (pr_trace r) = [].
Proof. eexists. split; [vm_compute; reflexivity |]. repeat split. Qed.

(** C9, amended: without [-d] and [-i] the callback opens no file, reads
    nothing from its children and appends nothing, the two merge loops run
    no command and remove no file, and the progress stream has one line for
    every entry of the chunk whose child exited ([WIFEXITED]). *)
Theorem C9_capture_disabled system env apply_data worker_splits_head first last
  rank splits remove_temporary :
  data_filename_out apply_data = None -> index_filename_out apply_data = None ->
  first <= last -> chunk_runs env apply_data (first, last) ->
  (exists r,
     ffindex_apply_worker_payload env worker_splits_head first last apply_data = Done r
     /\ pr_ret r = EXIT_SUCCESS
     /\ fopen_calls (pr_trace r) = []
     /\ read_results (pr_trace r) = []
     /\ inserted_names (pr_trace r) = []
     /\ waited (pr_trace r)
        = map (fun j => wait_status (child_of env j)) (index_range first last)
     /\ stdout_lines (pr_trace r)
        = flat_map (entry_report env (index apply_data)) (index_range first last))
  /\ ffindex_worker_merge_splits system (data_filename_out apply_data)
       (index_filename_out apply_data) rank remove_temporary worker_splits_head = []
  /\ ffindex_merge_splits system (data_filename_out apply_data)
       (index_filename_out apply_data) splits remove_temporary = [].
Proof.
  intros Hd Hi Hle Hrun. rewrite Hd, Hi. split; [| split; reflexivity].
  unfold ffindex_apply_worker_payload. rewrite Hd, Hi.
  destruct (@payload_body_runs env apply_data None None worker_splits_head first last []
              Hle Hrun)
    as (r & -> & Hret & _ & Hlines & Hnames & Hfopen & Hwait & Hreads).
  exists r. repeat split; try assumption. now apply Hreads.
Qed.

(** Two entries, no output file. *)
Lemma C9_capture_disabled_witness :
  exists r,
    ffindex_apply_worker_payload (example_env 1 [] 0) [] 0 2
      (example_apply_data None None) = Done r
    /\ fopen_calls (pr_trace r) = []
    /\ stdout_lines (pr_trace r)
       = [("a" ++ TAB ++ "0" ++ TAB ++ "6" ++ TAB ++ "0" ++ NEWLINE)%string;
          ("b" ++ TAB ++ "6" ++ TAB ++ "3" ++ TAB ++ "0" ++ NEWLINE)%string].
Proof.
  destruct (@C9_capture_disabled (fun _ => 0) (example_env 1 [] 0)
              (example_apply_data None None) [] 0 2 1 2 1)
    as ((r & Hr & _ & Hfopen & _ & _ & _ & Hlines) & _).
  - reflexivity.
  - reflexivity.
  - lia.
  - apply example_chunk_runs; [vm_compute; discriminate | lia | lia].
  - exists r. split; [exact Hr |]. split; [exact Hfopen |]. rewrite Hlines. reflexivity.
Defined.

(** C10: the runner captures the output of the child, and appends it,
    exactly when the data output file is there, whatever the index output
    file; with [-i] alone the callback creates the index shard of the chunk,
    reads nothing from the children and appends nothing, and the two merge
    loops run no command and remove no file, so that the shard stays. *)
Theorem C10_capture_follows_data_file system env apply_data worker_splits_head
  first last idx rank splits remove_temporary :
  data_filename_out apply_data = None -> index_filename_out apply_data = Some idx ->
  fopen_ok env (shard_path idx (ChunkShard (MPQ_rank env) first last)) = true ->
  first <= last -> chunk_runs env apply_data (first, last) ->
  (forall j entry data_file_out index_file_out offset,
     first <= j < last ->
     ffindex_get_entry_by_index (index apply_data) j = Some entry ->
     exists r,
       ffindex_apply_by_entry (data apply_data) entry data_file_out index_file_out
         offset (child_of env j) = Done r
       /\ inserted_names (ar_trace r)
          = (if is_open data_file_out then [entry_name entry] else [])
       /\ (is_open data_file_out = false -> read_results (ar_trace r) = [])
       /\ (is_open data_file_out = true -> read_results (ar_trace r) <> []))
  /\ (exists r,
        ffindex_apply_worker_payload env worker_splits_head first last apply_data = Done r
        /\ fopen_calls (pr_trace r)
           = [shard_path idx (ChunkShard (MPQ_rank env) first last)]
        /\ read_results (pr_trace r) = []
        /\ inserted_names (pr_trace r) = [])
  /\ ffindex_worker_merge_splits system (data_filename_out apply_data)
       (index_filename_out apply_data) rank remove_temporary worker_splits_head = []
  /\ ffindex_merge_splits system (data_filename_out apply_data)
       (index_filename_out apply_data) splits remove_temporary = [].
Proof.
  intros Hd Hi Hopen Hle Hrun. split; [| split].
  - intros j entry data_file_out index_file_out offset Hj Hget.
    destruct (Hrun j Hj) as (entry' & Hget' & Hlen & Hchild).
    assert (entry' = entry) as -> by congruence.
    destruct (@apply_by_entry_summary (data apply_data) entry data_file_out
                index_file_out offset (child_of env j) Hchild Hlen)
      as (r & Hr & _ & _ & Hnames & _ & _ & Hreads & Hsome).
    exists r. repeat split; assumption.
  - unfold ffindex_apply_worker_payload. rewrite Hd, Hi, Hopen.
    destruct (@payload_body_runs env apply_data None
                (Some (shard_path idx (ChunkShard (MPQ_rank env) first last)))
                worker_splits_head first last
                [EvFopen (shard_path idx (ChunkShard (MPQ_rank env) first last)) true]
                Hle Hrun)
      as (r & -> & _ & _ & _ & Hnames & Hfopen & _ & Hreads).
    exists r. repeat split; try assumption. now apply Hreads.
  - rewrite Hd, Hi. split; reflexivity.
Qed.

(** Two entries, [-i out.ffindex] alone. *)
Lemma C10_capture_follows_data_file_witness :
  exists r,
    ffindex_apply_worker_payload (example_env 1 (list_byte_of_string "x") 0) [] 0 2
      (example_apply_data None (Some "out.ffindex"%string)) = Done r
    /\ fopen_calls (pr_trace r) = ["out.ffindex.1.0.2"%string]
    /\ inserted_names (pr_trace r) = [].
Proof.
  destruct (@C10_capture_follows_data_file (fun _ => 0)
              (example_env 1 (list_byte_of_string "x") 0)
              (example_apply_data None (Some "out.ffindex"%string)) [] 0 2
              "out.ffindex" 1 2 1)
    as (_ & (r & Hr & Hfopen & _ & Hnames) & _).
  - reflexivity.
  - reflexivity.
  - reflexivity.
  - lia.
  - apply example_chunk_runs; [vm_compute; discriminate | lia | lia].
  - exists r. split; [exact Hr |]. split; [exact Hfopen | exact Hnames].
Defined.
(** ** What the pipe loops never do *)

Lemma bind_done (A B : Type) (m : outcome A) (k : A -> outcome B) b :
  bind m k = Done b -> exists a, m = Done a /\ k a = Done b.
Proof. destruct m as [a | u |]; simpl; intros H; [eauto | discriminate | discriminate]. Qed.

Lemma write_calls_app tr1 tr2 : write_calls (tr1 ++ tr2) = write_calls tr1 ++ write_calls tr2.
Proof. apply flat_map_app. Qed.

Lemma closed_descriptors_app tr1 tr2 :
  closed_descriptors (tr1 ++ tr2) = closed_descriptors tr1 ++ closed_descriptors tr2.
Proof. apply flat_map_app. Qed.

Lemma inserts_app tr1 tr2 : inserts (tr1 ++ tr2) = inserts tr1 ++ inserts tr2.
Proof. apply flat_map_app. Qed.

Lemma fclose_calls_app tr1 tr2 : fclose_calls (tr1 ++ tr2) = fclose_calls tr1 ++ fclose_calls tr2.
Proof. apply flat_map_app. Qed.

(** A write loop that returns has made the rounds of [write_rounds],
    whatever the child does. *)
Lemma write_loop_rounds w name capture to_write fuel : forall st evs st',
  write_loop fuel w name capture to_write st = Done (evs, st') ->
  write_rounds w name capture to_write st evs st'.
Proof.
  induction fuel as [| fuel IH]; intros st evs st' H.
  - destruct (Z_lt_ge_dec (to_size_t (ps_written st)) to_write) as [Hlt | Hge].
    + rewrite write_loop_out_of_fuel in H by exact Hlt. discriminate.
    + rewrite write_loop_exit in H by lia. injection H as <- <-.
      apply rounds_exit. lia.
  - destruct (Z_lt_ge_dec (to_size_t (ps_written st)) to_write) as [Hlt | Hge].
    2:{ rewrite write_loop_exit in H by lia. injection H as <- <-.
        apply rounds_exit. lia. }
    rewrite write_loop_step in H by exact Hlt. cbv zeta in H.
    destruct (sys_write w (ps_nwrites st) (batch_of to_write (ps_written st)))
      as [ret errno] eqn:Hsys.
    destruct ((ret <? 0) && negb (errno =? EPIPE)) eqn:Hc.
    + apply andb_prop in Hc. destruct Hc as [Hneg Hne].
      apply Z.ltb_lt in Hneg. apply negb_true_iff, Z.eqb_neq in Hne.
      injection H as <- <-. apply (@rounds_break w name capture to_write st ret errno Hlt Hsys Hneg Hne).
    + assert (0 <= ret \/ errno = EPIPE) as Hgo.
      { apply andb_false_iff in Hc. destruct Hc as [Hc | Hc].
        - left. apply Z.ltb_ge in Hc. exact Hc.
        - right. apply negb_false_iff, Z.eqb_eq in Hc. exact Hc. }
      apply bind_done in H. destruct H as (written & Hwritten & H).
      destruct capture.
      * apply bind_done in H. destruct H as ([r st1] & Hrd & H).
        apply bind_done in H. destruct H as ([more st2] & Hmore & H).
        cbn [fst snd] in *. injection H as <- <-.
        apply (@rounds_next w name true to_write st ret errno written [EvRead true r] st1
                 more st2 Hlt Hsys Hgo Hwritten).
        -- exists r. split; [exact Hrd | reflexivity].
        -- apply IH. exact Hmore.
      * apply bind_done in H. destruct H as ([more st2] & Hmore & H).
        cbn [fst snd] in *. injection H as <- <-.
        apply (@rounds_next w name false to_write st ret errno written []
                 (after_write st written) more st2 Hlt Hsys Hgo Hwritten).
        -- split; reflexivity.
        -- apply IH. exact Hmore.
Qed.

Lemma read_step_keeps w nonblock st r st1 :
  read_step w nonblock st = Done (r, st1) ->
  ps_written st1 = ps_written st /\ ps_nwrites st1 = ps_nwrites st
  /\ ps_captured st1 ++ ps_out st1 = ps_captured st ++ ps_out st
  /\ Z.of_nat (List.length (ps_captured st1))
     <= Z.max (Z.of_nat (List.length (ps_captured st))) READ_BUFFER_SIZE
  /\ ((forall k, exists e, read_at w k = ReadErr e) ->
      ps_captured st1 = ps_captured st /\ r = -1).
Proof.
  unfold read_step.
  pose proof (sys_read_spec w nonblock (ps_nreads st) (ps_out st)) as Hs.
  assert ((forall k, exists e, read_at w k = ReadErr e) ->
          fst (sys_read w nonblock (ps_nreads st) (ps_out st)) = -1) as Herr.
  { intros Hall. unfold sys_read. destruct (Hall (ps_nreads st)) as [e ->]. reflexivity. }
  destruct (sys_read w nonblock (ps_nreads st) (ps_out st)) as [r' bytes].
  cbn [fst] in Herr.
  destruct (Z.gtb_spec r' 0) as [Hpos | Hle].
  - destruct (Z.gtb_spec (Z.of_nat (List.length (ps_captured st)) + r') READ_BUFFER_SIZE)
      as [Hbig | Hfit]; [discriminate |].
    intros H. injection H as <- <-. cbn [ps_written ps_nwrites ps_captured ps_out].
    destruct Hs as [[Hr _] | (_ & Hlen & Hsplit)]; [lia |].
    split; [reflexivity |]. split; [reflexivity |]. split; [| split].
    + rewrite <- app_assoc, Hsplit. reflexivity.
    + rewrite length_app. lia.
    + intros Hall. specialize (Herr Hall). lia.
  - intros H. injection H as <- <-. cbn [ps_written ps_nwrites ps_captured ps_out].
    split; [reflexivity |]. split; [reflexivity |]. split; [reflexivity |].
    split; [lia |]. intros Hall. split; [reflexivity | exact (Herr Hall)].
Qed.

Section WriteRounds.

Variable w : child.
Variable name : string.
Variable capture : bool.
Variable to_write : Z.

Lemma round_read_keeps st reads st1 :
  round_read w capture st reads st1 ->
  ps_written st1 = ps_written st /\ ps_nwrites st1 = ps_nwrites st
  /\ ps_captured st1 ++ ps_out st1 = ps_captured st ++ ps_out st
  /\ Z.of_nat (List.length (ps_captured st1))
     <= Z.max (Z.of_nat (List.length (ps_captured st))) READ_BUFFER_SIZE
  /\ ((forall k, exists e, read_at w k = ReadErr e) -> ps_captured st1 = ps_captured st)
  /\ write_calls reads = [] /\ closed_descriptors reads = [] /\ inserts reads = []
  /\ all_pipe_io capture reads.
Proof.
  unfold round_read. destruct capture.
  - intros (r & Hrd & ->).
    destruct (@read_step_keeps w true st r st1 Hrd) as (K1 & K2 & K3 & K4 & K5).
    repeat split; try assumption.
    + intros Hall. apply (K5 Hall).
    + constructor; [reflexivity | constructor].
  - intros [-> ->]. repeat split; try lia. constructor.
Qed.

(** The rounds only write, read and report. *)
Lemma write_rounds_io st evs st' :
  write_rounds w name capture to_write st evs st' ->
  all_pipe_io capture evs /\ closed_descriptors evs = [] /\ inserts evs = []
  /\ ps_captured st' ++ ps_out st' = ps_captured st ++ ps_out st
  /\ Z.of_nat (List.length (ps_captured st'))
     <= Z.max (Z.of_nat (List.length (ps_captured st))) READ_BUFFER_SIZE
  /\ ((forall k, exists e, read_at w k = ReadErr e) -> ps_captured st' = ps_captured st).
Proof.
  induction 1 as [st Hend | st ret errno Hlt Hsys Hneg Hne
                 | st ret errno written reads st1 evs st' Hlt Hsys Hgo Hwr Hrd _ IH].
  - repeat split; try lia. constructor.
  - repeat split; try (cbn [ps_captured after_write]; lia).
    repeat constructor.
  - destruct (@round_read_keeps _ reads st1 Hrd) as (_ & _ & K3 & K4 & K5 & _ & K7 & K8 & K9).
    destruct IH as (I1 & I2 & I3 & I4 & I5 & I6).
    change (EvWrite (ps_written st) (batch_of to_write (ps_written st)) ret :: reads ++ evs)
      with ([EvWrite (ps_written st) (batch_of to_write (ps_written st)) ret]
            ++ reads ++ evs).
    rewrite !closed_descriptors_app, !inserts_app, K7, K8, I2, I3.
    cbn [ps_captured ps_out after_write] in K3, K4, K5.
    repeat split.
    + apply Forall_app. split; [repeat constructor |].
      apply Forall_app. split; assumption.
    + rewrite I4. exact K3.
    + lia.
    + intros Hall. rewrite (I6 Hall). apply K5. exact Hall.
Qed.

Hypothesis to_write_range : 0 <= to_write <= SSIZE_MAX.

(** Every [write] takes its bytes from the payload; there is one [write]
    per round, and no round follows a [write] that failed with an [errno]
    other than [EPIPE]. *)
Lemma write_rounds_never st evs st' :
  write_rounds w name capture to_write st evs st' ->
  -1 <= ps_written st <= to_write ->
  Forall (write_within to_write) (write_calls evs)
  /\ ps_nwrites st' = (ps_nwrites st + List.length (write_calls evs))%nat
  /\ (forall k e, write_at w k = WriteErr e -> e <> EPIPE ->
      (ps_nwrites st <= k)%nat -> (ps_nwrites st' <= S k)%nat).
Proof.
  induction 1 as [st Hend | st ret errno Hlt Hsys Hneg Hne
                 | st ret errno written reads st1 evs st' Hlt Hsys Hgo Hwr Hrd _ IH];
    intros Hrange.
  - simpl. repeat split; [constructor | lia | intros; lia].
  - assert (0 <= ps_written st < to_write) as Hpos.
    { destruct (Z.eq_dec (ps_written st) (-1)) as [Hm | Hm].
      - rewrite Hm, to_size_t_minus_one in Hlt. revert Hlt. range_lia.
      - rewrite to_size_t_small in Hlt by range_lia. lia. }
    destruct (@batch_of_range to_write (ps_written st) Hpos ltac:(lia)) as [Hb1 Hb2].
    cbn. repeat split; try lia. constructor; [simpl; lia | constructor].
  - assert (0 <= ps_written st < to_write) as Hpos.
    { destruct (Z.eq_dec (ps_written st) (-1)) as [Hm | Hm].
      - rewrite Hm, to_size_t_minus_one in Hlt. revert Hlt. range_lia.
      - rewrite to_size_t_small in Hlt by range_lia. lia. }
    destruct (@batch_of_range to_write (ps_written st) Hpos ltac:(lia)) as [Hb1 Hb2].
    set (batch := batch_of to_write (ps_written st)) in *. clearbody batch.
    destruct (@round_read_keeps _ reads st1 Hrd) as (K1 & K2 & _ & _ & _ & K6 & _).
    cbn [ps_written ps_nwrites after_write] in K1, K2.
    assert (-1 <= ret <= batch /\ written = ps_written st + ret
            /\ (forall k e, write_at w k = WriteErr e -> e <> EPIPE ->
                (ps_nwrites st <= k)%nat -> (S (ps_nwrites st) <= k)%nat))
      as (Hret & Hwritten & Hk).
    { unfold sys_write in Hsys.
      destruct (write_at w (ps_nwrites st)) as [c | e0] eqn:Hw.
      - injection Hsys as <- <-. destruct Hgo as [Hgo | Hgo]; [| discriminate].
        rewrite ssize_result_small in Hwr by range_lia. injection Hwr as <-.
        repeat split; try lia.
        intros k e Hke _ Hle. destruct (Nat.eq_dec k (ps_nwrites st)) as [-> | ?]; [| lia].
        rewrite Hw in Hke. discriminate.
      - injection Hsys as <- <-. destruct Hgo as [Hgo | ->]; [lia |].
        rewrite ssize_result_small in Hwr by range_lia. injection Hwr as <-.
        repeat split; try lia.
        intros k e Hke Hne Hle. destruct (Nat.eq_dec k (ps_nwrites st)) as [-> | ?]; [| lia].
        rewrite Hw in Hke. congruence. }
    destruct (IH ltac:(lia)) as (I1 & I2 & I3).
    change (write_calls (EvWrite (ps_written st) batch ret :: reads ++ evs))
      with ((ps_written st, batch, ret) :: write_calls (reads ++ evs)).
    rewrite write_calls_app, K6. cbn [app]. split; [| split].
    + constructor; [| exact I1]. simpl. lia.
    + rewrite I2, K2. simpl. lia.
    + intros k e Hke Hne Hle. apply (I3 k e Hke Hne). rewrite K2.
      apply (Hk k e Hke Hne Hle).
Qed.

End WriteRounds.

(** The drain loop only reads, and what it stores is the child's output. *)
Lemma drain_loop_reads w fuel : forall st evs st',
  drain_loop fuel w st = Done (evs, st') ->
  all_pipe_io true evs /\ write_calls evs = [] /\ closed_descriptors evs = []
  /\ inserts evs = []
  /\ ps_captured st' ++ ps_out st' = ps_captured st ++ ps_out st
  /\ Z.of_nat (List.length (ps_captured st'))
     <= Z.max (Z.of_nat (List.length (ps_captured st))) READ_BUFFER_SIZE
  /\ ((forall k, exists e, read_at w k = ReadErr e) ->
      ps_captured st' = ps_captured st /\ evs = [EvRead false (-1)]).
Proof.
  induction fuel as [| fuel IH]; intros st evs st' H; [discriminate |].
  cbn [drain_loop] in H.
  apply bind_done in H. destruct H as ([r st1] & Hrd & H). cbn [fst snd] in H.
  destruct (@read_step_keeps w false st r st1 Hrd) as (_ & _ & K3 & K4 & K5).
  destruct (Z.gtb_spec r 0) as [Hpos | Hle].
  - apply bind_done in H. destruct H as ([more st2] & Hmore & H).
    cbn [fst snd] in H. injection H as <- <-.
    destruct (IH st1 more st2 Hmore) as (I1 & I2 & I3 & I4 & I5 & I6 & I7).
    cbn [write_calls closed_descriptors inserts flat_map app].
    fold (write_calls more). fold (closed_descriptors more). fold (inserts more).
    split; [constructor; [reflexivity | exact I1] |].
    split; [exact I2 |]. split; [exact I3 |]. split; [exact I4 |].
    split; [rewrite I5; exact K3 |]. split; [lia |].
    intros Hall. destruct (K5 Hall) as [_ Hr]. lia.
  - injection H as <- <-.
    split; [constructor; [reflexivity | constructor] |].
    split; [reflexivity |]. split; [reflexivity |]. split; [reflexivity |].
    split; [exact K3 |]. split; [exact K4 |].
    intros Hall. destruct (K5 Hall) as [Hc ->]. split; [exact Hc | reflexivity].
Qed.

Lemma setup_errno_zero data_file_out w :
  setup_errno data_file_out w = 0 ->
  pipe_stdin_errno w = 0 /\ fork_errno w = 0
  /\ is_open data_file_out && negb (pipe_stdout_errno w =? 0) = false.
Proof.
  unfold setup_errno.
  destruct (Z.eqb_spec (pipe_stdin_errno w) 0) as [Hin | Hin]; cbn [negb]; [| tauto].
  destruct (is_open data_file_out && negb (pipe_stdout_errno w =? 0)) eqn:Hout.
  - intros H. rewrite H in Hout. rewrite andb_false_r in Hout. discriminate.
  - tauto.
Qed.

Section RunnerEnds.

Variable data : list Byte.byte.
Variable entry : ffindex_entry.
Variables data_file_out index_file_out : option string.
Variable offset : Z.
Variable w : child.

(** A runner whose child was started and which returns has made the
    rounds of the write loop, closed the input pipe, read the rest of the
    output when it is captured, and waited; it returns [EXIT_SUCCESS]. *)
Lemma apply_by_entry_inv r :
  setup_errno data_file_out w = 0 ->
  ffindex_apply_by_entry data entry data_file_out index_file_out offset w = Done r ->
  exists wl st1 tail,
    write_rounds w (entry_name entry) (is_open data_file_out)
      (to_size_t (entry_length entry - 1)) (runner_start w) wl st1
    /\ ar_ret r = EXIT_SUCCESS
    /\ ar_trace r = runner_setup (is_open data_file_out) ++ wl ++ [EvClose StdinWrite]
                    ++ tail ++ runner_report entry (wait_status w)
    /\ (is_open data_file_out = false -> tail = [] /\ ar_offset r = offset)
    /\ (is_open data_file_out = true ->
        exists reads bytes rest,
          tail = capture_tail data_file_out index_file_out offset (entry_name entry)
                   reads bytes
          /\ all_pipe_io true reads /\ write_calls reads = []
          /\ closed_descriptors reads = [] /\ inserts reads = []
          /\ child_stdout w = bytes ++ rest
          /\ Z.of_nat (List.length bytes) <= READ_BUFFER_SIZE
          /\ ((forall k, exists e, read_at w k = ReadErr e) ->
              bytes = [] /\ reads = [EvRead false (-1)])
          /\ ar_offset r = ffindex_insert_memory offset bytes).
Proof.
  intros Hsetup H. destruct (setup_errno_zero _ _ Hsetup) as (Hin & Hfork & Hout).
  unfold ffindex_apply_by_entry in H.
  rewrite Hin, Hfork, Hout in H. cbn [Z.eqb negb] in H.
  fold (runner_start w) in H.
  apply bind_done in H. destruct H as ([wl st1] & Hwl & H). cbn [fst snd] in H.
  apply write_loop_rounds in Hwl.
  destruct (@write_rounds_io w (entry_name entry) (is_open data_file_out) _ _ _ _ Hwl)
    as (_ & _ & _ & W4 & W5 & W6).
  cbn [runner_start ps_captured ps_out app List.length] in W4, W5, W6.
  destruct (is_open data_file_out) eqn:Hcap.
  - apply bind_done in H. destruct H as ([tail offset'] & Hcapd & H).
    apply bind_done in Hcapd. destruct Hcapd as ([dl st2] & Hdl & Hcapd).
    cbn [fst snd] in Hcapd, H. injection Hcapd as <- <-. injection H as <-.
    destruct (@drain_loop_reads w _ st1 dl st2 Hdl) as (D1 & D2 & D3 & D4 & D5 & D6 & D7).
    exists wl, st1, (capture_tail data_file_out index_file_out offset (entry_name entry)
                       dl (ps_captured st2)).
    split; [exact Hwl |]. split; [reflexivity |]. split; [reflexivity |].
    split; [discriminate |]. intros _.
    exists dl, (ps_captured st2), (ps_out st2).
    split; [reflexivity |]. split; [exact D1 |]. split; [exact D2 |].
    split; [exact D3 |]. split; [exact D4 |].
    split; [rewrite D5; symmetry; exact W4 |].
    split; [change (Z.of_nat 0) with 0 in W5; unfold READ_BUFFER_SIZE in *; lia |].
    split; [| reflexivity].
    intros Hall. destruct (D7 Hall) as [Hc ->]. rewrite Hc.
    split; [apply W6; exact Hall | reflexivity].
  - cbn [bind fst snd] in H. injection H as <-.
    exists wl, st1, []. split; [exact Hwl |]. split; [reflexivity |].
    split; [reflexivity |]. split; [split; reflexivity | discriminate].
Qed.

(** When a pipe or the child cannot be created the runner returns the
    [errno] at once. *)
Lemma apply_by_entry_setup_fails :
  setup_errno data_file_out w <> 0 ->
  exists tr,
    ffindex_apply_by_entry data entry data_file_out index_file_out offset w
    = Done {| ar_ret := setup_errno data_file_out w; ar_offset := offset; ar_trace := tr |}
    /\ write_calls tr = [] /\ read_results tr = [] /\ inserts tr = []
    /\ waited tr = [] /\ stdout_lines tr = [] /\ closed_descriptors tr = []
    /\ (pipe_stdin_errno w = 0 -> In StdinPipe (opened_pipes tr))
    /\ In (EvPerror (entry_name entry)) tr
    /\ inserted_names tr = [] /\ fopen_calls tr = [] /\ fclose_calls tr = [].
Proof.
  unfold setup_errno, ffindex_apply_by_entry.
  destruct (Z.eqb_spec (pipe_stdin_errno w) 0) as [Hin | Hin]; cbn [negb].
  - destruct (is_open data_file_out && negb (pipe_stdout_errno w =? 0)) eqn:Hout.
    + intros Hne. eexists. split; [reflexivity |]. cbn.
      apply andb_prop in Hout. destruct Hout as [_ Hout].
      repeat split; auto.
    + intros Hne. destruct (Z.eqb_spec (fork_errno w) 0) as [Hf | Hf]; [contradiction |].
      cbn [negb]. eexists. split; [reflexivity |].
      destruct (is_open data_file_out); cbn; repeat split; auto 10.
  - intros _. eexists. split; [reflexivity |]. cbn.
    destruct (Z.eqb_spec (pipe_stdin_errno w) 0); [contradiction |].
    repeat split; auto.
Qed.

End RunnerEnds.

Lemma runner_setup_quiet capture :
  write_calls (runner_setup capture) = [] /\ inserts (runner_setup capture) = []
  /\ closed_descriptors (runner_setup capture)
     = StdinRead :: (if capture then [StdoutWrite] else []).
Proof. destruct capture; repeat split. Qed.

Lemma runner_report_quiet entry status :
  write_calls (runner_report entry status) = [] /\ inserts (runner_report entry status) = []
  /\ closed_descriptors (runner_report entry status) = [].
Proof. unfold runner_report. destruct (WIFEXITED status); repeat split. Qed.

(** The [write]s, [close]s and appends of a runner that returns. *)
Lemma apply_by_entry_calls data entry data_file_out index_file_out offset w r :
  setup_errno data_file_out w = 0 ->
  ffindex_apply_by_entry data entry data_file_out index_file_out offset w = Done r ->
  exists wl st1,
    write_rounds w (entry_name entry) (is_open data_file_out)
      (to_size_t (entry_length entry - 1)) (runner_start w) wl st1
    /\ write_calls (ar_trace r) = write_calls wl
    /\ closed_descriptors (ar_trace r)
       = [StdinRead] ++ (if is_open data_file_out then [StdoutWrite] else [])
         ++ [StdinWrite] ++ (if is_open data_file_out then [StdoutRead] else [])
    /\ (is_open data_file_out = false -> inserts (ar_trace r) = []).
Proof.
  intros Hsetup H.
  destruct (@apply_by_entry_inv data entry data_file_out index_file_out offset w r Hsetup H)
    as (wl & st1 & tail & Hwl & _ & Htr & Hoff & Hon).
  exists wl, st1. split; [exact Hwl |].
  destruct (runner_setup_quiet (is_open data_file_out)) as (S1 & S2 & S3).
  destruct (runner_report_quiet entry (wait_status w)) as (R1 & R2 & R3).
  destruct (@write_rounds_io w (entry_name entry) (is_open data_file_out) _ _ _ _ Hwl)
    as (_ & W2 & W3 & _).
  rewrite Htr, !write_calls_app, !closed_descriptors_app, !inserts_app.
  rewrite S1, S2, S3, R1, R2, R3, W2, W3.
  destruct (is_open data_file_out) eqn:Hcap.
  - destruct (Hon eq_refl) as (reads & bytes & rest & -> & _ & D2 & D3 & _).
    unfold capture_tail.
    rewrite !write_calls_app, !closed_descriptors_app, D2, D3. cbn.
    rewrite app_nil_r. repeat split. discriminate.
  - destruct (Hoff eq_refl) as [-> _]. cbn. rewrite app_nil_r. repeat split.
Qed.

(** ** The runner, whatever the child does *)

(** X1: every [write] of the runner takes its bytes from the payload of the
    entry: it starts within the payload, asks for between 1 and [PIPE_BUF]
    bytes and ends at or before the last byte of the payload, so that the
    sentinel byte of the entry and the bytes after it are never handed to
    the child.  This holds for every child, whatever its pipe answers. *)
Theorem runner_writes_within_payload data entry data_file_out index_file_out offset w r :
  1 <= entry_length entry <= SSIZE_MAX ->
  ffindex_apply_by_entry data entry data_file_out index_file_out offset w = Done r ->
  Forall (write_within (entry_length entry - 1)) (write_calls (ar_trace r)).
Proof.
  intros Hlen H.
  destruct (Z.eq_dec (setup_errno data_file_out w) 0) as [Hsetup | Hsetup].
  - destruct (@apply_by_entry_calls data entry data_file_out index_file_out offset w r
                Hsetup H) as (wl & st1 & Hwl & -> & _).
    rewrite to_size_t_small in Hwl by range_lia.
    apply (@write_rounds_never w (entry_name entry) (is_open data_file_out)
             (entry_length entry - 1) ltac:(lia) _ _ _ Hwl).
    cbn [runner_start ps_written]. lia.
  - destruct (@apply_by_entry_setup_fails data entry data_file_out index_file_out offset w
                Hsetup) as (tr & Htr & Hnone & _).
    rewrite Htr in H. injection H as <-. cbn [ar_trace]. rewrite Hnone. constructor.
Qed.

Lemma runner_writes_within_payload_witness :
  exists r,
    ffindex_apply_by_entry example_data example_entry None None 0
      (child_reading_all [] 0) = Done r
    /\ write_calls (ar_trace r) = [(0, 5, 5)]
    /\ Forall (write_within 5) (write_calls (ar_trace r)).
Proof.
  eexists. split; [vm_compute; reflexivity |]. split; [reflexivity |].
  apply (@runner_writes_within_payload example_data example_entry None None 0
           (child_reading_all [] 0)).
  - vm_compute. split; discriminate.
  - vm_compute. reflexivity.
Defined.

(** X2: after a [write] that fails with an [errno] other than [EPIPE] the
    runner calls [write] no more; the failure is reported on standard error
    only: the runner goes on to wait for the child and returns
    [EXIT_SUCCESS]. *)
Theorem runner_stops_writing_on_error data entry data_file_out index_file_out offset w r
  k errno :
  1 <= entry_length entry <= SSIZE_MAX ->
  setup_errno data_file_out w = 0 ->
  ffindex_apply_by_entry data entry data_file_out index_file_out offset w = Done r ->
  write_at w k = WriteErr errno -> errno <> EPIPE ->
  (List.length (write_calls (ar_trace r)) <= S k)%nat
  /\ waited (ar_trace r) = [wait_status w]
  /\ ar_ret r = EXIT_SUCCESS.
Proof.
  intros Hlen Hsetup H Hk Hne.
  destruct (@apply_by_entry_calls data entry data_file_out index_file_out offset w r
              Hsetup H) as (wl & st1 & Hwl & -> & _).
  destruct (@apply_by_entry_inv data entry data_file_out index_file_out offset w r
              Hsetup H) as (wl' & st1' & tail & Hwl' & Hret & Htr & Hoff & Hon).
  rewrite to_size_t_small in Hwl by range_lia.
  destruct (@write_rounds_never w (entry_name entry) (is_open data_file_out)
              (entry_length entry - 1) ltac:(lia) _ _ _ Hwl
              ltac:(cbn [runner_start ps_written]; lia)) as (_ & Hn & Hstop).
  specialize (Hstop k errno Hk Hne ltac:(cbn [runner_start ps_nwrites]; lia)).
  cbn [runner_start ps_nwrites] in Hn. split; [lia |]. split; [| exact Hret].
  destruct (@write_rounds_io w (entry_name entry) (is_open data_file_out) _ _ _ _ Hwl')
    as (Hio & _).
  destruct (pipe_io_silent Hio) as (_ & _ & _ & W4 & _).
  destruct (runner_setup_silent (is_open data_file_out)) as (_ & _ & _ & S4 & _).
  destruct (runner_report_silent entry (wait_status w)) as (_ & _ & _ & R4).
  rewrite Htr, !waited_app, S4, W4, R4.
  destruct (is_open data_file_out) eqn:Hcap.
  - destruct (Hon eq_refl) as (reads & bytes & rest & -> & Hio2 & _).
    destruct (pipe_io_silent Hio2) as (_ & _ & _ & D4 & _).
    unfold capture_tail. rewrite !waited_app, D4. reflexivity.
  - destruct (Hoff eq_refl) as [-> _]. reflexivity.
Qed.

(** The entry ["hello"] and a child to which the first [write] fails with
    [EIO]. *)
Lemma runner_stops_writing_on_error_witness :
  exists r,
    ffindex_apply_by_entry example_data example_entry None None 0 (child_write_error 5)
    = Done r
    /\ (List.length (write_calls (ar_trace r)) <= 1)%nat
    /\ waited (ar_trace r) = [0]
    /\ ar_ret r = EXIT_SUCCESS.
Proof.
  eexists. split; [vm_compute; reflexivity |].
  apply (@runner_stops_writing_on_error example_data example_entry None None 0
           (child_write_error 5) _ 0%nat 5).
  - vm_compute. split; discriminate.
  - reflexivity.
  - vm_compute. reflexivity.
  - reflexivity.
  - discriminate.
Defined.

(** X3: an entry that holds the sentinel byte only (length 1): the
    child is started and waited for as for any entry, but [write] is never
    called; the child only sees the end of file. *)
Theorem runner_empty_payload data entry data_file_out index_file_out offset w :
  runs w -> entry_length entry = 1 ->
  exists r,
    ffindex_apply_by_entry data entry data_file_out index_file_out offset w = Done r
    /\ write_calls (ar_trace r) = []
    /\ waited (ar_trace r) = [wait_status w]
    /\ inserted_names (ar_trace r)
       = (if is_open data_file_out then [entry_name entry] else [])
    /\ ar_ret r = EXIT_SUCCESS.
Proof.
  intros Hruns Hlen.
  destruct (@apply_by_entry_summary data entry data_file_out index_file_out offset w Hruns
              ltac:(rewrite Hlen; range_lia))
    as (r & H & Hret & _ & Hnames & _ & Hwait & _).
  exists r. split; [exact H |]. repeat split; try assumption.
  assert (setup_errno data_file_out w = 0) as Hsetup.
  { destruct Hruns as (Hin & Hout & Hfork & _). unfold setup_errno.
    rewrite Hin, Hout, Hfork. cbn. rewrite andb_false_r. reflexivity. }
  destruct (@apply_by_entry_calls data entry data_file_out index_file_out offset w r
              Hsetup H) as (wl & st1 & Hwl & -> & _).
  rewrite Hlen in Hwl. change (to_size_t (1 - 1)) with 0 in Hwl.
  destruct (@write_rounds_never w (entry_name entry) (is_open data_file_out) 0
              ltac:(range_lia) _ _ _ Hwl ltac:(cbn [runner_start ps_written]; lia))
    as (Hall & _).
  destruct (write_calls wl) as [| [[position count] ret] calls]; [reflexivity |].
  inversion Hall as [| call calls' Hcall _]. simpl in Hcall. lia.
Qed.

Lemma runner_empty_payload_witness :
  exists r,
    ffindex_apply_by_entry example_data empty_entry (Some "d"%string) (Some "i"%string) 0
      (child_reading_all (list_byte_of_string "x") 0) = Done r
    /\ write_calls (ar_trace r) = []
    /\ waited (ar_trace r) = [0]
    /\ inserted_names (ar_trace r) = ["empty"%string]
    /\ ar_ret r = EXIT_SUCCESS.
Proof.
  apply (@runner_empty_payload example_data empty_entry (Some "d"%string) (Some "i"%string) 0
           (child_reading_all (list_byte_of_string "x") 0)).
  - apply child_reading_all_runs. vm_compute. discriminate.
  - reflexivity.
Defined.

(** X4: an entry of length [0], which an index file can hold although no
    archive built by ffindex does: [entry->length - 1] wraps to [SIZE_MAX]
    and the first [write] asks for [PIPE_BUF] bytes of an entry that has
    none. *)
Theorem runner_zero_length_entry data entry data_file_out index_file_out offset w r :
  entry_length entry = 0 ->
  setup_errno data_file_out w = 0 ->
  ffindex_apply_by_entry data entry data_file_out index_file_out offset w = Done r ->
  exists ret calls, write_calls (ar_trace r) = (0, PIPE_BUF, ret) :: calls.
Proof.
  intros Hlen Hsetup H.
  destruct (@apply_by_entry_calls data entry data_file_out index_file_out offset w r
              Hsetup H) as (wl & st1 & Hwl & -> & _).
  rewrite Hlen in Hwl. change (to_size_t (0 - 1)) with SIZE_MAX in Hwl.
  inversion Hwl as [st Hend | st ret errno Hlt Hsys Hneg Hne
                   | st ret errno written reads st2 evs st' Hlt Hsys Hgo Hwr Hrd Hmore];
    subst.
  - cbn [runner_start ps_written] in Hend. vm_compute in Hend. contradiction Hend.
    reflexivity.
  - exists ret, []. reflexivity.
  - exists ret, (write_calls (reads ++ evs)). reflexivity.
Qed.

Lemma runner_zero_length_entry_witness :
  exists r ret calls,
    ffindex_apply_by_entry example_data zero_entry None None 0 (child_write_error 5)
    = Done r
    /\ write_calls (ar_trace r) = (0, PIPE_BUF, ret) :: calls.
Proof.
  eexists.
  destruct (@runner_zero_length_entry example_data zero_entry None None 0
              (child_write_error 5) _ eq_refl eq_refl
              ltac:(unfold ffindex_apply_by_entry, write_fuel; cbn [is_open];
                    change (to_size_t (entry_length zero_entry - 1)) with SIZE_MAX;
                    reflexivity))
    as (ret & calls & H).
  exists ret, calls. split; [| exact H].
  reflexivity.
Defined.

(** X5: when the output is captured, a runner that returns has appended
    one record for the entry, and the bytes appended are the first bytes
    the child wrote, in order, and no more than [read_buffer] holds; the
    running offset moves past them.  This holds for every child whose
    pipes and [fork] succeed. *)
Theorem runner_appends_prefix data entry data_file_out index_file_out offset w r :
  is_open data_file_out = true ->
  setup_errno data_file_out w = 0 ->
  ffindex_apply_by_entry data entry data_file_out index_file_out offset w = Done r ->
  exists bytes rest,
    inserts (ar_trace r) = [(offset, bytes)]
    /\ child_stdout w = bytes ++ rest
    /\ Z.of_nat (List.length bytes) <= READ_BUFFER_SIZE
    /\ ar_offset r = ffindex_insert_memory offset bytes.
Proof.
  intros Hcap Hsetup H.
  destruct (@apply_by_entry_inv data entry data_file_out index_file_out offset w r
              Hsetup H) as (wl & st1 & tail & Hwl & _ & Htr & _ & Hon).
  destruct (Hon Hcap) as (reads & bytes & rest & -> & _ & _ & _ & D4 & Hpre & Hfit & _ & Hoff).
  exists bytes, rest. repeat split; try assumption.
  destruct (runner_setup_quiet (is_open data_file_out)) as (_ & S2 & _).
  destruct (runner_report_quiet entry (wait_status w)) as (_ & R2 & _).
  destruct (@write_rounds_io w (entry_name entry) (is_open data_file_out) _ _ _ _ Hwl)
    as (_ & _ & W3 & _).
  rewrite Htr. unfold capture_tail.
  rewrite !inserts_app, S2, R2, W3, D4. reflexivity.
Qed.

Lemma runner_appends_prefix_witness :
  exists r bytes rest,
    ffindex_apply_by_entry example_data example_entry (Some "d"%string) (Some "i"%string) 7
      (child_reading_all (list_byte_of_string "hello") 0) = Done r
    /\ inserts (ar_trace r) = [(7, bytes)]
    /\ list_byte_of_string "hello" = bytes ++ rest
    /\ Z.of_nat (List.length bytes) <= READ_BUFFER_SIZE
    /\ ar_offset r = ffindex_insert_memory 7 bytes.
Proof.
  eexists.
  destruct (@runner_appends_prefix example_data example_entry (Some "d"%string)
              (Some "i"%string) 7 (child_reading_all (list_byte_of_string "hello") 0) _
              eq_refl eq_refl ltac:(vm_compute; reflexivity))
    as (bytes & rest & H).
  exists bytes, rest. split; [reflexivity | exact H].
Defined.

(** X6: a [read] that fails is taken for the end of the output: when
    every [read] fails, the runner appends an empty record for the entry
    although the child wrote [child_stdout w], reports nothing and returns
    [EXIT_SUCCESS]. *)
Theorem runner_read_errors_lose_output data entry data_file_out index_file_out offset w :
  runs w -> 1 <= entry_length entry <= SSIZE_MAX ->
  is_open data_file_out = true ->
  (forall k, exists errno, read_at w k = ReadErr errno) ->
  exists r,
    ffindex_apply_by_entry data entry data_file_out index_file_out offset w = Done r
    /\ inserts (ar_trace r) = [(offset, [])]
    /\ In (-1) (read_results (ar_trace r))
    /\ ar_offset r = offset + 1
    /\ ar_ret r = EXIT_SUCCESS.
Proof.
  intros Hruns Hlen Hcap Hreads.
  destruct (@apply_by_entry_summary data entry data_file_out index_file_out offset w Hruns
              Hlen) as (r & H & Hret & _).
  exists r. split; [exact H |].
  assert (setup_errno data_file_out w = 0) as Hsetup.
  { destruct Hruns as (Hin & Hout & Hfork & _). unfold setup_errno.
    rewrite Hin, Hout, Hfork. cbn. rewrite andb_false_r. reflexivity. }
  destruct (@apply_by_entry_inv data entry data_file_out index_file_out offset w r
              Hsetup H) as (wl & st1 & tail & Hwl & _ & Htr & _ & Hon).
  destruct (Hon Hcap) as (reads & bytes & rest & -> & _ & _ & _ & _ & _ & _ & Hnone & Hoff).
  destruct (Hnone Hreads) as [-> ->].
  destruct (runner_setup_quiet (is_open data_file_out)) as (_ & S2 & _).
  destruct (runner_report_quiet entry (wait_status w)) as (_ & R2 & _).
  destruct (@write_rounds_io w (entry_name entry) (is_open data_file_out) _ _ _ _ Hwl)
    as (_ & _ & W3 & _).
  rewrite Htr. unfold capture_tail.
  rewrite !inserts_app, S2, R2, W3.
  split; [reflexivity |]. split; [| split; [| exact Hret]].
  - rewrite !read_results_app. apply in_or_app. right. apply in_or_app. right.
    apply in_or_app. right. apply in_or_app. left. apply in_or_app. right.
    left. reflexivity.
  - rewrite Hoff. unfold ffindex_insert_memory. simpl. lia.
Qed.

(** The entry ["hello"] and a child that writes ["hello"] while every
    [read] fails with [EIO]. *)
Lemma runner_read_errors_lose_output_witness :
  exists r,
    ffindex_apply_by_entry example_data example_entry (Some "d"%string) (Some "i"%string) 0
      (child_read_error (list_byte_of_string "hello") 5) = Done r
    /\ inserts (ar_trace r) = [(0, [])]
    /\ In (-1) (read_results (ar_trace r))
    /\ ar_offset r = 0 + 1
    /\ ar_ret r = EXIT_SUCCESS.
Proof.
  apply (@runner_read_errors_lose_output example_data example_entry (Some "d"%string)
           (Some "i"%string) 0 (child_read_error (list_byte_of_string "hello") 5)).
  - repeat split; try reflexivity; try discriminate.
    + intros k c H. injection H as <-. unfold PIPE_BUF. lia.
  - vm_compute. split; discriminate.
  - reflexivity.
  - intros k. exists 5. reflexivity.
Defined.



(** X8: a runner whose child was started and which returns has closed each
    end of each pipe it created exactly once: the read end of the input
    pipe and the write end of the output pipe before the write loop, the
    write end of the input pipe after it, and the read end of the output
    pipe after the drain loop.  The output pipe exists only when the output
    is captured. *)
Theorem runner_closes_each_end_once data entry data_file_out index_file_out offset w r :
  setup_errno data_file_out w = 0 ->
  ffindex_apply_by_entry data entry data_file_out index_file_out offset w = Done r ->
  closed_descriptors (ar_trace r)
  = (if is_open data_file_out
     then [StdinRead; StdoutWrite; StdinWrite; StdoutRead]
     else [StdinRead; StdinWrite])
  /\ opened_pipes (ar_trace r)
     = (if is_open data_file_out then [StdinPipe; StdoutPipe] else [StdinPipe]).
Proof.
  intros Hsetup H.
  destruct (@apply_by_entry_calls data entry data_file_out index_file_out offset w r
              Hsetup H) as (wl & st1 & Hwl & _ & Hclosed & _).
  split; [rewrite Hclosed; destruct (is_open data_file_out); reflexivity |].
  destruct (@apply_by_entry_inv data entry data_file_out index_file_out offset w r
              Hsetup H) as (wl' & st1' & tail & Hwl' & _ & Htr & Hoff & Hon).
  assert (forall tr, all_pipe_io (is_open data_file_out) tr \/ all_pipe_io true tr ->
                     opened_pipes tr = []) as Hquiet.
  { intros tr [Hio | Hio]; induction Hio as [| ev tr' Hev _ IH]; try reflexivity;
      destruct ev; try discriminate Hev; exact IH. }
  destruct (@write_rounds_io w (entry_name entry) (is_open data_file_out) _ _ _ _ Hwl')
    as (Hio & _).
  rewrite Htr. unfold opened_pipes. rewrite !flat_map_app.
  fold (opened_pipes wl'). rewrite (Hquiet wl' (or_introl Hio)).
  destruct (is_open data_file_out) eqn:Hcap.
  - destruct (Hon eq_refl) as (reads & bytes & rest & -> & Hio2 & _).
    unfold capture_tail. rewrite !flat_map_app. fold (opened_pipes reads).
    rewrite (Hquiet reads (or_intror Hio2)). unfold runner_report.
    destruct (WIFEXITED (wait_status w)); reflexivity.
  - destruct (Hoff eq_refl) as [-> _]. unfold runner_report.
    destruct (WIFEXITED (wait_status w)); reflexivity.
Qed.

Lemma runner_closes_each_end_once_witness :
  exists r,
    ffindex_apply_by_entry example_data example_entry (Some "d"%string) (Some "i"%string) 0
      (child_reading_all (list_byte_of_string "hello") 0) = Done r
    /\ closed_descriptors (ar_trace r) = [StdinRead; StdoutWrite; StdinWrite; StdoutRead]
    /\ opened_pipes (ar_trace r) = [StdinPipe; StdoutPipe].
Proof.
  eexists. split; [vm_compute; reflexivity |].
  apply (@runner_closes_each_end_once example_data example_entry (Some "d"%string)
           (Some "i"%string) 0 (child_reading_all (list_byte_of_string "hello") 0)).
  - reflexivity.
  - vm_compute. reflexivity.
Defined.

(** ** The callback, when something fails *)

Lemma all_pipe_io_no_stream capture tr :
  all_pipe_io capture tr -> fclose_calls tr = [].
Proof.
  induction 1 as [| ev tr Hev _ IH]; [reflexivity |].
  destruct ev; try discriminate Hev; exact IH.
Qed.

(** The runner opens and closes no stream, whatever the child does. *)
Lemma apply_by_entry_no_stream data entry data_file_out index_file_out offset w r :
  ffindex_apply_by_entry data entry data_file_out index_file_out offset w = Done r ->
  fclose_calls (ar_trace r) = [].
Proof.
  intros H.
  destruct (Z.eq_dec (setup_errno data_file_out w) 0) as [Hsetup | Hsetup].
  - destruct (@apply_by_entry_inv data entry data_file_out index_file_out offset w r
                Hsetup H) as (wl & st1 & tail & Hwl & _ & Htr & Hoff & Hon).
    destruct (@write_rounds_io w (entry_name entry) (is_open data_file_out) _ _ _ _ Hwl)
      as (Hio & _).
    rewrite Htr, !fclose_calls_app, (all_pipe_io_no_stream Hio).
    assert (fclose_calls tail = []) as ->.
    { destruct (is_open data_file_out) eqn:Hcap.
      - destruct (Hon eq_refl) as (reads & bytes & rest & -> & Hio2 & _).
        unfold capture_tail. rewrite !fclose_calls_app, (all_pipe_io_no_stream Hio2).
        reflexivity.
      - destruct (Hoff eq_refl) as [-> _]. reflexivity. }
    unfold runner_report, runner_setup.
    destruct (WIFEXITED (wait_status w)), (is_open data_file_out); reflexivity.
  - destruct (@apply_by_entry_setup_fails data entry data_file_out index_file_out offset w
                Hsetup) as (tr & Htr & _ & _ & _ & _ & _ & _ & _ & _ & _ & _ & Hnone).
    rewrite Htr in H. injection H as <-. exact Hnone.
Qed.

Section PayloadStops.

Variable env : worker_env.
Variable apply_data : ffindex_apply_mpi_data.
Variables data_file_out index_file_out : option string.


End PayloadStops.

Section Callback.

Variable env : worker_env.
Variable apply_data : ffindex_apply_mpi_data.
Variable worker_splits_head : list worker_splits_t.
Variables first last : Z.

(** When every [fopen] succeeds the callback opens the streams of the
    chunk and goes on to the loop. *)
Lemma payload_opens :
  (forall path, In path (chunk_streams env apply_data first last) -> fopen_ok env path = true) ->
  ffindex_apply_worker_payload env worker_splits_head first last apply_data
  = payload_body env worker_splits_head first last apply_data
      (chunk_file env first last (data_filename_out apply_data))
      (chunk_file env first last (index_filename_out apply_data))
      (map (fun path => EvFopen path true) (chunk_streams env apply_data first last)).
Proof.
  unfold ffindex_apply_worker_payload, chunk_streams, chunk_stream, chunk_file. intros Hopen.
  destruct (data_filename_out apply_data) as [dat |],
    (index_filename_out apply_data) as [idx |]; cbn [option_map map app] in *.
  - rewrite !Hopen by (simpl; auto). reflexivity.
  - rewrite !Hopen by (simpl; auto). reflexivity.
  - rewrite !Hopen by (simpl; auto). reflexivity.
  - reflexivity.
Qed.

Lemma chunk_file_is_open base :
  is_open (chunk_file env first last base) = is_open base.
Proof. destruct base; reflexivity. Qed.

Lemma fclose_streams :
  fclose_calls (fclose_events (chunk_file env first last (index_filename_out apply_data))
                ++ fclose_events (chunk_file env first last (data_filename_out apply_data)))
  = rev (chunk_streams env apply_data first last).
Proof.
  unfold chunk_streams, chunk_stream, chunk_file.
  destruct (data_filename_out apply_data), (index_filename_out apply_data); reflexivity.
Qed.

Lemma fopen_streams_quiet :
  let opened := map (fun path => EvFopen path true) (chunk_streams env apply_data first last) in
  waited opened = [] /\ inserted_names opened = [] /\ fclose_calls opened = []
  /\ fopen_calls opened = chunk_streams env apply_data first last
  /\ inserts opened = [] /\ stdout_lines opened = [].
Proof.
  cbv zeta. induction (chunk_streams env apply_data first last) as [| path paths IH].
  - repeat split.
  - destruct IH as (I1 & I2 & I3 & I4 & I5 & I6). cbn [map].
    change (EvFopen path true :: ?l) with ([EvFopen path true] ++ l).
    rewrite waited_app, inserted_names_app, fclose_calls_app, fopen_calls_app,
      inserts_app, stdout_lines_app.
    rewrite I1, I2, I3, I4, I5, I6. repeat split.
Qed.

End Callback.



(** X12: when a shard of the chunk cannot be opened, the callback returns
    [EXIT_FAILURE] at once: no child is created, nothing is printed on
    standard output, and the chunk is not recorded, so that no merge will
    look for its shards.  No stream is closed either: when the index shard
    is the one that cannot be opened, the data stream opened before it stays
    open. *)
Theorem payload_fopen_failure env apply_data worker_splits_head first last path :
  In path (chunk_streams env apply_data first last) ->
  fopen_ok env path = false ->
  exists r,
    ffindex_apply_worker_payload env worker_splits_head first last apply_data = Done r
    /\ pr_ret r = EXIT_FAILURE
    /\ pr_splits r = worker_splits_head
    /\ forks (pr_trace r) = [] /\ waited (pr_trace r) = []
    /\ stdout_lines (pr_trace r) = []
    /\ fclose_calls (pr_trace r) = []
    /\ (forall dat, data_filename_out apply_data = Some dat ->
        fopen_ok env (shard_path dat (ChunkShard (MPQ_rank env) first last)) = true ->
        In (EvFopen (shard_path dat (ChunkShard (MPQ_rank env) first last)) true)
           (pr_trace r)).
Proof.
  unfold chunk_streams, chunk_stream, ffindex_apply_worker_payload. intros Hin Hfail.
  destruct (data_filename_out apply_data) as [dat |],
    (index_filename_out apply_data) as [idx |]; cbn [app In] in Hin.
  - destruct (fopen_ok env (shard_path dat _)) eqn:Hd.
    + destruct Hin as [<- | [<- | []]]; [congruence |]. rewrite Hfail.
      eexists. split; [reflexivity |]. unfold payload_fopen_failed.
      cbn [pr_ret pr_splits pr_trace]. repeat split.
      intros dat' Hdat _. injection Hdat as <-. left. reflexivity.
    + eexists. split; [reflexivity |]. unfold payload_fopen_failed.
      cbn [pr_ret pr_splits pr_trace]. repeat split.
      intros dat' Hdat Hopen. injection Hdat as <-. congruence.
  - destruct Hin as [<- | []]. rewrite Hfail.
    eexists. split; [reflexivity |]. unfold payload_fopen_failed.
    cbn [pr_ret pr_splits pr_trace]. repeat split.
    intros dat' Hdat Hopen. injection Hdat as <-. congruence.
  - destruct Hin as [<- | []]. rewrite Hfail.
    eexists. split; [reflexivity |]. unfold payload_fopen_failed.
    cbn [pr_ret pr_splits pr_trace]. repeat split.
    intros dat' Hdat. discriminate.
  - contradiction.
Qed.

(** A worker that can create the data shard of the chunk but not its
    index shard. *)
Lemma payload_fopen_failure_witness :
  exists r,
    ffindex_apply_worker_payload (env_opening 1 ["out.ffdata.1.0.2"%string]) [] 0 2
      (example_apply_data (Some "out.ffdata"%string) (Some "out.ffindex"%string)) = Done r
    /\ pr_ret r = EXIT_FAILURE
    /\ pr_splits r = []
    /\ forks (pr_trace r) = [] /\ waited (pr_trace r) = []
    /\ stdout_lines (pr_trace r) = []
    /\ fclose_calls (pr_trace r) = []
    /\ (forall dat, Some "out.ffdata"%string = Some dat ->
        fopen_ok (env_opening 1 ["out.ffdata.1.0.2"%string])
          (shard_path dat (ChunkShard 1 0 2)) = true ->
        In (EvFopen (shard_path dat (ChunkShard 1 0 2)) true) (pr_trace r)).
Proof.
  apply (@payload_fopen_failure (env_opening 1 ["out.ffdata.1.0.2"%string])
           (example_apply_data (Some "out.ffdata"%string) (Some "out.ffindex"%string))
           [] 0 2 "out.ffindex.1.0.2"%string).
  - right. left. reflexivity.
  - reflexivity.
Defined.

Section CallbackRuns.

Variable env : worker_env.
Variable apply_data : ffindex_apply_mpi_data.
Variables data_file_out index_file_out : option string.

(** The appends of a chunk whose children run follow one another in the
    shard of the chunk. *)
Lemma payload_loop_chained count : forall i offset,
  chunk_runs env apply_data (i, i + Z.of_nat count) ->
  is_open data_file_out = true ->
  exists tr,
    payload_loop env apply_data data_file_out index_file_out count i offset
    = Done (EXIT_SUCCESS, tr)
    /\ chained offset (inserts tr)
    /\ List.length (inserts tr) = count
    /\ fclose_calls tr = [].
Proof.
  induction count as [| count IH]; intros i offset Hrun Hcap.
  - exists []. repeat split.
  - destruct (Hrun i ltac:(cbn [fst snd]; lia)) as (entry & Hget & Hlen & Hchild).
    cbn [payload_loop]. rewrite Hget.
    destruct (@apply_by_entry_summary (data apply_data) entry data_file_out
                index_file_out offset (child_of env i) Hchild Hlen)
      as (r & Hr & Hret & _).
    assert (setup_errno data_file_out (child_of env i) = 0) as Hsetup.
    { destruct Hchild as (Hin & Hout & Hfork & _). unfold setup_errno.
      rewrite Hin, Hout, Hfork. cbn. rewrite andb_false_r. reflexivity. }
    destruct (@apply_by_entry_inv (data apply_data) entry data_file_out index_file_out
                offset (child_of env i) r Hsetup Hr)
      as (wl & st1 & tail & Hwl & _ & Htr & _ & Hon).
    destruct (Hon Hcap) as (reads & bytes & rest & -> & _ & _ & _ & D4 & _ & _ & _ & Hoff).
    pose proof (apply_by_entry_no_stream _ _ _ _ _ _ Hr) as Hfclose.
    rewrite Hr. cbn [bind]. rewrite Hret. cbn [EXIT_SUCCESS Z.eqb negb].
    destruct (IH (i + 1) (ar_offset r)) as (tr & -> & Tc & Tl & Tf).
    { intros j Hj. apply Hrun. cbn [fst snd] in *. lia. }
    { exact Hcap. }
    cbn [bind fst snd]. eexists. split; [reflexivity |].
    destruct (runner_setup_quiet (is_open data_file_out)) as (_ & S2 & _).
    destruct (runner_report_quiet entry (wait_status (child_of env i))) as (_ & R2 & _).
    destruct (@write_rounds_io (child_of env i) (entry_name entry) (is_open data_file_out)
                _ _ _ _ Hwl) as (_ & _ & W3 & _).
    rewrite inserts_app, fclose_calls_app, Hfclose, Tf, Htr. unfold capture_tail.
    rewrite !inserts_app, S2, R2, W3, D4. cbn [inserts flat_map app].
    split; [| split; [simpl; rewrite Tl; reflexivity | reflexivity]].
    cbn [chained]. split; [reflexivity |]. rewrite <- Hoff. exact Tc.
Qed.

End CallbackRuns.

(** X13: when the output is captured and the children of a chunk run, the
    callback makes one append per entry of the chunk; the first is at
    offset 0 of the shard of the chunk, whatever was appended for the
    chunks before, and each of the others starts where the one before it
    ended.  The streams opened are then closed once each, the index stream
    first. *)
Theorem payload_appends_chained env apply_data worker_splits_head first last :
  (forall path, In path (chunk_streams env apply_data first last) -> fopen_ok env path = true) ->
  first <= last ->
  chunk_runs env apply_data (first, last) ->
  is_open (data_filename_out apply_data) = true ->
  exists r,
    ffindex_apply_worker_payload env worker_splits_head first last apply_data = Done r
    /\ chained 0 (inserts (pr_trace r))
    /\ Z.of_nat (List.length (inserts (pr_trace r))) = last - first
    /\ fopen_calls (pr_trace r) = chunk_streams env apply_data first last
    /\ fclose_calls (pr_trace r) = rev (chunk_streams env apply_data first last).
Proof.
  intros Hopen Hle Hrun Hcap.
  rewrite payload_opens by exact Hopen. unfold payload_body.
  set (dfo := chunk_file env first last (data_filename_out apply_data)).
  set (ifo := chunk_file env first last (index_filename_out apply_data)).
  assert (first + Z.of_nat (Z.to_nat (last - first)) = last) as Hlast by lia.
  destruct (@payload_loop_chained env apply_data dfo ifo (Z.to_nat (last - first)) first 0)
    as (tr & Htr & Tc & Tl & Tf).
  { rewrite Hlast. exact Hrun. }
  { subst dfo. rewrite chunk_file_is_open. exact Hcap. }
  destruct (@payload_loop_runs env apply_data dfo ifo (Z.to_nat (last - first)) first 0)
    as (tr' & Htr' & _ & _ & To & _).
  { rewrite Hlast. exact Hrun. }
  rewrite Htr in Htr'. injection Htr' as <-. rewrite Htr.
  cbn [bind fst snd]. eexists. split; [reflexivity |]. cbn [pr_trace].
  destruct (fopen_streams_quiet env apply_data first last) as (_ & _ & O3 & O4 & O5 & _).
  destruct (fclose_events_silent ifo) as (_ & _ & I3 & _).
  destruct (fclose_events_silent dfo) as (_ & _ & D3 & _).
  assert (forall f, inserts (fclose_events f) = []) as Hnone by (intros [p |]; reflexivity).
  rewrite !inserts_app, !fopen_calls_app, !fclose_calls_app.
  rewrite O3, O4, O5, Tf, To, I3, D3, !Hnone, !app_nil_r. cbn [app].
  split; [exact Tc |]. split; [lia |]. split; [reflexivity |].
  rewrite <- fclose_calls_app. apply fclose_streams.
Qed.

Lemma payload_appends_chained_witness :
  exists r,
    ffindex_apply_worker_payload (example_env 1 (list_byte_of_string "x") 0) [] 0 2
      (example_apply_data (Some "out.ffdata"%string) (Some "out.ffindex"%string)) = Done r
    /\ chained 0 (inserts (pr_trace r))
    /\ Z.of_nat (List.length (inserts (pr_trace r))) = 2 - 0
    /\ fopen_calls (pr_trace r)
       = ["out.ffdata.1.0.2"%string; "out.ffindex.1.0.2"%string]
    /\ fclose_calls (pr_trace r)
       = ["out.ffindex.1.0.2"%string; "out.ffdata.1.0.2"%string].
Proof.
  apply (@payload_appends_chained (example_env 1 (list_byte_of_string "x") 0)
           (example_apply_data (Some "out.ffdata"%string) (Some "out.ffindex"%string))
           [] 0 2).
  - reflexivity.
  - lia.
  - apply example_chunk_runs; [vm_compute; discriminate | lia | lia].
  - reflexivity.
Defined.

(** ** The merges and the callback *)

(** X14: the worker merge undoes what the callback did for a chunk: when
    the bounds of the chunk fit an [int] and the merge command succeeds, the
    files removed for the chunk are the files the callback created for it,
    the index shard first. *)
Theorem worker_merge_removes_created env apply_data worker_splits_head first last dat idx
  system :
  data_filename_out apply_data = Some dat ->
  index_filename_out apply_data = Some idx ->
  (forall path, In path (chunk_streams env apply_data first last) -> fopen_ok env path = true) ->
  0 <= first <= last -> last <= INT_MAX ->
  chunk_runs env apply_data (first, last) ->
  (forall command, system command = 0) ->
  exists r,
    ffindex_apply_worker_payload env worker_splits_head first last apply_data = Done r
    /\ flat_map ms_removed
         (ffindex_worker_merge_splits system (Some dat) (Some idx) (MPQ_rank env) 1
            (pr_splits r))
       = rev (fopen_calls (pr_trace r))
         ++ flat_map ms_removed
              (ffindex_worker_merge_splits system (Some dat) (Some idx) (MPQ_rank env) 1
                 worker_splits_head).
Proof.
  intros Hdat Hidx Hopen Hfirst Hlast Hrun Hsys.
  rewrite payload_opens by exact Hopen.
  destruct (@payload_body_runs env apply_data
              (chunk_file env first last (data_filename_out apply_data))
              (chunk_file env first last (index_filename_out apply_data))
              worker_splits_head first last
              (map (fun path => EvFopen path true) (chunk_streams env apply_data first last))
              ltac:(lia) Hrun)
    as (r & -> & _ & Hsplits & _ & _ & Hfopen & _).
  exists r. split; [reflexivity |].
  destruct (fopen_streams_quiet env apply_data first last) as (_ & _ & _ & O4 & _).
  rewrite Hsplits, Hfopen, O4.
  rewrite !to_int_small by range_lia.
  unfold chunk_streams, chunk_stream. rewrite Hdat, Hidx.
  unfold ffindex_worker_merge_splits. cbn [map flat_map app rev].
  rewrite merge_one_removed. cbn [merge_one ms_exit_status ms_src].
  rewrite Hsys. reflexivity.
Qed.

Lemma worker_merge_removes_created_witness :
  exists r,
    ffindex_apply_worker_payload (example_env 1 (list_byte_of_string "x") 0) [] 0 2
      (example_apply_data (Some "out.ffdata"%string) (Some "out.ffindex"%string)) = Done r
    /\ flat_map ms_removed
         (ffindex_worker_merge_splits (fun _ => 0) (Some "out.ffdata"%string)
            (Some "out.ffindex"%string) 1 1 (pr_splits r))
       = rev (fopen_calls (pr_trace r))
         ++ flat_map ms_removed
              (ffindex_worker_merge_splits (fun _ => 0) (Some "out.ffdata"%string)
                 (Some "out.ffindex"%string) 1 1 []).
Proof.
  apply (@worker_merge_removes_created (example_env 1 (list_byte_of_string "x") 0)
           (example_apply_data (Some "out.ffdata"%string) (Some "out.ffindex"%string))
           [] 0 2 "out.ffdata" "out.ffindex" (fun _ => 0)).
  - reflexivity.
  - reflexivity.
  - reflexivity.
  - lia.
  - unfold INT_MAX. lia.
  - apply example_chunk_runs; [vm_compute; discriminate | lia | lia].
  - reflexivity.
Defined.

(** X15: the worker merge never reads the status recorded for a chunk: two
    lists of finished chunks with the same bounds give the same merge
    commands and the same removals, so that a chunk whose processing
    failed is merged and removed like any other. *)
Theorem worker_merge_ignores_status system data_filename index_filename worker_rank
  remove_temporary splits splits' :
  map ws_bounds splits = map ws_bounds splits' ->
  ffindex_worker_merge_splits system data_filename index_filename worker_rank
    remove_temporary splits
  = ffindex_worker_merge_splits system data_filename index_filename worker_rank
      remove_temporary splits'.
Proof.
  intros Hsame. unfold ffindex_worker_merge_splits.
  destruct data_filename as [dat |]; [| reflexivity].
  destruct index_filename as [idx |]; [| reflexivity].
  revert splits' Hsame.
  induction splits as [| entry splits IH]; intros [| entry' splits'] Hsame;
    try discriminate Hsame; [reflexivity |].
  cbn [map] in *. injection Hsame as Hstart Hend Hrest.
  rewrite Hstart, Hend. f_equal. apply IH. exact Hrest.
Qed.

Lemma worker_merge_ignores_status_witness :
  ffindex_worker_merge_splits (fun _ => 0) (Some "out.ffdata"%string)
    (Some "out.ffindex"%string) 1 1 [{| ws_start := 0; ws_end := 2; ws_status := 11 |}]
  = ffindex_worker_merge_splits (fun _ => 0) (Some "out.ffdata"%string)
      (Some "out.ffindex"%string) 1 1 [{| ws_start := 0; ws_end := 2; ws_status := 0 |}].
Proof.
  apply (@worker_merge_ignores_status (fun _ => 0) (Some "out.ffdata"%string)
           (Some "out.ffindex"%string) 1 1
           [{| ws_start := 0; ws_end := 2; ws_status := 11 |}]
           [{| ws_start := 0; ws_end := 2; ws_status := 0 |}]).
  reflexivity.
Defined.

Lemma substring_length n : forall s,
  String.length (substring 0 n s) = Nat.min n (String.length s).
Proof.
  induction n as [| n IH]; intros [| c s]; simpl; try reflexivity.
  now rewrite IH.
Qed.

Lemma snprintf_length size s :
  String.length (snprintf size s) = Nat.min (Z.to_nat (size - 1)) (String.length s).
Proof. apply substring_length. Qed.

(** X16: a merge command is cut at [FILENAME_MAX - 1] characters, the limit
    handed to [snprintf], although its buffer holds five times as many: as
    each base name occurs twice in it, the command that is run is not the
    whole command as soon as the two base names have [FILENAME_MAX / 2]
    characters together, even though every file name still fits. *)
Theorem merge_command_is_cut system dat idx remove_temporary src dst :
  FILENAME_MAX <= 2 * Z.of_nat (String.length dat) + 2 * Z.of_nat (String.length idx) ->
  Z.of_nat (String.length (ms_command (merge_one system dat idx remove_temporary src dst)))
  = FILENAME_MAX - 1
  /\ ms_command (merge_one system dat idx remove_temporary src dst)
     <> merge_command_text dat idx src dst.
Proof.
  intros Hlong. cbn [merge_one ms_command].
  assert (FILENAME_MAX + 27
          <= Z.of_nat (String.length (merge_command_text dat idx src dst))) as Hfull.
  { unfold merge_command_text. rewrite !string_app_length, !shard_name_suffix,
      !string_app_length. simpl String.length. lia. }
  change (merge_command dat idx src dst)
    with (snprintf FILENAME_MAX (merge_command_text dat idx src dst)).
  assert (Z.of_nat (String.length (snprintf FILENAME_MAX (merge_command_text dat idx src dst)))
          = FILENAME_MAX - 1) as Hcut.
  { rewrite snprintf_length. unfold FILENAME_MAX in *. lia. }
  split; [exact Hcut |].
  intros Heq. rewrite Heq in Hcut. lia.
Qed.

(** Two base names of 1024 characters: every shard name fits
    [FILENAME_MAX], the merge command does not. *)
Lemma merge_command_is_cut_witness :
  Z.of_nat (String.length
              (ms_command (merge_one (fun _ => 0) (long_name 1024) (long_name 1024) 1
                             (WorkerShard 1) FinalArchive)))
  = FILENAME_MAX - 1
  /\ ms_command (merge_one (fun _ => 0) (long_name 1024) (long_name 1024) 1
                   (WorkerShard 1) FinalArchive)
     <> merge_command_text (long_name 1024) (long_name 1024) (WorkerShard 1) FinalArchive.
Proof.
  apply (@merge_command_is_cut (fun _ => 0) (long_name 1024) (long_name 1024) 1
           (WorkerShard 1) FinalArchive).
  vm_compute. discriminate.
Defined.

(** ** The planner, outside the range of the claim *)

Lemma to_int_range z : INT_MIN <= to_int z <= INT_MAX.
Proof.
  unfold to_int, INT_MIN, INT_MAX.
  pose proof (Z.mod_pos_bound (z + 2 ^ 31) (2 ^ 32) ltac:(lia)). lia.
Qed.

(** The chunk size handed to [MPQ_Main] is a positive [int], whatever the
    arguments of the division. *)
Lemma main_chunk_size_positive n_entries MPQ_size parts c :
  main_chunk_size n_entries MPQ_size parts = Done c -> 1 <= c <= INT_MAX.
Proof.
  unfold main_chunk_size. intros H.
  apply bind_done in H. destruct H as (split_size & Hsplit & H).
  injection H as <-.
  assert (INT_MIN <= split_size <= INT_MAX) as Hrange.
  { unfold main_split_size in Hsplit.
    apply bind_done in Hsplit. destruct Hsplit as (workers & _ & Hsplit).
    apply bind_done in Hsplit. destruct Hsplit as (divisor & _ & Hsplit).
    destruct (to_size_t divisor =? 0); [discriminate |].
    injection Hsplit as <-. apply to_int_range. }
  destruct (Z.gtb_spec split_size 1) as [Hgt | Hle].
  - rewrite to_size_t_small by range_lia. lia.
  - rewrite to_size_t_small by range_lia. range_lia.
Qed.

(** X17: whenever the planner returns a chunk size, also one that the
    conversions to [int] have made wrong, the chunk size is between 1 and
    [INT_MAX], and chunks of that size, handed out in increasing order, are
    disjoint and cover every index of the archive once: the conversions
    change how the work is cut, not what is processed. *)
Theorem planner_chunks_cover n_entries MPQ_size parts c :
  0 <= n_entries ->
  main_chunk_size n_entries MPQ_size parts = Done c ->
  1 <= c <= INT_MAX
  /\ flat_map chunk_indices (MPQ_chunks n_entries c) = index_range 0 n_entries
  /\ chunks_disjoint (MPQ_chunks n_entries c).
Proof.
  intros Hn H. pose proof (main_chunk_size_positive _ _ _ H) as Hc.
  split; [exact Hc |]. unfold MPQ_chunks. split.
  - apply MPQ_chunks_from_cover; lia.
  - apply MPQ_chunks_from_disjoint; lia.
Qed.

(** An archive of [2^31] entries, one worker and one part: the sum that
    should be [2^31] becomes negative as an [int] and the chunks have one
    entry each. *)
Lemma planner_chunks_cover_witness :
  1 <= 1 <= INT_MAX
  /\ flat_map chunk_indices (MPQ_chunks 2147483648 1) = index_range 0 2147483648
  /\ chunks_disjoint (MPQ_chunks 2147483648 1).
Proof.
  apply (@planner_chunks_cover 2147483648 2 1 1).
  - lia.
  - vm_compute. reflexivity.
Defined.

Lemma planner_zero_divisor n_entries MPQ_size parts :
  INT_MIN <= MPQ_size - 1 <= INT_MAX ->
  (MPQ_size - 1) * parts = 0 ->
  main_chunk_size n_entries MPQ_size parts = Undefined DivisionByZero.
Proof.
  intros Hsize Hzero. unfold main_chunk_size, main_split_size.
  rewrite (@int_result_small (MPQ_size - 1)) by exact Hsize. cbn [bind].
  rewrite Hzero. reflexivity.
Qed.

(** ** [main] *)

(** X18: on every path through [main], whichever label it leaves by, the
    files opened are closed once each, in the reverse order, and
    [MPQ_Finalize] is called exactly once. *)
Theorem main_closes_what_it_opened env parsed ret tr :
  main env parsed = Done (ret, tr) ->
  main_closed tr = rev (main_opened tr)
  /\ main_calls is_finalize tr = 1%nat.
Proof.
  unfold main, main_cleanup_2, main_cleanup_1, main_cleanup. intros H.
  destruct (positional env) as [| data_filename [| index_filename [| program_name rest]]];
    try (injection H as <- <-; cbn [fst snd];
         destruct ((EXIT_FAILURE =? EXIT_SUCCESS) && (main_rank env =? MPQ_MASTER));
         split; reflexivity).
  destruct (readable env data_filename);
    [| injection H as <- <-; cbn [fst snd];
       destruct ((EXIT_FAILURE =? EXIT_SUCCESS) && (main_rank env =? MPQ_MASTER));
       split; reflexivity].
  destruct (readable env index_filename);
    [| injection H as <- <-; cbn [fst snd];
       destruct ((EXIT_FAILURE =? EXIT_SUCCESS) && (main_rank env =? MPQ_MASTER));
       split; reflexivity].
  destruct (parsed_index env) as [index |];
    [| injection H as <- <-; cbn [fst snd];
       destruct ((EXIT_FAILURE =? EXIT_SUCCESS) && (main_rank env =? MPQ_MASTER));
       split; reflexivity].
  apply bind_done in H. destruct H as (chunk_size & _ & H).
  injection H as <- <-. cbn [fst snd].
  destruct (main_rank env =? MPQ_MASTER); split; reflexivity.
Qed.

Lemma main_closes_what_it_opened_witness :
  exists tr,
    main (example_main_env 1 3) [] = Done (EXIT_SUCCESS, tr)
    /\ main_closed tr = rev (main_opened tr)
    /\ main_calls is_finalize tr = 1%nat.
Proof.
  eexists. split; [vm_compute; reflexivity |].
  apply (@main_closes_what_it_opened (example_main_env 1 3) [] EXIT_SUCCESS).
  vm_compute. reflexivity.
Defined.

(** X19: when the setup of [main] fails (fewer than three arguments after
    the options, a file that cannot be opened, an index that cannot be
    parsed), [main] returns [EXIT_FAILURE] without handing out any work
    and without any merge, on the coordinator and on the workers alike. *)
Theorem main_setup_failure env parsed :
  main_setup_ok env = false ->
  exists tr,
    main env parsed = Done (EXIT_FAILURE, tr)
    /\ main_calls is_dispatch tr = 0%nat
    /\ main_calls is_worker_merge tr = 0%nat
    /\ main_calls is_merge tr = 0%nat.
Proof.
  unfold main_setup_ok, main, main_cleanup_2, main_cleanup_1, main_cleanup. intros Hfail.
  change (EXIT_FAILURE =? EXIT_SUCCESS) with false. cbn [andb app fst snd].
  destruct (positional env) as [| data_filename [| index_filename [| program_name rest]]];
    try (eexists; split; [reflexivity | repeat split]).
  destruct (readable env data_filename);
    [| eexists; split; [reflexivity | repeat split]].
  destruct (readable env index_filename);
    [| eexists; split; [reflexivity | repeat split]].
  destruct (parsed_index env) as [index |]; [discriminate Hfail |].
  eexists; split; [reflexivity | repeat split].
Qed.

(** An index file that cannot be opened. *)
Lemma main_setup_failure_witness :
  exists tr,
    main {| main_rank := 0; main_size := 3;
            positional := ["in.ffdata"; "in.ffindex"; "cat"]%string;
            readable := fun path => String.eqb path "in.ffdata";
            parsed_index := None |} [] = Done (EXIT_FAILURE, tr)
    /\ main_calls is_dispatch tr = 0%nat
    /\ main_calls is_worker_merge tr = 0%nat
    /\ main_calls is_merge tr = 0%nat.
Proof.
  apply (@main_setup_failure
           {| main_rank := 0; main_size := 3;
              positional := ["in.ffdata"; "in.ffindex"; "cat"]%string;
              readable := fun path => String.eqb path "in.ffdata";
              parsed_index := None |} []).
  reflexivity.
Defined.

(** X20: when the setup succeeds and the planner returns a chunk size,
    [main] returns [EXIT_SUCCESS], whatever the callbacks did; [SIGPIPE] is
    ignored before the work is handed out, once, with the number of
    entries of the index and that chunk size.  A worker then merges its
    chunk shards before [MPQ_Finalize] and makes no final merge; the
    coordinator makes no worker merge, and its final merge over
    [MPQ_size] is the last call, after [MPQ_Finalize]. *)
Theorem main_run env parsed index chunk_size :
  main_setup_ok env = true ->
  parsed_index env = Some index ->
  main_chunk_size (Z.of_nat (List.length index)) (main_size env)
    (parts (main_options parsed)) = Done chunk_size ->
  exists before work after,
    main env parsed
    = Done (EXIT_SUCCESS,
            before ++ [MainSigaction SIGPIPE;
                       MainDispatch (Z.of_nat (List.length index)) chunk_size]
            ++ work ++ after)
    /\ main_calls is_dispatch (before ++ work ++ after) = 0%nat
    /\ main_calls is_worker_merge (before ++ after) = 0%nat
    /\ main_calls is_merge (before ++ work) = 0%nat
    /\ In MainFinalize after
    /\ work = (if main_rank env =? MPQ_MASTER then []
               else [MainWorkerMerge (opt_data_filename_out (main_options parsed))
                       (opt_index_filename_out (main_options parsed)) (main_rank env) 1])
    /\ (main_rank env = MPQ_MASTER ->
        exists closing,
          after = closing ++ [MainFinalize;
                              MainMerge (opt_data_filename_out (main_options parsed))
                                (opt_index_filename_out (main_options parsed))
                                (main_size env) 1])
    /\ (main_rank env <> MPQ_MASTER -> main_calls is_merge after = 0%nat).
Proof.
  unfold main_setup_ok, main, main_cleanup_2, main_cleanup_1, main_cleanup.
  intros Hok Hindex Hsize.
  destruct (positional env) as [| data_filename [| index_filename [| program_name rest]]];
    try discriminate Hok.
  rewrite Hindex in *.
  destruct (readable env data_filename); [| discriminate Hok].
  destruct (readable env index_filename); [| discriminate Hok].
  rewrite Hsize. cbn [bind fst snd]. change (EXIT_SUCCESS =? EXIT_SUCCESS) with true.
  cbn [andb negb].
  exists [MainInit; MainFopen data_filename true; MainFopen index_filename true;
          MainMmap data_filename].
  destruct (Z.eqb_spec (main_rank env) MPQ_MASTER) as [Hmaster | Hworker]; cbn [negb].
  - exists [], [MainMunmapIndex; MainMunmapData; MainFclose index_filename;
                MainFclose data_filename; MainFinalize;
                MainMerge (opt_data_filename_out (main_options parsed))
                  (opt_index_filename_out (main_options parsed)) (main_size env) 1].
    split; [reflexivity |]. repeat split.
    + simpl. auto 10.
    + intros _. exists [MainMunmapIndex; MainMunmapData; MainFclose index_filename;
                        MainFclose data_filename]. reflexivity.
    + intros Hne. contradiction.
  - exists [MainWorkerMerge (opt_data_filename_out (main_options parsed))
              (opt_index_filename_out (main_options parsed)) (main_rank env) 1],
      [MainMunmapIndex; MainMunmapData; MainFclose index_filename;
       MainFclose data_filename; MainFinalize].
    split; [reflexivity |]. repeat split.
    + simpl. auto 10.
    + intros Heq. contradiction.
Qed.

(** The coordinator of a run of three processes over the example. *)
Lemma main_run_witness :
  exists before work after,
    main (example_main_env 0 3) [] 
    = Done (EXIT_SUCCESS,
            before ++ [MainSigaction SIGPIPE; MainDispatch (Z.of_nat 2) 1] ++ work ++ after)
    /\ main_calls is_dispatch (before ++ work ++ after) = 0%nat
    /\ main_calls is_worker_merge (before ++ after) = 0%nat
    /\ main_calls is_merge (before ++ work) = 0%nat
    /\ In MainFinalize after
    /\ work = (if 0 =? MPQ_MASTER then []
               else [MainWorkerMerge None None 0 1])
    /\ (0 = MPQ_MASTER ->
        exists closing, after = closing ++ [MainFinalize; MainMerge None None 3 1])
    /\ (0 <> MPQ_MASTER -> main_calls is_merge after = 0%nat).
Proof.
  apply (@main_run (example_main_env 0 3) [] example_index 1).
  - reflexivity.
  - reflexivity.
  - vm_compute. reflexivity.
Defined.

(** X21: a run of a single process, which has no worker, opens its files
    and then divides by zero in the planner, whatever the archive and the
    options: it never reaches the code that closes the files. *)
Theorem main_without_workers env parsed :
  main_setup_ok env = true ->
  main_size env = 1 ->
  main env parsed = Undefined DivisionByZero.
Proof.
  unfold main_setup_ok, main. intros Hok Hsize.
  destruct (positional env) as [| data_filename [| index_filename [| program_name rest]]];
    try discriminate Hok.
  destruct (readable env data_filename); [| discriminate Hok].
  destruct (readable env index_filename); [| discriminate Hok].
  destruct (parsed_index env) as [index |]; [| discriminate Hok].
  rewrite Hsize, (@planner_zero_divisor (Z.of_nat (List.length index)) 1
                    (parts (main_options parsed))); [reflexivity | range_lia | lia].
Qed.

Lemma main_without_workers_witness :
  main (example_main_env 0 1) [] = Undefined DivisionByZero.
Proof.
  apply (@main_without_workers (example_main_env 0 1) []); reflexivity.
Defined.

(** ** The child *)

(** Case analysis on the descriptors compared. *)
Ltac fd_cases :=
  repeat match goal with
         | |- context [?a =? ?b] =>
             destruct (Z.eqb_spec a b); try lia; try congruence
         end.



(** X23: when the read end of the input pipe is descriptor 0, as it is in a
    worker started with its standard input closed, [dup2] has nothing to do
    and the [close] that follows closes the pipe: the program starts without
    a standard input. *)
Theorem child_loses_stdin p data_file_out index_file_out t :
  pipefd_stdin_0 p = STDIN_FILENO ->
  (is_open data_file_out = true -> is_open index_file_out = true) ->
  exists st,
    child_branch p data_file_out index_file_out None t = Done (Execs st)
    /\ cs_table st STDIN_FILENO = None.
Proof.
  intros Hzero Hidx. unfold child_branch, sys_dup2, sys_close. rewrite Hzero.
  destruct data_file_out as [dpath |]; cbn [is_open] in *.
  - destruct index_file_out as [ipath |]; [| discriminate (Hidx eq_refl)].
    cbn [bind]. rewrite Z.eqb_refl.
    match goal with |- context [match ?x with Some _ => _ | None => _ end] => destruct x end;
      match goal with |- context [match ?x with Some _ => _ | None => _ end] => destruct x end;
      (eexists; split; [reflexivity |]); cbn [cs_table]; unfold STDIN_FILENO, STDOUT_FILENO;
      fd_cases; reflexivity.
  - cbn [bind]. rewrite Z.eqb_refl.
    match goal with |- context [match ?x with Some _ => _ | None => _ end] => destruct x end;
      (eexists; split; [reflexivity |]); cbn [cs_table]; rewrite Z.eqb_refl; reflexivity.
Qed.

Lemma child_loses_stdin_witness :
  exists st,
    child_branch stdin_closed_pipe_fds None None None stdin_closed_fd_table
    = Done (Execs st)
    /\ cs_table st STDIN_FILENO = None.
Proof.
  apply (@child_loses_stdin stdin_closed_pipe_fds None None stdin_closed_fd_table).
  - reflexivity.
  - discriminate.
Defined.

(** X24: with [-d] and without [-i] the output is captured and
    [index_file_out] is [NULL]: every child calls [fclose(index_file_out)]
    on the null pointer before it reaches [execvp]. *)
Theorem child_fclose_null p data_file_out execvp_errno t :
  is_open data_file_out = true ->
  child_in_callback p data_file_out None execvp_errno t = Undefined NullDereference.
Proof.
  intros Hcap. destruct data_file_out as [dpath |]; [reflexivity | discriminate Hcap].
Qed.

Lemma child_fclose_null_witness :
  child_in_callback example_pipe_fds (Some "out.ffdata.1.0.2"%string) None None
    (example_fd_table true) = Undefined NullDereference.
Proof.
  apply (@child_fclose_null example_pipe_fds (Some "out.ffdata.1.0.2"%string) None
           (example_fd_table true)).
  reflexivity.
Defined.



(** ** The size of [read_buffer] *)

Lemma read_step_ends w nonblock st :
  read_step w nonblock st = Undefined BufferOverflow
  \/ exists r st1, read_step w nonblock st = Done (r, st1).
Proof.
  unfold read_step. destruct (sys_read w nonblock (ps_nreads st) (ps_out st)) as [r bytes].
  destruct (r >? 0); [| right; eauto].
  destruct (Z.of_nat (List.length (ps_captured st)) + r >? READ_BUFFER_SIZE);
    [left; reflexivity | right; eauto].
Qed.

Section WriteLoopLength.

Variable w : child.
Variable name : string.
Variable capture : bool.
Variable to_write : Z.
Hypothesis to_write_range : 0 <= to_write <= SSIZE_MAX.
Hypothesis pipe : pipe_like w.

(** With a pipe that behaves as a pipe the write loop ends, whatever the
    size of the output of the child: it returns, or a [read] stores past
    the end of [read_buffer]. *)
Lemma write_loop_ends fuel : forall st,
  -1 <= ps_written st <= to_write ->
  rounds_left w to_write st <= Z.of_nat fuel ->
  write_loop fuel w name capture to_write st = Undefined BufferOverflow
  \/ exists evs st', write_loop fuel w name capture to_write st = Done (evs, st').
Proof.
  induction fuel as [| fuel IH]; intros st Hwr Hfuel.
  - right. exists [], st. apply write_loop_exit.
    unfold rounds_left in Hfuel.
    destruct (write_at w (ps_nwrites st)); [lia |].
    replace (ps_written st) with (-1) by lia. rewrite to_size_t_minus_one. range_lia.
  - destruct (Z.eq_dec (ps_written st) (-1)) as [Hm | Hm].
    { right. exists [], st. apply write_loop_exit.
      rewrite Hm, to_size_t_minus_one. range_lia. }
    destruct (Z.eq_dec (ps_written st) to_write) as [Hend | Hend].
    { right. exists [], st. apply write_loop_exit.
      rewrite to_size_t_small by range_lia. lia. }
    rewrite write_loop_step by (rewrite to_size_t_small by range_lia; lia).
    cbv zeta.
    pose proof (@batch_of_range to_write (ps_written st) ltac:(lia) ltac:(lia)) as [Hb1 Hb2].
    set (batch := batch_of to_write (ps_written st)) in *. clearbody batch.
    assert (forall ret st1,
              -1 <= ps_written st + ret <= to_write ->
              ps_written st1 = ps_written st + ret ->
              ps_nwrites st1 = S (ps_nwrites st) ->
              rounds_left w to_write st1 <= Z.of_nat fuel ->
              forall head,
              (more <- write_loop fuel w name capture to_write st1 ;;
               Done (head ++ fst more, snd more))
              = Undefined BufferOverflow
              \/ exists evs st',
                   (more <- write_loop fuel w name capture to_write st1 ;;
                    Done (head ++ fst more, snd more)) = Done (evs, st')) as Hgo.
    { intros ret st1 Hret Hw1 Hn1 Hleft head.
      destruct (IH st1 ltac:(lia) Hleft) as [-> | (evs & st' & ->)];
        [left; reflexivity | right; cbn [bind fst snd]; eauto]. }
    unfold rounds_left in Hfuel. unfold sys_write.
    destruct (write_at w (ps_nwrites st)) as [c | e] eqn:Hw.
    + pose proof (proj1 pipe _ _ Hw) as Hc.
      destruct (Z.ltb_spec (Z.min c batch) 0); [lia |]. cbn [andb].
      rewrite ssize_result_small by range_lia. cbn [bind].
      assert (forall st1,
                ps_written st1 = ps_written st + Z.min c batch ->
                ps_nwrites st1 = S (ps_nwrites st) ->
                rounds_left w to_write st1 <= Z.of_nat fuel) as Hleft.
      { intros st1 Hw1 Hn1. unfold rounds_left. rewrite Hw1.
        destruct (write_at w (ps_nwrites st1)); lia. }
      destruct capture.
      * destruct (read_step_ends w true (after_write st (ps_written st + Z.min c batch)))
          as [-> | (r & st1 & Hrd)]; [left; reflexivity |].
        rewrite Hrd. cbn [bind fst snd].
        destruct (@read_step_keeps w true _ r st1 Hrd) as (K1 & K2 & _).
        cbn [ps_written ps_nwrites after_write] in K1, K2.
        apply (Hgo (Z.min c batch) st1 ltac:(lia) K1 K2 (Hleft st1 K1 K2) [_; _]).
      * apply (Hgo (Z.min c batch) (after_write st (ps_written st + Z.min c batch))
                 ltac:(lia) eq_refl eq_refl (Hleft (after_write st _) eq_refl eq_refl) [_]).
    + cbn [Z.ltb Z.compare andb].
      destruct (Z.eqb_spec e EPIPE) as [-> | Hother]; cbn [negb]; [| right; eauto].
      rewrite ssize_result_small by range_lia. cbn [bind].
      assert (forall st1,
                ps_written st1 = ps_written st + -1 ->
                ps_nwrites st1 = S (ps_nwrites st) ->
                rounds_left w to_write st1 <= Z.of_nat fuel) as Hleft.
      { intros st1 Hw1 Hn1. unfold rounds_left. rewrite Hw1, Hn1.
        rewrite (proj2 pipe _ Hw (S (ps_nwrites st))) by lia. lia. }
      destruct capture.
      * destruct (read_step_ends w true (after_write st (ps_written st + -1)))
          as [-> | (r & st1 & Hrd)]; [left; reflexivity |].
        rewrite Hrd. cbn [bind fst snd].
        destruct (@read_step_keeps w true _ r st1 Hrd) as (K1 & K2 & _).
        cbn [ps_written ps_nwrites after_write] in K1, K2.
        apply (Hgo (-1) st1 ltac:(lia) K1 K2 (Hleft st1 K1 K2) [_; _]).
      * apply (Hgo (-1) (after_write st (ps_written st + -1))
                 ltac:(lia) eq_refl eq_refl (Hleft (after_write st _) eq_refl eq_refl) [_]).
Qed.

(** The rounds of a run of the write loop are no more than
    [rounds_left]. *)
Lemma write_rounds_bounded st evs st' :
  write_rounds w name capture to_write st evs st' ->
  -1 <= ps_written st <= to_write ->
  Z.of_nat (List.length (write_calls evs)) <= Z.max 0 (rounds_left w to_write st).
Proof.
  induction 1 as [st Hend | st ret errno Hlt Hsys Hneg Hne
                 | st ret errno written reads st1 evs st' Hlt Hsys Hgo Hwr Hrd _ IH];
    intros Hrange.
  - simpl. lia.
  - assert (0 <= ps_written st < to_write) as Hpos.
    { destruct (Z.eq_dec (ps_written st) (-1)) as [Hm | Hm].
      - rewrite Hm, to_size_t_minus_one in Hlt. revert Hlt. range_lia.
      - rewrite to_size_t_small in Hlt by range_lia. lia. }
    unfold rounds_left. simpl. destruct (write_at w (ps_nwrites st)); lia.
  - assert (0 <= ps_written st < to_write) as Hpos.
    { destruct (Z.eq_dec (ps_written st) (-1)) as [Hm | Hm].
      - rewrite Hm, to_size_t_minus_one in Hlt. revert Hlt. range_lia.
      - rewrite to_size_t_small in Hlt by range_lia. lia. }
    destruct (@batch_of_range to_write (ps_written st) Hpos ltac:(lia)) as [Hb1 Hb2].
    set (batch := batch_of to_write (ps_written st)) in *. clearbody batch.
    destruct (@round_read_keeps w capture _ reads st1 Hrd) as (K1 & K2 & _ & _ & _ & K6 & _).
    cbn [ps_written ps_nwrites after_write] in K1, K2.
    change (write_calls (EvWrite (ps_written st) batch ret :: reads ++ evs))
      with ((ps_written st, batch, ret) :: write_calls (reads ++ evs)).
    rewrite write_calls_app, K6. cbn [app List.length].
    unfold rounds_left in *. rewrite K1, K2 in IH. unfold sys_write in Hsys.
    destruct (write_at w (ps_nwrites st)) as [c | e] eqn:Hw.
    + injection Hsys as <- <-. destruct Hgo as [Hgo | Hgo]; [| discriminate].
      pose proof (proj1 pipe _ _ Hw) as Hc.
      rewrite ssize_result_small in Hwr by range_lia. injection Hwr as <-.
      specialize (IH ltac:(lia)).
      destruct (write_at w (S (ps_nwrites st))); lia.
    + injection Hsys as <- <-. destruct Hgo as [Hgo | ->]; [lia |].
      rewrite ssize_result_small in Hwr by range_lia. injection Hwr as <-.
      specialize (IH ltac:(lia)).
      rewrite (proj2 pipe _ Hw (S (ps_nwrites st))) in IH by lia. lia.
Qed.

End WriteLoopLength.

(** A [read] that returns a positive count takes bytes from the pipe. *)
Lemma read_step_consumes w nonblock st r st1 :
  read_step w nonblock st = Done (r, st1) -> 0 < r ->
  (List.length (ps_out st1) < List.length (ps_out st))%nat.
Proof.
  unfold read_step. intros Hrd Hpos.
  pose proof (sys_read_spec w nonblock (ps_nreads st) (ps_out st)) as Hs.
  destruct (sys_read w nonblock (ps_nreads st) (ps_out st)) as [r' bytes].
  destruct (Z.gtb_spec r' 0) as [Hgt | Hle].
  - destruct (Z.of_nat (List.length (ps_captured st)) + r' >? READ_BUFFER_SIZE);
      [discriminate |].
    injection Hrd as <- <-. cbn [ps_out].
    destruct Hs as [[Hr0 _] | (_ & Hlen & Hsplit)]; [lia |].
    apply (f_equal (@List.length _)) in Hsplit. rewrite length_app in Hsplit. lia.
  - injection Hrd as <- _. lia.
Qed.

(** The drain loop ends: it returns, or a [read] stores past the end of
    [read_buffer]. *)
Lemma drain_loop_ends w fuel : forall st,
  (List.length (ps_out st) < fuel)%nat ->
  drain_loop fuel w st = Undefined BufferOverflow
  \/ exists evs st', drain_loop fuel w st = Done (evs, st').
Proof.
  induction fuel as [| fuel IH]; intros st Hfuel; [lia |].
  cbn [drain_loop].
  destruct (read_step_ends w false st) as [-> | (r & st1 & Hrd)]; [left; reflexivity |].
  rewrite Hrd. cbn [bind fst snd].
  destruct (Z.gtb_spec r 0) as [Hpos | Hle]; [| right; eauto].
  pose proof (read_step_consumes _ _ _ Hrd ltac:(lia)) as Hless.
  destruct (IH st1 ltac:(lia)) as [-> | (evs & st' & ->)];
    [left; reflexivity | right; cbn [bind fst snd]; eauto].
Qed.

(** With [read]s that succeed, the drain loop of a child that wrote more
    than [read_buffer] holds stores past its end. *)
Lemma drain_loop_overflows w fuel : forall st,
  reads_succeed w ->
  Z.of_nat (List.length (ps_captured st)) <= READ_BUFFER_SIZE ->
  READ_BUFFER_SIZE < Z.of_nat (List.length (ps_captured st ++ ps_out st)) ->
  (List.length (ps_out st) < fuel)%nat ->
  drain_loop fuel w st = Undefined BufferOverflow.
Proof.
  induction fuel as [| fuel IH]; intros st Hreads Hfit Hbig Hfuel; [lia |].
  cbn [drain_loop].
  destruct (read_step_ends w false st) as [-> | (r & st1 & Hrd)]; [reflexivity |].
  rewrite Hrd. cbn [bind fst snd].
  destruct (@read_step_keeps w false st r st1 Hrd) as (_ & _ & K3 & K4 & _).
  assert (0 < r) as Hpos.
  { assert (ps_out st <> []) as Hout.
    { intros Hnil. rewrite Hnil, app_nil_r in Hbig. lia. }
    pose proof (@sys_read_blocking w (ps_nreads st) (ps_out st) Hreads Hout) as Hr.
    unfold read_step in Hrd.
    destruct (sys_read w false (ps_nreads st) (ps_out st)) as [r' bytes]. cbn [fst] in Hr.
    destruct (Z.gtb_spec r' 0) as [_ | Hle]; [| lia].
    destruct (Z.of_nat (List.length (ps_captured st)) + r' >? READ_BUFFER_SIZE);
      [discriminate |].
    injection Hrd as <- _. exact Hr. }
  pose proof (read_step_consumes _ _ _ Hrd Hpos) as Hless.
  destruct (Z.gtb_spec r 0) as [_ | Hle]; [| lia].
  rewrite (IH st1 Hreads); [reflexivity | | | lia].
  - unfold READ_BUFFER_SIZE in *. lia.
  - rewrite K3. exact Hbig.
Qed.

(** X9: with a pipe that behaves as a pipe the runner comes to an end for
    every entry and every child, also one whose pipes or [fork] fail, whose
    [read]s fail or whose output is larger than [read_buffer]: the write
    loop makes no more than [2 * (length - 1) + 2] rounds, the drain loop
    no more than one round per byte of output and one more, and the only
    undefined behaviour that can be reached is the store past the end of
    [read_buffer]. *)
Theorem runner_ends data entry data_file_out index_file_out offset w :
  pipe_like w -> 1 <= entry_length entry <= SSIZE_MAX ->
  ffindex_apply_by_entry data entry data_file_out index_file_out offset w
  = Undefined BufferOverflow
  \/ exists r,
       ffindex_apply_by_entry data entry data_file_out index_file_out offset w = Done r
       /\ Z.of_nat (List.length (write_calls (ar_trace r)))
          <= 2 * (entry_length entry - 1) + 2.
Proof.
  intros Hpipe Hlen.
  destruct (Z.eq_dec (setup_errno data_file_out w) 0) as [Hsetup | Hsetup].
  2:{ right.
      destruct (@apply_by_entry_setup_fails data entry data_file_out index_file_out offset w
                  Hsetup) as (tr & Htr & Hnone & _).
      eexists. split; [exact Htr |]. cbn [ar_trace]. rewrite Hnone.
      cbn [List.length]. lia. }
  assert (ffindex_apply_by_entry data entry data_file_out index_file_out offset w
          = Undefined BufferOverflow
          \/ exists r,
               ffindex_apply_by_entry data entry data_file_out index_file_out offset w
               = Done r) as [Hover | (r & Hr)].
  { destruct (setup_errno_zero _ _ Hsetup) as (Hin & Hfork & Hout).
    unfold ffindex_apply_by_entry.
    rewrite Hin, Hfork, Hout. cbn [Z.eqb negb]. fold (runner_start w).
    rewrite to_size_t_small by range_lia.
    destruct (@write_loop_ends w (entry_name entry) (is_open data_file_out)
                (entry_length entry - 1) ltac:(lia) Hpipe
                (write_fuel (entry_length entry - 1)) (runner_start w))
      as [-> | (wl & st1 & ->)]; [| | left; reflexivity |].
    - cbn [runner_start ps_written]. lia.
    - unfold rounds_left, write_fuel. cbn [runner_start ps_written ps_nwrites].
      destruct (write_at w 0); lia.
    - cbn [bind fst snd]. destruct (is_open data_file_out).
      + destruct (@drain_loop_ends w (S (List.length (ps_out st1))) st1 ltac:(lia))
          as [-> | (dl & st2 & ->)]; [left; reflexivity |].
        right. cbn [bind fst snd]. eauto.
      + right. cbn [bind fst snd]. eauto. }
  - left. exact Hover.
  - right. exists r. split; [exact Hr |].
    destruct (@apply_by_entry_calls data entry data_file_out index_file_out offset w r
                Hsetup Hr) as (wl & st1 & Hwl & -> & _).
    rewrite to_size_t_small in Hwl by range_lia.
    pose proof (@write_rounds_bounded w (entry_name entry) (is_open data_file_out)
                  (entry_length entry - 1) ltac:(lia) Hpipe _ _ _ Hwl
                  ltac:(cbn [runner_start ps_written]; lia)) as Hbound.
    unfold rounds_left in Hbound. cbn [runner_start ps_written ps_nwrites] in Hbound.
    destruct (write_at w 0); lia.
Qed.

(** The entry of 4097 bytes and a child that closes its input after the
    first [write]. *)
Lemma runner_ends_witness :
  ffindex_apply_by_entry long_data long_entry None None 0 child_closing_early
  = Undefined BufferOverflow
  \/ exists r,
       ffindex_apply_by_entry long_data long_entry None None 0 child_closing_early = Done r
       /\ Z.of_nat (List.length (write_calls (ar_trace r))) <= 2 * (4098 - 1) + 2.
Proof.
  apply (@runner_ends long_data long_entry None None 0 child_closing_early).
  - split.
    + intros k c H. destruct k; [injection H as <-; unfold PIPE_BUF; lia | discriminate H].
    + intros k H j Hj. destruct k; [discriminate H |]. destruct j; [lia | reflexivity].
  - unfold SSIZE_MAX. cbn [entry_length long_entry]. lia.
Defined.

(** X10: [read_buffer] has no bounds check: when the output is captured,
    the [read]s succeed and the child writes more than the 400 MiB that
    [read_buffer] holds, the runner stores past the end of the buffer. *)
Theorem runner_overflows_read_buffer data entry data_file_out index_file_out offset w :
  setup_errno data_file_out w = 0 -> pipe_like w -> reads_succeed w ->
  1 <= entry_length entry <= SSIZE_MAX ->
  is_open data_file_out = true ->
  READ_BUFFER_SIZE < Z.of_nat (List.length (child_stdout w)) ->
  ffindex_apply_by_entry data entry data_file_out index_file_out offset w
  = Undefined BufferOverflow.
Proof.
  intros Hsetup Hpipe Hreads Hlen Hcap Hbig.
  destruct (setup_errno_zero _ _ Hsetup) as (Hin & Hfork & Hout).
  unfold ffindex_apply_by_entry.
  rewrite Hin, Hfork, Hout. cbn [Z.eqb negb]. fold (runner_start w).
  rewrite to_size_t_small by range_lia. rewrite Hcap.
  destruct (@write_loop_ends w (entry_name entry) true (entry_length entry - 1)
              ltac:(lia) Hpipe (write_fuel (entry_length entry - 1)) (runner_start w))
    as [-> | (wl & st1 & Hwl)]; [| | reflexivity |].
  - cbn [runner_start ps_written]. lia.
  - unfold rounds_left, write_fuel. cbn [runner_start ps_written ps_nwrites].
    destruct (write_at w 0); lia.
  - rewrite Hwl. cbn [bind fst snd].
    pose proof (write_loop_rounds _ _ _ _ _ _ Hwl) as Hrounds.
    destruct (@write_rounds_io w (entry_name entry) true _ _ _ _ Hrounds)
      as (_ & _ & _ & W4 & W5 & _).
    cbn [runner_start ps_captured ps_out app List.length] in W4, W5.
    rewrite (@drain_loop_overflows w (S (List.length (ps_out st1))) st1 Hreads);
      [reflexivity | | | lia].
    + change (Z.of_nat 0) with 0 in W5. unfold READ_BUFFER_SIZE in *. lia.
    + rewrite W4. exact Hbig.
Qed.

(** A child that writes one byte more than [read_buffer] holds. *)
Lemma runner_overflows_read_buffer_witness :
  ffindex_apply_by_entry example_data example_entry (Some "d"%string) (Some "i"%string) 0
    (child_writing_zeros (READ_BUFFER_SIZE + 1))
  = Undefined BufferOverflow.
Proof.
  apply (@runner_overflows_read_buffer example_data example_entry (Some "d"%string)
           (Some "i"%string) 0 (child_writing_zeros (READ_BUFFER_SIZE + 1))).
  - reflexivity.
  - split.
    + intros k c H. injection H as <-. unfold PIPE_BUF. lia.
    + intros k H. discriminate H.
  - apply child_reading_all_read.
  - unfold SSIZE_MAX. cbn [entry_length example_entry]. lia.
  - reflexivity.
  - unfold child_writing_zeros, child_reading_all. cbn [child_stdout].
    rewrite repeat_length, Z2Nat.id; unfold READ_BUFFER_SIZE; lia.
Defined.
